(** * hume-voice-demo: the command-line voice client

    A shallow embedding of [cli/database.py], [cli/config.py],
    [cli/evi_client.py], [cli/audio_handler.py] and
    [cli/conversation_manager.py], and the properties of the persistent
    store, of the configuration loader and of the session coordinator.

    Conventions of the embedding.
    - SQLite tables are lists of rows in rowid order; a [TIMESTAMP] is the
      integer number of seconds that [CURRENT_TIMESTAMP] denotes, and every
      SQL statement reads the clock once.
    - A Python exception is a value: a function that can raise returns a
      sum, and [try]/[except]/[finally] are written out as matches.
    - Everything the coordinator does to the outside world (console lines,
      log records, Store calls, channel and audio actions) is appended to a
      trace, in program order. *)

From Stdlib Require Import ZArith List String Ascii Bool Lia QArith.
From Stdlib Require Import Sorting.Sorted Sorting.Permutation.
Import ListNotations.

Local Open Scope string_scope.
Local Open Scope list_scope.
Local Open Scope Z_scope.

Set Implicit Arguments.

(** ** Python values shared by all modules *)

(** An exception object, as far as the program looks at it:
    [str(type(e))] and [str(e)]. *)
Record Exn : Type := mkExn { exn_type : string; exn_msg : string }.

(** [needle in haystack] on Python strings. *)
Fixpoint str_contains (needle haystack : string) : bool :=
  if String.prefix needle haystack then true
  else match haystack with
       | EmptyString => false
       | String _ rest => str_contains needle rest
       end.

(** [s.lower()] on ASCII text. *)
Definition ascii_lower (c : ascii) : ascii :=
  let n := nat_of_ascii c in
  if (Nat.leb 65 n && Nat.leb n 90)%bool then ascii_of_nat (n + 32) else c.

Fixpoint str_lower (s : string) : string :=
  match s with
  | EmptyString => EmptyString
  | String c rest => String (ascii_lower c) (str_lower rest)
  end.

(** Truth value of an [Optional[int]] in an [if]: [None] and [0] are
    false. *)
Definition truthy_id (o : option Z) : bool :=
  match o with
  | Some z => negb (z =? 0)
  | None => false
  end.

(** Truth value of a [str] (or [Optional[str]]): [None] and the empty
    string are false. *)
Definition truthy_str (o : option string) : bool :=
  match o with
  | Some s => negb (s =? "")%string
  | None => false
  end.

(** ** database.py *)

Module Database.

(** A row of table [conversations]. *)
Record Conversation : Type := mkConversation {
  c_id : Z;
  c_title : string;
  c_created_at : Z;
  c_updated_at : Z;
  c_status : string
}.

(** A row of table [messages]. *)
Record Message : Type := mkMessage {
  m_id : Z;
  m_conversation_id : Z;
  m_role : string;
  m_content : string;
  m_timestamp : Z;
  m_audio_duration : option Q
}.

(** The database file: both tables in rowid order and the
    [sqlite_sequence] counters that [AUTOINCREMENT] keeps. *)
Record Store : Type := mkStore {
  conversations : list Conversation;
  messages : list Message;
  seq_conversations : Z;
  seq_messages : Z
}.

(** The schema that [_init_schema] creates when the file is new. *)
Definition empty_store : Store := mkStore [] [] 0 0.

(** [AUTOINCREMENT]: one more than the largest rowid the table has ever
    held. *)
Definition max_id (ids : list Z) (seq : Z) : Z := fold_right Z.max seq ids.

Definition next_rowid (ids : list Z) (seq : Z) : Z := max_id ids seq + 1.

(** *** Connections and transactions *)

(** What a transaction has done so far ([working]) and what the file holds
    ([committed]). *)
Record Conn : Type := mkConn { committed : Store; working : Store }.

Inductive dbres (A : Type) : Type :=
| DbOk (a : A)
| DbErr (e : Exn).
Arguments DbOk {A} a.
Arguments DbErr {A} e.

(** Code running on an open connection. *)
Definition Sql (A : Type) : Type := Conn -> dbres A * Conn.

Definition sql_ret {A} (a : A) : Sql A := fun c => (DbOk a, c).

Definition sql_bind {A B} (m : Sql A) (k : A -> Sql B) : Sql B :=
  fun c => match m c with
           | (DbOk a, c1) => k a c1
           | (DbErr e, c1) => (DbErr e, c1)
           end.

Local Notation "x <- m ;; k" := (sql_bind m (fun x => k))
  (at level 61, m at next level, right associativity).
Local Notation "m ;;; k" := (sql_bind m (fun _ => k))
  (at level 61, right associativity).

(** An injected failure of the engine (database locked, disk full, ...):
    the statement of the call with this index raises this exception.  The
    commit counts as a statement. *)
Definition Fault : Type := option (nat * Exn).

Definition fault_at (f : Fault) (i : nat) : option Exn :=
  match f with
  | Some (j, e) => if Nat.eqb i j then Some e else None
  | None => None
  end.

(** [cursor.execute(stmt)]: the statement is a function of the working
    copy that either raises or yields a value and the new working copy. *)
Definition execute {A} (f : Fault) (i : nat)
    (stmt : Store -> Exn + A * Store) : Sql A :=
  fun c => match fault_at f i with
           | Some e => (DbErr e, c)
           | None =>
             match stmt (working c) with
             | inl e => (DbErr e, c)
             | inr (a, w) => (DbOk a, mkConn (committed c) w)
             end
           end.

(** [conn.commit()]. *)
Definition commit (f : Fault) (i : nat) : Sql unit :=
  fun c => match fault_at f i with
           | Some e => (DbErr e, c)
           | None => (DbOk tt, mkConn (working c) (working c))
           end.

(** [conn.rollback()]. *)
Definition rollback (c : Conn) : Conn := mkConn (committed c) (committed c).

(** [conn.close()]: what was not committed is lost. *)
Definition close (c : Conn) : Store := committed c.

(** [with self._get_connection() as conn: body].  An exception in the body
    rolls back, closes and is raised again; otherwise the connection is
    closed.  ([logger] calls of this module are not part of the model.) *)
Definition _get_connection {A} (db : Store) (body : Sql A) : dbres A * Store :=
  match body (mkConn db db) with
  | (DbErr e, c) => (DbErr e, close (rollback c))
  | (DbOk a, c) => (DbOk a, close c)
  end.

(** *** ORDER BY *)

(** SQLite sorts the scanned rows and keeps rows with equal keys in scan
    order: an insertion sort that puts a row before the first row it may
    precede. *)
Section OrderBy.
Variable A : Type.
Variable before : A -> A -> bool.

Fixpoint insert_row (x : A) (l : list A) : list A :=
  match l with
  | [] => [x]
  | y :: rest => if before x y then x :: l else y :: insert_row x rest
  end.

Fixpoint order_by (l : list A) : list A :=
  match l with
  | [] => []
  | x :: rest => insert_row x (order_by rest)
  end.
End OrderBy.

(** [LIMIT n]: a negative limit means no limit. *)
Definition sql_limit {A} (n : Z) (l : list A) : list A :=
  if n <? 0 then l else firstn (Z.to_nat n) l.

(** *** Statements *)

Definition has_conversation (w : Store) (id : Z) : bool :=
  existsb (fun c => c_id c =? id) (conversations w).

Definition foreign_key_error : Exn :=
  mkExn "<class 'sqlite3.IntegrityError'>" "FOREIGN KEY constraint failed".

(** [INSERT INTO conversations (title, status, created_at, updated_at)
     VALUES (?, 'active', CURRENT_TIMESTAMP, CURRENT_TIMESTAMP)];
    the value is [cursor.lastrowid]. *)
Definition insert_conversation (now : Z) (title : string)
    (w : Store) : Exn + Z * Store :=
  let id := next_rowid (map c_id (conversations w)) (seq_conversations w) in
  inr (id, mkStore (conversations w ++ [mkConversation id title now now "active"])
                   (messages w) id (seq_messages w)).

(** [INSERT INTO messages (conversation_id, role, content, timestamp,
     audio_duration) VALUES (?, ?, ?, CURRENT_TIMESTAMP, ?)] under
    [PRAGMA foreign_keys = ON]. *)
Definition insert_message (now : Z) (conversation_id : Z) (role content : string)
    (audio_duration : option Q) (w : Store) : Exn + Z * Store :=
  if has_conversation w conversation_id then
    let id := next_rowid (map m_id (messages w)) (seq_messages w) in
    inr (id, mkStore (conversations w)
                     (messages w ++ [mkMessage id conversation_id role content
                                               now audio_duration])
                     (seq_conversations w) id)
  else inl foreign_key_error.

(** [UPDATE conversations SET updated_at = CURRENT_TIMESTAMP WHERE id = ?]. *)
Definition touch_row (now id : Z) (c : Conversation) : Conversation :=
  if c_id c =? id
  then mkConversation (c_id c) (c_title c) (c_created_at c) now (c_status c)
  else c.

Definition update_updated_at (now id : Z) (w : Store) : Exn + unit * Store :=
  inr (tt, mkStore (map (touch_row now id) (conversations w)) (messages w)
                   (seq_conversations w) (seq_messages w)).

(** [UPDATE conversations SET status = ?, updated_at = CURRENT_TIMESTAMP
     WHERE id = ?]. *)
Definition status_row (now id : Z) (status : string) (c : Conversation)
    : Conversation :=
  if c_id c =? id
  then mkConversation (c_id c) (c_title c) (c_created_at c) now status
  else c.

Definition update_status (now id : Z) (status : string)
    (w : Store) : Exn + unit * Store :=
  inr (tt, mkStore (map (status_row now id status) (conversations w))
                   (messages w) (seq_conversations w) (seq_messages w)).

(** A [SELECT]: reads the working copy and changes nothing. *)
Definition select {A} (q : Store -> A) (w : Store) : Exn + A * Store :=
  inr (q w, w).

(** *** The operations of class [Database] *)

(** The clock of one call: the value of [CURRENT_TIMESTAMP] in its
    statement number [i]. *)
Definition Clock : Type := nat -> Z.

(** [create_conversation(title=None)]; [stamp] is
    [datetime.now().strftime('%Y-%m-%d %H:%M:%S')]. *)
Definition create_conversation (f : Fault) (clk : Clock) (stamp : string)
    (title : option string) (db : Store) : dbres Z * Store :=
  let title := if negb (truthy_str title)
               then ("Conversation " ++ stamp)%string
               else match title with Some t => t | None => "" end in
  _get_connection db
    (conversation_id <- execute f 0 (insert_conversation (clk 0%nat) title) ;;
     commit f 1 ;;;
     sql_ret conversation_id).

(** [get_conversation(conversation_id)]:
    [SELECT * FROM conversations WHERE id = ?], [fetchone()]. *)
Definition q_conversation (id : Z) (w : Store) : option Conversation :=
  find (fun c => c_id c =? id) (conversations w).

Definition get_conversation (f : Fault) (conversation_id : Z) (db : Store)
    : dbres (option Conversation) * Store :=
  _get_connection db
    (row <- execute f 0 (select (q_conversation conversation_id)) ;;
     sql_ret row).

(** [get_last_active_conversation()]:
    [WHERE status = 'active' ORDER BY updated_at DESC LIMIT 1]. *)
Definition newer_first (a b : Conversation) : bool :=
  c_updated_at b <=? c_updated_at a.

Definition q_last_active (w : Store) : option Conversation :=
  hd_error
    (sql_limit 1
       (order_by newer_first
          (filter (fun c => (c_status c =? "active")%string) (conversations w)))).

Definition get_last_active_conversation (f : Fault) (db : Store)
    : dbres (option Conversation) * Store :=
  _get_connection db
    (row <- execute f 0 (select q_last_active) ;;
     sql_ret row).

(** [list_conversations(limit=50)]: every conversation with the aggregates
    of its group of the [LEFT JOIN] on [c.id = m.conversation_id].  The
    primary key makes each group one conversation. *)
Record Listing : Type := mkListing {
  l_row : Conversation;
  message_count : Z;
  last_message_time : option Z
}.

Definition joined (w : Store) (c : Conversation) : list Message :=
  filter (fun m => m_conversation_id m =? c_id c) (messages w).

(** [MAX(m.timestamp)]: NULL on an empty group. *)
Definition sql_max (l : list Z) : option Z :=
  match l with
  | [] => None
  | x :: rest => Some (fold_right Z.max x rest)
  end.

Definition group_row (w : Store) (c : Conversation) : Listing :=
  mkListing c (Z.of_nat (List.length (joined w c)))
            (sql_max (map m_timestamp (joined w c))).

Definition listing_newer_first (a b : Listing) : bool :=
  newer_first (l_row a) (l_row b).

Definition q_list (limit : Z) (w : Store) : list Listing :=
  sql_limit limit
    (order_by listing_newer_first (map (group_row w) (conversations w))).

Definition list_conversations (f : Fault) (limit : Z) (db : Store)
    : dbres (list Listing) * Store :=
  _get_connection db
    (rows <- execute f 0 (select (q_list limit)) ;;
     sql_ret rows).

(** [update_conversation_status(conversation_id, status)]. *)
Definition update_conversation_status (f : Fault) (clk : Clock)
    (conversation_id : Z) (status : string) (db : Store) : dbres unit * Store :=
  _get_connection db
    (execute f 0 (update_status (clk 0%nat) conversation_id status) ;;;
     commit f 1).

(** [add_message(conversation_id, role, content, audio_duration=None)]. *)
Definition add_message (f : Fault) (clk : Clock) (conversation_id : Z)
    (role content : string) (audio_duration : option Q) (db : Store)
    : dbres Z * Store :=
  _get_connection db
    (message_id <- execute f 0 (insert_message (clk 0%nat) conversation_id
                                  role content audio_duration) ;;
     execute f 1 (update_updated_at (clk 1%nat) conversation_id) ;;;
     commit f 2 ;;;
     sql_ret message_id).

(** [get_messages(conversation_id)]:
    [WHERE conversation_id = ? ORDER BY timestamp ASC]. *)
Definition older_first (a b : Message) : bool :=
  m_timestamp a <=? m_timestamp b.

Definition q_messages (id : Z) (w : Store) : list Message :=
  order_by older_first
    (filter (fun m => m_conversation_id m =? id) (messages w)).

Definition get_messages (f : Fault) (conversation_id : Z) (db : Store)
    : dbres (list Message) * Store :=
  _get_connection db
    (rows <- execute f 0 (select (q_messages conversation_id)) ;;
     sql_ret rows).

End Database.

(** ** config.py *)

Module Config.

(** The process environment after [load_dotenv]: [os.getenv]. *)
Definition Environ : Type := string -> option string.

Record Config : Type := mkConfig {
  hume_api_key : string;
  hume_config_id : string;
  allow_interrupt : bool;
  db_path : string;
  ssl_cert_file : option string
}.

Definition newline : string := String (ascii_of_nat 10) "".

(** The text of the [ValueError] of [_get_required_env]. *)
Definition how_to_obtain : string :=
  ("For HUME_API_KEY: Get from https://platform.hume.ai/ → Settings → API Keys"
   ++ newline ++
   "For HUME_CONFIG_ID: Create EVI config at https://platform.hume.ai/ → EVI → Create Configuration")%string.

Definition not_configured (key : string) : Exn :=
  mkExn "<class 'ValueError'>"
        (key ++ " not found or not configured. "
             ++ "Set it in .env file or environment variable." ++ newline
             ++ how_to_obtain)%string.

(** [f"your_{key.lower()}_here"]. *)
Definition placeholder (key : string) : string :=
  ("your_" ++ str_lower key ++ "_here")%string.

(** [_get_required_env(key)]. *)
Definition _get_required_env (env : Environ) (key : string) : Exn + string :=
  let value := env key in
  if (negb (truthy_str value)
      || match value with
         | Some v => (v =? placeholder key)%string
         | None => false
         end)%bool
  then inl (not_configured key)
  else match value with
       | Some v => inr v
       | None => inl (not_configured key)
       end.

(** [os.getenv(key, default)]. *)
Definition getenv_default (env : Environ) (key default : string) : string :=
  match env key with
  | Some v => v
  | None => default
  end.

(** [Config.__init__]; [cli_dir] is [Path(__file__).parent]. *)
Definition __init__ (cli_dir : string) (env : Environ) : Exn + Config :=
  match _get_required_env env "HUME_API_KEY" with
  | inl e => inl e
  | inr api_key =>
    match _get_required_env env "HUME_CONFIG_ID" with
    | inl e => inl e
    | inr config_id =>
      let allow :=
        (str_lower (getenv_default env "ALLOW_INTERRUPT" "false") =? "true")%string in
      let db_path_env := env "DB_PATH" in
      let path := if truthy_str db_path_env
                  then match db_path_env with Some p => p | None => "" end
                  else (cli_dir ++ "/conversations.db")%string in
      inr (mkConfig api_key config_id allow path (env "SSL_CERT_FILE"))
    end
  end.

(** Property [interruption_enabled]. *)
Definition interruption_enabled (c : Config) : bool := allow_interrupt c.

Definition get_config (cli_dir : string) (env : Environ) : Exn + Config :=
  __init__ cli_dir env.

End Config.

(** ** The session: evi_client.py, audio_handler.py, conversation_manager.py *)

Module Session.

Import Database.

(** What can unwind the stack: [KeyboardInterrupt] and
    [asyncio.CancelledError] are not [Exception]s. *)
Inductive Raised : Type :=
| KeyboardInterrupt
| Exc (e : Exn)
| CancelledError.

Inductive Outcome (A : Type) : Type :=
| Ret (a : A)
| Raise (r : Raised).
Arguments Ret {A} a.
Arguments Raise {A} r.

(** *** What the program does to the outside *)

(** The lines of [console.print], without their markup. *)
Inductive ConsoleLine : Type :=
| Connecting
| ConversationNotFound (id : Z)
| Resumed (id : Z)
| StartedNew (id : option Z)
| Connected
| StartingMicrophone
| PressCtrlC
| InterruptionSetting (allow : bool)
| InterruptionEnabled
| WalkieTalkieMode
| Stopping
| ShuttingDown
| InterruptedByUser
| SessionEnded
| ConversationSaved
| ResumeCommand
| ErrorLine (e : Exn)
| Disconnected
| EviSaid (content : string)
| YouSaid (content : string)
| SystemSaid (content : string)
| NoActiveConversation
| Resuming (id : Z)
| ErrorFetchingConversation (e : Exn)
| ErrorFetchingMessages (e : Exn)
| NoMessages (id : Z)
| Transcript (conv : Conversation) (rows : list Message).

(** The records of [logger] at level info and above. *)
Inductive LogRecord : Type :=
| FailedToSaveMessage (e : Exn)
| ErrorDuringConversation (e : Exn)
| ErrorUpdatingStatus (e : Exn)
| ErrorStoppingMicrophone (e : Exn)
| StartingMicrophoneInfo (allow : bool)
| ErrorStartingMicrophone (e : Exn)
| StoppingMicrophoneInfo
| UserMessageInfo (content : string)
| AssistantMessageInfo (content : string)
| ErrorHandlingMessage (e : Exn)
| WebSocketOpened
| WebSocketClosed
| WebSocketError (e : Exn)
| ErrorFetchingConversationInfo (e : Exn)
| ErrorFetchingMessagesInfo (e : Exn).

(** The calls on the [Database] object. *)
Inductive StoreOp : Type :=
| CreateConversation
| GetConversation (id : Z)
| GetLastActive
| UpdateStatus (id : Z) (status : string)
| AddMessage (id : Z) (role content : string)
| GetMessages (id : Z).

Inductive Effect : Type :=
| Console (l : ConsoleLine)
| Log (r : LogRecord)
| StoreCall (op : StoreOp)
| ChannelOpen
| ChannelClose
| SignalHandlers
| MicrophoneStart (allow : bool)
| MicrophoneStop.

(** *** What the outside does to the program *)

(** A [SubscribeEvent]: [message.type]; [audio] is
    [base64.b64decode(message.data.encode("utf-8"))], an exception when the
    data is not base64; [content] is the text the handler extracts
    ([message.message.content], or [str(message)] without it). *)
Record SubscribeEvent : Type := mkEvent {
  msg_type : string;
  msg_audio : Exn + string;
  msg_content : string
}.

(** What the channel reports through the callbacks of
    [connect_with_callbacks]. *)
Inductive ChannelEvent : Type :=
| OnMessage (m : SubscribeEvent)
| OnError (err : Exn)
| OnClose.

(** How [MicrophoneInterface.start] stops waiting.  A signal (SIGINT,
    SIGTERM) runs [_handle_exit] in the main thread, whatever the thread
    is doing.  [SignalReceived]: it is running the coroutine, and the
    [KeyboardInterrupt] of the handler is raised in the coroutine.
    [LoopInterrupted]: the coroutine is suspended at its [await], as it
    is while it waits for audio or for the channel, and the
    [KeyboardInterrupt] of the handler leaves the event loop;
    [asyncio.run] then cancels the coroutine, in which [CancelledError] is
    raised at the [await], lets it finish, and raises the
    [KeyboardInterrupt] itself. *)
Inductive Ending : Type :=
| LoopReturns
| SignalReceived
| LoopRaises (e : Exn)
| LoopInterrupted.

(** One run of the outside world.  Store calls are numbered in the order
    the program makes them: [sc_fault n] is what the engine fails in call
    [n], [sc_clock n] its clock and [sc_stamp n] the formatted
    [datetime.now()] during it.  [sc_connect] is what entering the
    connection raises, if anything; [sc_events] is what the channel reports
    while the microphone loop runs, [sc_ending] how the loop ends, and
    [sc_close] what leaving the connection raises, if anything. *)
Record Scenario : Type := mkScenario {
  sc_fault : nat -> Fault;
  sc_clock : nat -> Clock;
  sc_stamp : nat -> string;
  sc_connect : option Raised;
  sc_events : list ChannelEvent;
  sc_ending : Ending;
  sc_close : option Exn
}.

(** *** The objects *)

(** The functions registered with [EVIClient.on_message]. *)
Inductive Callback : Type :=
| save_message_callback.

Record EVIClient : Type := mkEVIClient {
  api_key : string;
  config_id : string;
  message_callbacks : list Callback;
  audio_stream : bool
}.

(** The [ConversationManager] with what it owns: the database file behind
    [self.db], the queue of [self.audio_handler.stream] (the one [Stream]
    object that the client is given too), the number of Store calls made
    and the trace; and whether a [KeyboardInterrupt] has left the event
    loop, for [asyncio.run] to raise. *)
Record State : Type := mkState {
  db : Store;
  current_conversation_id : option Z;
  running : bool;
  evi_client : option EVIClient;
  stream : list string;
  store_calls : nat;
  trace : list Effect;
  pending_interrupt : bool
}.

Definition M (A : Type) : Type := State -> Outcome A * State.

Definition ret {A} (a : A) : M A := fun s => (Ret a, s).

Definition raise {A} (r : Raised) : M A := fun s => (Raise r, s).

Definition bind {A B} (m : M A) (k : A -> M B) : M B :=
  fun s => match m s with
           | (Ret a, s1) => k a s1
           | (Raise r, s1) => (Raise r, s1)
           end.

Local Notation "x <- m ;; k" := (bind m (fun x => k))
  (at level 61, m at next level, right associativity).
Local Notation "m ;;; k" := (bind m (fun _ => k))
  (at level 61, right associativity).

(** [try: m  except Exception as e: h e]. *)
Definition try_except {A} (m : M A) (h : Exn -> M A) : M A :=
  fun s => match m s with
           | (Raise (Exc e), s1) => h e s1
           | other => other
           end.

(** [try: m  except KeyboardInterrupt: h]. *)
Definition try_interrupt {A} (m : M A) (h : M A) : M A :=
  fun s => match m s with
           | (Raise KeyboardInterrupt, s1) => h s1
           | other => other
           end.

(** [try: m  except KeyboardInterrupt: hk  except Exception as e: he e]:
    what a handler raises is not handled by the other clause. *)
Definition try_clauses {A} (m : M A) (hk : M A) (he : Exn -> M A) : M A :=
  fun s => match m s with
           | (Raise KeyboardInterrupt, s1) => hk s1
           | (Raise (Exc e), s1) => he e s1
           | other => other
           end.

(** [try: m  finally: f]. *)
Definition try_finally {A} (m : M A) (f : M unit) : M A :=
  fun s => match m s with
           | (o, s1) => match f s1 with
                        | (Ret _, s2) => (o, s2)
                        | (Raise r, s2) => (Raise r, s2)
                        end
           end.

Definition emit (e : Effect) : M unit :=
  fun s => (Ret tt, mkState (db s) (current_conversation_id s) (running s)
                            (evi_client s) (stream s) (store_calls s)
                            (trace s ++ [e]) (pending_interrupt s)).

Definition console (l : ConsoleLine) : M unit := emit (Console l).
Definition logger (r : LogRecord) : M unit := emit (Log r).

Definition set_current_conversation_id (id : option Z) : M unit :=
  fun s => (Ret tt, mkState (db s) id (running s) (evi_client s) (stream s)
                            (store_calls s) (trace s) (pending_interrupt s)).

Definition set_running (b : bool) : M unit :=
  fun s => (Ret tt, mkState (db s) (current_conversation_id s) b (evi_client s)
                            (stream s) (store_calls s) (trace s)
                            (pending_interrupt s)).

Definition set_evi_client (c : option EVIClient) : M unit :=
  fun s => (Ret tt, mkState (db s) (current_conversation_id s) (running s) c
                            (stream s) (store_calls s) (trace s)
                            (pending_interrupt s)).

Definition set_stream (q : list string) : M unit :=
  fun s => (Ret tt, mkState (db s) (current_conversation_id s) (running s)
                            (evi_client s) q (store_calls s) (trace s)
                            (pending_interrupt s)).

Definition set_pending_interrupt (b : bool) : M unit :=
  fun s => (Ret tt, mkState (db s) (current_conversation_id s) (running s)
                            (evi_client s) (stream s) (store_calls s)
                            (trace s) b).

Definition get {A} (f : State -> A) : M A := fun s => (Ret (f s), s).

(** A call on [self.db]: the call is recorded, it runs on the file with the
    fault and the clock the scenario has for a call of this number, and its
    exception, if any, is raised here. *)
Definition store_call {A} (sc : Scenario) (op : StoreOp)
    (run : Fault -> Clock -> string -> Store -> dbres A * Store) : M A :=
  fun s =>
    let n := store_calls s in
    match run (sc_fault sc n) (sc_clock sc n) (sc_stamp sc n) (db s) with
    | (r, db') =>
      let s' := mkState db' (current_conversation_id s) (running s)
                        (evi_client s) (stream s) (S n)
                        (trace s ++ [StoreCall op]) (pending_interrupt s) in
      match r with
      | DbOk a => (Ret a, s')
      | DbErr e => (Raise (Exc e), s')
      end
    end.

(** *** conversation_manager.py: the message callback *)

(** [_save_message_callback(role, content)]. *)
Definition _save_message_callback (sc : Scenario) (role content : string)
    : M unit :=
  cid <- get current_conversation_id ;;
  (if (negb (role =? "system")%string && truthy_id cid)%bool
   then try_except
          (store_call sc
             (AddMessage (match cid with Some i => i | None => 0 end) role content)
             (fun f clk _ =>
                add_message f clk (match cid with Some i => i | None => 0 end)
                            role content None) ;;;
           ret tt)
          (fun e => logger (FailedToSaveMessage e))
   else ret tt) ;;;
  (if (role =? "assistant")%string then console (EviSaid content)
   else if (role =? "user")%string then console (YouSaid content)
   else if (role =? "system")%string then console (SystemSaid content)
   else ret tt).

Definition call (sc : Scenario) (cb : Callback) (role content : string)
    : M unit :=
  match cb with
  | save_message_callback => _save_message_callback sc role content
  end.

(** [for callback in self.message_callbacks: callback(role, content)]. *)
Fixpoint notify (sc : Scenario) (cbs : list Callback) (role content : string)
    : M unit :=
  match cbs with
  | [] => ret tt
  | cb :: rest => call sc cb role content ;;; notify sc rest role content
  end.

(** *** evi_client.py *)

Definition value_error (msg : string) : Exn := mkExn "<class 'ValueError'>" msg.

(** [EVIClient.__init__(api_key, config_id)]. *)
Definition EVIClient__init__ (key cfg : string) : M EVIClient :=
  if negb (truthy_str (Some key))
  then raise (Exc (value_error "api_key is required"))
  else if negb (truthy_str (Some cfg))
  then raise (Exc (value_error "config_id is required"))
  else ret (mkEVIClient key cfg [] false).

(** [on_message(callback)]. *)
Definition on_message (cb : Callback) (c : EVIClient) : EVIClient :=
  mkEVIClient (api_key c) (config_id c) (message_callbacks c ++ [cb])
              (audio_stream c).

(** [set_audio_stream(stream)]. *)
Definition set_audio_stream (c : EVIClient) : EVIClient :=
  mkEVIClient (api_key c) (config_id c) (message_callbacks c) true.

(** [content[:100]]. *)
Definition first_100 (s : string) : string := substring 0 100 s.

(** [_handle_message(message)]. *)
Definition _handle_message (sc : Scenario) (c : EVIClient)
    (message : SubscribeEvent) : M unit :=
  try_except
    (if (msg_type message =? "audio_output")%string then
       if audio_stream c then
         match msg_audio message with
         | inl e => raise (Exc e)
         | inr bytes => q <- get stream ;; set_stream (q ++ [bytes])
         end
       else ret tt
     else if (msg_type message =? "user_interruption")%string then
       (if audio_stream c then set_stream [] else ret tt) ;;;
       notify sc (message_callbacks c) "system" "[Interrupted]"
     else if (msg_type message =? "user_message")%string then
       logger (UserMessageInfo (first_100 (msg_content message))) ;;;
       notify sc (message_callbacks c) "user" (msg_content message)
     else if (msg_type message =? "assistant_message")%string then
       logger (AssistantMessageInfo (first_100 (msg_content message))) ;;;
       notify sc (message_callbacks c) "assistant" (msg_content message)
     else
       notify sc (message_callbacks c) "system"
              ("[" ++ msg_type message ++ "]")%string)
    (fun e => logger (ErrorHandlingMessage e)).

(** The [on_error] of [get_connection]. *)
Definition on_error (err : Exn) : M unit :=
  if negb (str_contains "no close frame" (exn_msg err))
  then logger (WebSocketError err)
  else ret tt.

(** The callbacks that [get_connection] hands to
    [connect_with_callbacks], applied to what the channel reports. *)
Definition dispatch (sc : Scenario) (c : EVIClient) (ev : ChannelEvent)
    : M unit :=
  match ev with
  | OnMessage m => _handle_message sc c m
  | OnError err => on_error err
  | OnClose => logger WebSocketClosed
  end.

Fixpoint deliver (sc : Scenario) (c : EVIClient) (evs : list ChannelEvent)
    : M unit :=
  match evs with
  | [] => ret tt
  | ev :: rest => dispatch sc c ev ;;; deliver sc c rest
  end.

(** *** conversation_manager.py: signals *)

(** [_handle_exit(signum, frame)], the handler of SIGINT and SIGTERM. *)
Definition _handle_exit : M unit :=
  console ShuttingDown ;;;
  set_running false ;;;
  raise KeyboardInterrupt.

Definition _setup_signal_handlers : M unit := emit SignalHandlers.

(** *** audio_handler.py *)

(** [MicrophoneInterface.start(socket, byte_stream, allow_user_interrupt)]
    of the SDK: while it runs the channel delivers its events; it ends as
    the scenario says.  When the [KeyboardInterrupt] of the handler leaves
    the event loop, what is raised here is the [CancelledError] of the
    cancellation that follows. *)
Definition MicrophoneInterface_start (sc : Scenario) (c : EVIClient)
    (allow : bool) : M unit :=
  emit (MicrophoneStart allow) ;;;
  deliver sc c (sc_events sc) ;;;
  match sc_ending sc with
  | LoopReturns => ret tt
  | SignalReceived => _handle_exit
  | LoopRaises e => raise (Exc e)
  | LoopInterrupted =>
      try_interrupt _handle_exit
                    (set_pending_interrupt true ;;; raise CancelledError)
  end.

(** [start_microphone(socket, allow_interrupt)]. *)
Definition start_microphone (sc : Scenario) (c : EVIClient) (allow : bool)
    : M unit :=
  try_except
    (logger (StartingMicrophoneInfo allow) ;;;
     MicrophoneInterface_start sc c allow)
    (fun e => logger (ErrorStartingMicrophone e) ;;; raise (Exc e)).

(** [stop_microphone()]: it logs and does nothing else. *)
Definition stop_microphone : M unit :=
  emit MicrophoneStop ;;;
  try_except (logger StoppingMicrophoneInfo)
             (fun e => logger (ErrorStoppingMicrophone e)).

(** *** conversation_manager.py: the session *)

(** [ConversationManager.__init__(config)]; [file] is the database at
    [config.db_path] once [Database.__init__] has made sure that the tables
    are there. *)
Definition ConversationManager__init__ (file : Store) : State :=
  mkState file None false None [] 0 [] false.

(** [_cleanup()]. *)
Definition _cleanup (sc : Scenario) : M unit :=
  try_except
    (cid <- get current_conversation_id ;;
     if truthy_id cid
     then store_call sc
            (UpdateStatus (match cid with Some i => i | None => 0 end) "paused")
            (fun f clk _ =>
               update_conversation_status f clk
                 (match cid with Some i => i | None => 0 end) "paused")
     else ret tt)
    (fun e => logger (ErrorUpdatingStatus e)) ;;;
  try_except stop_microphone
             (fun e => logger (ErrorStoppingMicrophone e)) ;;;
  console Disconnected.

(** Lines 70 to 81 of [start_conversation]: [false] when the function
    returns because the conversation is not there. *)
Definition set_up_conversation (sc : Scenario) (conversation_id : option Z)
    : M bool :=
  if truthy_id conversation_id then
    let id := match conversation_id with Some i => i | None => 0 end in
    conv <- store_call sc (GetConversation id)
              (fun f _ _ => get_conversation f id) ;;
    match conv with
    | None => console (ConversationNotFound id) ;;; ret false
    | Some _ =>
      set_current_conversation_id conversation_id ;;;
      store_call sc (UpdateStatus id "active")
        (fun f clk _ => update_conversation_status f clk id "active") ;;;
      console (Resumed id) ;;;
      ret true
    end
  else
    id <- store_call sc CreateConversation
            (fun f clk stamp => create_conversation f clk stamp None) ;;
    set_current_conversation_id (Some id) ;;;
    cid <- get current_conversation_id ;;
    console (StartedNew cid) ;;;
    ret true.

(** The body of [async with ... as chat_socket]. *)
Definition connected (cfg : Config.Config) (sc : Scenario) (c : EVIClient)
    : M unit :=
  console Connected ;;;
  console StartingMicrophone ;;;
  console PressCtrlC ;;;
  set_running true ;;;
  _setup_signal_handlers ;;;
  try_interrupt
    (let allow := Config.interruption_enabled cfg in
     console (InterruptionSetting allow) ;;;
     (if allow then console InterruptionEnabled else console WalkieTalkieMode) ;;;
     start_microphone sc c allow)
    (console Stopping).

(** [async with self.evi_client.get_connection() as chat_socket: body]:
    entering connects, or raises; leaving closes the channel whatever the
    body did, and an exception of the close replaces that of the body. *)
Definition with_connection (sc : Scenario) (body : M unit) : M unit :=
  match sc_connect sc with
  | Some r => raise r
  | None =>
    emit ChannelOpen ;;;
    logger WebSocketOpened ;;;
    fun s => match body s with
             | (o, s1) =>
               match emit ChannelClose s1 with
               | (_, s2) =>
                 match sc_close sc with
                 | Some e => (Raise (Exc e), s2)
                 | None => (o, s2)
                 end
               end
             end
  end.

(** The test of the [except Exception] clause. *)
Definition is_session_end (e : Exn) : bool :=
  (str_contains "ConnectionClosedError" (exn_type e)
   || str_contains "no close frame" (exn_msg e))%bool.

Definition report (e : Exn) : M unit :=
  if is_session_end e then
    console SessionEnded ;;;
    console ConversationSaved ;;;
    console ResumeCommand
  else
    console (ErrorLine e) ;;;
    logger (ErrorDuringConversation e).

(** The [try] block of [start_conversation]. *)
Definition attempt (cfg : Config.Config) (sc : Scenario)
    (conversation_id : option Z) : M unit :=
  console Connecting ;;;
  c <- EVIClient__init__ (Config.hume_api_key cfg)
                         (Config.hume_config_id cfg) ;;
  set_evi_client (Some c) ;;;
  go <- set_up_conversation sc conversation_id ;;
  if go then
    let c := set_audio_stream (on_message save_message_callback c) in
    set_evi_client (Some c) ;;;
    with_connection sc (connected cfg sc c)
  else ret tt.

(** [start_conversation(conversation_id=None)]. *)
Definition start_conversation (cfg : Config.Config) (sc : Scenario)
    (conversation_id : option Z) : M unit :=
  try_finally
    (try_clauses (attempt cfg sc conversation_id)
                 (console InterruptedByUser)
                 report)
    (_cleanup sc).

(** [view_transcript(conversation_id)]; the panel it prints is the
    conversation and its messages. *)
Definition view_transcript (sc : Scenario) (conversation_id : Z) : M unit :=
  fun s =>
    match store_call sc (GetConversation conversation_id)
            (fun f _ _ => get_conversation f conversation_id) s with
    | (Raise (Exc e), s1) =>
        (console (ErrorFetchingConversation e) ;;;
         logger (ErrorFetchingConversationInfo e)) s1
    | (Raise r, s1) => (Raise r, s1)
    | (Ret None, s1) => console (ConversationNotFound conversation_id) s1
    | (Ret (Some conv), s1) =>
      match store_call sc (GetMessages conversation_id)
              (fun f _ _ => get_messages f conversation_id) s1 with
      | (Raise (Exc e), s2) =>
          (console (ErrorFetchingMessages e) ;;;
           logger (ErrorFetchingMessagesInfo e)) s2
      | (Raise r, s2) => (Raise r, s2)
      | (Ret [], s2) => console (NoMessages conversation_id) s2
      | (Ret rows, s2) => console (Transcript conv rows) s2
      end
    end.

End Session.

(** ** cli.py *)

Module Cli.

Import Session.

(** What a command leaves behind: the exception that ends the process, if
    any, the database file and the trace. *)
Record Run : Type := mkRun {
  exit : option Raised;
  file : Database.Store;
  output : list Effect
}.

(** What [asyncio.run] raises for a coroutine that raised [r]: the
    coroutine of this program is cancelled by a signal only, and for a
    coroutine that a signal cancelled [asyncio.run] raises
    [KeyboardInterrupt]. *)
Definition raised_by_run (r : Raised) : Raised :=
  match r with
  | CancelledError => KeyboardInterrupt
  | other => other
  end.

(** [asyncio.run(manager.start_conversation(conversation_id))]: when a
    [KeyboardInterrupt] has left the event loop it is raised once the
    coroutine is done, whatever the coroutine did. *)
Definition run_session (cfg : Config.Config) (sc : Scenario)
    (conversation_id : option Z) (s : State) : Run :=
  match start_conversation cfg sc conversation_id s with
  | (Ret _, s') =>
      mkRun (if pending_interrupt s' then Some KeyboardInterrupt else None)
            (db s') (trace s')
  | (Raise r, s') =>
      mkRun (Some (if pending_interrupt s' then KeyboardInterrupt
                   else raised_by_run r))
            (db s') (trace s')
  end.

(** Command [start].  [get_config()] comes first and its exception ends the
    process.  (Setting [SSL_CERT_FILE] for the TLS library is left out.) *)
Definition start (cli_dir : string) (env : Config.Environ) (sc : Scenario)
    (disk : Database.Store) : Run :=
  match Config.get_config cli_dir env with
  | inl e => mkRun (Some (Exc e)) disk []
  | inr config => run_session config sc None (ConversationManager__init__ disk)
  end.

(** Command [resume [conversation_id]]. *)
Definition resume (cli_dir : string) (env : Config.Environ) (sc : Scenario)
    (conversation_id : option Z) (disk : Database.Store) : Run :=
  match Config.get_config cli_dir env with
  | inl e => mkRun (Some (Exc e)) disk []
  | inr config =>
    let manager := ConversationManager__init__ disk in
    if negb (truthy_id conversation_id) then
      match store_call sc GetLastActive
              (fun f _ _ => Database.get_last_active_conversation f) manager with
      | (Raise r, s) => mkRun (Some r) (db s) (trace s)
      | (Ret None, s) =>
        match console NoActiveConversation s with
        | (_, s1) => run_session config sc None s1
        end
      | (Ret (Some last_conv), s) =>
        match console (Resuming (Database.c_id last_conv)) s with
        | (_, s1) => run_session config sc (Some (Database.c_id last_conv)) s1
        end
      end
    else run_session config sc conversation_id manager
  end.

(** Command [view conversation_id]. *)
Definition view (cli_dir : string) (env : Config.Environ) (sc : Scenario)
    (conversation_id : Z) (disk : Database.Store) : Run :=
  match Config.get_config cli_dir env with
  | inl e => mkRun (Some (Exc e)) disk []
  | inr config =>
    match view_transcript sc conversation_id (ConversationManager__init__ disk) with
    | (Ret _, s') => mkRun None (db s') (trace s')
    | (Raise r, s') => mkRun (Some r) (db s') (trace s')
    end
  end.

End Cli.

(** ** Vocabulary of the properties *)

Module Terms.

Import Database.

(** One call of [add_message]: its arguments, the fault the engine has for
    it and its clock. *)
Record Call : Type := mkCall {
  call_role : string;
  call_content : string;
  call_fault : Fault;
  call_clock : Clock
}.

(** The calls made one after the other on the same conversation, up to the
    first that raises. *)
Fixpoint add_messages (conversation_id : Z) (calls : list Call) (db : Store)
    : dbres unit * Store :=
  match calls with
  | [] => (DbOk tt, db)
  | c :: rest =>
    match add_message (call_fault c) (call_clock c) conversation_id
                      (call_role c) (call_content c) None db with
    | (DbOk _, db1) => add_messages conversation_id rest db1
    | (DbErr e, db1) => (DbErr e, db1)
    end
  end.

(** What a persisted message shows of the call that made it. *)
Definition shown (m : Message) : string * string * Z :=
  (m_role m, m_content m, m_timestamp m).

Definition asked (c : Call) : string * string * Z :=
  (call_role c, call_content c, call_clock c 0%nat).

(** The rows of a conversation in the order they were inserted. *)
Definition rows_of (id : Z) (w : Store) : list Message :=
  filter (fun m => m_conversation_id m =? id) (messages w).

(** [updated_at] of a conversation, if it is there. *)
Definition updated_at (id : Z) (w : Store) : option Z :=
  option_map c_updated_at (q_conversation id w).

Definition status_of (id : Z) (w : Store) : option string :=
  option_map c_status (q_conversation id w).

(** A required variable that is unset, empty or left at the placeholder of
    the [.env] template. *)
Definition unconfigured (env : Config.Environ) (key : string) : Prop :=
  env key = None \/ env key = Some "" \/ env key = Some (Config.placeholder key).

(** Newest first. *)
Definition not_older (a b : Listing) : Prop :=
  c_updated_at (l_row b) <= c_updated_at (l_row a).

(** The effects of the event callbacks while a session is active: their
    console lines and log records, and the calls of [add_message] with a
    role other than [system]. *)
Definition from_handler (e : Session.Effect) : bool :=
  match e with
  | Session.Console (Session.EviSaid _) => true
  | Session.Console (Session.YouSaid _) => true
  | Session.Console (Session.SystemSaid _) => true
  | Session.Log (Session.FailedToSaveMessage _) => true
  | Session.Log (Session.UserMessageInfo _) => true
  | Session.Log (Session.AssistantMessageInfo _) => true
  | Session.Log (Session.ErrorHandlingMessage _) => true
  | Session.Log Session.WebSocketClosed => true
  | Session.Log (Session.WebSocketError _) => true
  | Session.StoreCall (Session.AddMessage _ role _) => negb (role =? "system")%string
  | _ => false
  end.

(** The effects of the body of the [async with]: those of the callbacks,
    and the lines, records and calls of lines 91 to 116 of
    [start_conversation] and of [start_microphone]. *)
Definition during_session (e : Session.Effect) : bool :=
  (from_handler e
   || match e with
      | Session.Console Session.Connected => true
      | Session.Console Session.StartingMicrophone => true
      | Session.Console Session.PressCtrlC => true
      | Session.Console (Session.InterruptionSetting _) => true
      | Session.Console Session.InterruptionEnabled => true
      | Session.Console Session.WalkieTalkieMode => true
      | Session.Console Session.Stopping => true
      | Session.Console Session.ShuttingDown => true
      | Session.SignalHandlers => true
      | Session.MicrophoneStart _ => true
      | Session.Log (Session.StartingMicrophoneInfo _) => true
      | Session.Log (Session.ErrorStartingMicrophone _) => true
      | _ => false
      end)%bool.

(** The two ways the coordinator reports a failure of the session: the
    console line [Error: ...] and the log record of the exception. *)
Definition error_report (e : Session.Effect) : bool :=
  match e with
  | Session.Console (Session.ErrorLine _) => true
  | Session.Log (Session.ErrorDuringConversation _) => true
  | _ => false
  end.

(** A call of [add_message] that would persist a [system] message. *)
Definition persists_system (e : Session.Effect) : bool :=
  match e with
  | Session.StoreCall (Session.AddMessage _ role _) => (role =? "system")%string
  | _ => false
  end.

Definition no_system_rows (w : Store) : Prop :=
  Forall (fun m => m_role m <> "system") (messages w).

(** The steps of a session's life that the teardown order is about. *)
Inductive Step : Type :=
| Opened
| CloseChannel
| SetPaused
| FailureLogged
| StopAudio.

Definition step_of (e : Session.Effect) : list Step :=
  match e with
  | Session.ChannelOpen => [Opened]
  | Session.ChannelClose => [CloseChannel]
  | Session.StoreCall (Session.UpdateStatus _ status) =>
      if (status =? "paused")%string then [SetPaused] else []
  | Session.Log (Session.ErrorUpdatingStatus _) => [FailureLogged]
  | Session.MicrophoneStop => [StopAudio]
  | _ => []
  end.

Definition steps (t : list Session.Effect) : list Step := flat_map step_of t.

Definition step_eqb (a b : Step) : bool :=
  match a, b with
  | Opened, Opened | CloseChannel, CloseChannel | SetPaused, SetPaused
  | FailureLogged, FailureLogged | StopAudio, StopAudio => true
  | _, _ => false
  end.

(** [xs] occur in [l] in this order (not necessarily next to each
    other). *)
Fixpoint in_order (xs l : list Step) : bool :=
  match xs, l with
  | [], _ => true
  | _ :: _, [] => false
  | x :: xs', y :: l' => if step_eqb x y then in_order xs' l' else in_order xs l'
  end.

(** The transcripts among the events of a channel, as the (role, content)
    pairs that the handler passes on for persistence. *)
Definition transcript (ev : Session.ChannelEvent) : list (string * string) :=
  match ev with
  | Session.OnMessage m =>
      if (Session.msg_type m =? "user_message")%string
      then [("user", Session.msg_content m)]
      else if (Session.msg_type m =? "assistant_message")%string
      then [("assistant", Session.msg_content m)]
      else []
  | _ => []
  end.

Definition said (m : Message) : string * string := (m_role m, m_content m).

(** An outcome that an [except Exception] clause has dealt with or lets
    pass as a result: not a [KeyboardInterrupt] and not a
    [CancelledError]. *)
Definition caught {A} (o : Session.Outcome A) : Prop :=
  match o with
  | Session.Raise Session.KeyboardInterrupt => False
  | Session.Raise Session.CancelledError => False
  | _ => True
  end.

(** [holds J P Q m]: from a state whose database file and conversation id
    satisfy [J], the computation [m] ends in an outcome that satisfies [Q]
    and a state that satisfies [J] again, and what it appends to the trace
    satisfies [P]. *)
Definition holds (J : Store -> option Z -> Prop) (P : Session.Effect -> Prop)
    {A} (Q : Session.Outcome A -> Prop) (m : Session.M A) : Prop :=
  forall s o s',
    J (Session.db s) (Session.current_conversation_id s) ->
    m s = (o, s') ->
    Q o /\ J (Session.db s') (Session.current_conversation_id s')
    /\ exists out, Session.trace s' = Session.trace s ++ out /\ Forall P out.

(** The conversation of a session: the one asked for, or the one that is
    created when no id (or 0) is given. *)
Definition session_id (conversation_id : option Z) (file : Store) : Z :=
  if truthy_id conversation_id
  then match conversation_id with Some i => i | None => 0 end
  else next_rowid (map c_id (conversations file)) (seq_conversations file).

(** A session on a manager that was just built on the database file, as
    the commands [start] and [resume] run it once the configuration is
    loaded. *)
Definition session (cfg : Config.Config) (sc : Session.Scenario)
    (conversation_id : option Z) (file : Store) : Cli.Run :=
  Cli.run_session cfg sc conversation_id (Session.ConversationManager__init__ file).

(** The endings of the microphone loop in which the [KeyboardInterrupt]
    of the signal handler leaves the event loop. *)
Definition interrupts (e : Session.Ending) : bool :=
  match e with
  | Session.LoopInterrupted => true
  | _ => false
  end.

(** What the body of the [async with] ends with: the inner
    [except KeyboardInterrupt] clause has dealt with the
    [KeyboardInterrupt] that the handler raised in the coroutine. *)
Definition connected_outcome (e : Session.Ending) : Session.Outcome unit :=
  match e with
  | Session.LoopReturns => Session.Ret tt
  | Session.SignalReceived => Session.Ret tt
  | Session.LoopRaises e => Session.Raise (Session.Exc e)
  | Session.LoopInterrupted => Session.Raise Session.CancelledError
  end.

(** A computation that leaves the pending interrupt as it is. *)
Definition keeps_pending {A} (m : Session.M A) : Prop :=
  forall s,
    Session.pending_interrupt (snd (m s)) = Session.pending_interrupt s.

(** What the [try] block of a session has added to the trace when it is
    left with outcome [o] and conversation id [cid]: nothing of the
    teardown and no open channel, the pending interrupt being what it was;
    or a channel that was opened and, last of all, closed, for a
    conversation id that counts as one, the outcome being the exception of
    the close if the close raised and that of the body otherwise, and an
    interrupt pending if it was before or if the loop was interrupted. *)
Definition session_shape (closing : option Exn) (ending : Session.Ending)
    (o : Session.Outcome unit) (cid : option Z) (out : list Session.Effect)
    (pending pending' : bool) : Prop :=
  (steps out = [] /\ ~ In Session.ChannelOpen out /\ pending' = pending)
  \/ (steps out = [Opened; CloseChannel]
      /\ truthy_id cid = true
      /\ o = match closing with
             | Some e => Session.Raise (Session.Exc e)
             | None => connected_outcome ending
             end
      /\ pending' = (pending || interrupts ending)%bool
      /\ exists pre, out = pre ++ [Session.ChannelClose]).

(** The manager when the [try] statement of [start_conversation] with its
    [except] clauses is left and the [finally] clause begins. *)
Definition before_cleanup (cfg : Config.Config) (sc : Session.Scenario)
    (conversation_id : option Z) (file : Store) : Session.State :=
  snd (Session.try_clauses (Session.attempt cfg sc conversation_id)
         (Session.console Session.InterruptedByUser) Session.report
         (Session.ConversationManager__init__ file)).

(** The call with which [_cleanup] sets the status, as the engine answers
    it in the state [s]. *)
Definition cleanup_update (sc : Session.Scenario) (id : Z) (s : Session.State)
    : dbres unit * Store :=
  update_conversation_status
    (Session.sc_fault sc (Session.store_calls s))
    (Session.sc_clock sc (Session.store_calls s)) id "paused" (Session.db s).

(** What [_cleanup] logs about the call: the exception, if it raised. *)
Definition cleanup_log (r : dbres unit) : list Session.Effect :=
  match r with
  | DbErr e => [Session.Log (Session.ErrorUpdatingStatus e)]
  | DbOk _ => []
  end.

End Terms.

(** ** Runs used as examples *)

Module Examples.

Import Database Session Terms.

(** A file with one conversation that is active and has no messages. *)
Definition one_conversation : Store :=
  mkStore [mkConversation 1 "Conversation 2024-01-01 10:00:00" 100 100 "active"]
          [] 1 0.

(** Two calls of [add_message], a second apart. *)
Definition two_turns : list Call :=
  [mkCall "user" "hello" None (fun _ => 100);
   mkCall "assistant" "hi there" None (fun _ => 101)].

(** One call of [add_message] during which the clock moves on to the next
    second: it shows 100 when the INSERT is executed and 101 when the
    UPDATE is. *)
Definition turn_of_the_second : list Call :=
  [mkCall "user" "hello" None (fun i => 100 + Z.of_nat i)].

Definition good_config : Config.Config :=
  Config.mkConfig "key" "cfg" false "conversations.db" None.

(** An engine that never fails and a clock that shows [1000 + n] during
    the Store call number [n]. *)
Definition no_faults : nat -> Fault := fun _ => None.
Definition wall_clock : nat -> Clock := fun n _ => 1000 + Z.of_nat n.
Definition stamps : nat -> string := fun _ => "2024-01-01 10:00:00".

Definition user_says (text : string) : ChannelEvent :=
  OnMessage (mkEvent "user_message" (inr "") text).
Definition assistant_says (text : string) : ChannelEvent :=
  OnMessage (mkEvent "assistant_message" (inr "") text).
Definition interruption : ChannelEvent :=
  OnMessage (mkEvent "user_interruption" (inr "") "").

Definition talk : list ChannelEvent :=
  [user_says "hello"; assistant_says "hi there"; interruption;
   user_says "bye"].

(** The user talks and then presses Ctrl+C, at a moment at which the
    coroutine of the session is running. *)
Definition cancelled : Scenario :=
  mkScenario no_faults wall_clock stamps None talk SignalReceived None.

(** The remote end drops the connection after the talk. *)
Definition no_close_frame : Exn :=
  mkExn "<class 'websockets.exceptions.ConnectionClosedError'>"
        "no close frame received or sent".

Definition timed_out : Scenario :=
  mkScenario no_faults wall_clock stamps None talk (LoopRaises no_close_frame)
             None.

(** The user talks and then presses Ctrl+C while the program waits. *)
Definition interrupted : Scenario :=
  mkScenario no_faults wall_clock stamps None talk LoopInterrupted None.

(** As before, and the database is locked when [_cleanup] sets the status:
    the session makes the Store calls 0 to 3 (the conversation is created,
    three transcripts are saved), the one of [_cleanup] is call 4. *)
Definition locked : Exn :=
  mkExn "<class 'sqlite3.OperationalError'>" "database is locked".

Definition locked_at_the_end : Scenario :=
  mkScenario (fun n => if Nat.eqb n 4 then Some (0%nat, locked) else None)
             wall_clock stamps None talk LoopInterrupted None.

(** The connection cannot be made. *)
Definition refused : Scenario :=
  mkScenario no_faults wall_clock stamps
             (Some (Exc (mkExn "<class 'OSError'>" "connection refused")))
             [] LoopReturns None.

Definition good_environ : Config.Environ :=
  fun key => if (key =? "HUME_API_KEY")%string then Some "key"
             else if (key =? "HUME_CONFIG_ID")%string then Some "cfg"
             else None.

Definition empty_environ : Config.Environ := fun _ => None.

End Examples.

(** ** More vocabulary: what the file keeps *)

Module Notions.

Import Database Terms.

(** The foreign key of [messages]: every message belongs to a conversation
    that is in the file. *)
Definition fk_ok (w : Store) : Prop :=
  Forall (fun m => has_conversation w (m_conversation_id m) = true) (messages w).

(** The primary keys: no two rows of a table have the same id. *)
Definition unique_ids (w : Store) : Prop :=
  NoDup (map c_id (conversations w)) /\ NoDup (map m_id (messages w)).

(** What a conversation is created with and keeps. *)
Definition core (c : Conversation) : Z * string * Z :=
  (c_id c, c_title c, c_created_at c).

(** [new] has every message of [old], unchanged and in place, and every
    conversation of [old], in place and with its id, title and creation
    time. *)
Definition grew (old new : Store) : Prop :=
  (exists more, messages new = messages old ++ more)
  /\ (exists more,
        map core (conversations new) = map core (conversations old) ++ more).

Definition is_active (c : Conversation) : bool := (c_status c =? "active")%string.

(** Oldest first. *)
Definition not_newer (a b : Message) : Prop := m_timestamp a <= m_timestamp b.

(** A channel event that is an [audio_output] message whose data decodes
    to [bytes]. *)
Definition carries (ev : Session.ChannelEvent) (bytes : string) : Prop :=
  exists m, ev = Session.OnMessage m
            /\ Session.msg_type m = "audio_output"
            /\ Session.msg_audio m = inr bytes.

(** The last three effects of every session: those of
    [stop_microphone] and the line [Disconnected]. *)
Definition farewell : list Session.Effect :=
  [Session.MicrophoneStop; Session.Log Session.StoppingMicrophoneInfo;
   Session.Console Session.Disconnected].

End Notions.

(** ** More runs used as examples *)

Module MoreExamples.

Import Database Session Terms.

(** Two active conversations; the second was updated last. *)
Definition two_conversations : Store :=
  mkStore [mkConversation 1 "first" 100 100 "active";
           mkConversation 2 "second" 150 150 "active"]
          [] 2 0.

Definition disk_full : Exn :=
  mkExn "<class 'sqlite3.OperationalError'>" "database or disk is full".

(** A session in which the engine fails the first statement of every
    Store call. *)
Definition failing_store : Scenario :=
  mkScenario (fun _ => Some (0%nat, disk_full)) Examples.wall_clock
             Examples.stamps None Examples.talk LoopReturns None.

(** A manager in the middle of a session on conversation 1. *)
Definition in_session (file : Store) : State :=
  mkState file (Some 1) true None [] 0 [] false.

End MoreExamples.

(** * Properties *)

(** ** The store *)

Module StoreFacts.

Import Database Terms Examples.

Lemma fold_max_ge (ids : list Z) (seq : Z) :
  seq <= max_id ids seq /\ Forall (fun i => i <= max_id ids seq) ids.
Proof.
  induction ids as [|i ids [IH1 IH2]]; simpl.
  - split; [lia | constructor].
  - split; [lia |].
    constructor; [lia |].
    eapply Forall_impl; [| exact IH2].
    simpl. intros; lia.
Qed.

Lemma next_rowid_fresh (ids : list Z) (seq : Z) :
  ~ In (next_rowid ids seq) ids.
Proof.
  intros Hin.
  destruct (fold_max_ge ids seq) as [_ Hall].
  rewrite Forall_forall in Hall.
  specialize (Hall _ Hin). unfold next_rowid in Hall. lia.
Qed.

Lemma find_app_fresh (id : Z) (old : list Conversation) (c : Conversation) :
  ~ In id (map c_id old) -> c_id c = id ->
  find (fun r => c_id r =? id) (old ++ [c]) = Some c.
Proof.
  intros Hfresh Hid.
  induction old as [|r old IH]; simpl.
  - rewrite Hid, Z.eqb_refl. reflexivity.
  - destruct (Z.eqb_spec (c_id r) id) as [E|E].
    + exfalso. apply Hfresh. simpl. auto.
    + apply IH. intros H. apply Hfresh. simpl. auto.
Qed.

Lemma find_touch (now id : Z) (l : list Conversation) :
  find (fun r => c_id r =? id) (map (touch_row now id) l)
  = option_map (touch_row now id) (find (fun r => c_id r =? id) l).
Proof.
  induction l as [|r l IH]; simpl; [reflexivity |].
  unfold touch_row at 1.
  destruct (Z.eqb_spec (c_id r) id) as [E|E]; simpl.
  - rewrite E, Z.eqb_refl. simpl. unfold touch_row.
    rewrite E, Z.eqb_refl. reflexivity.
  - destruct (Z.eqb_spec (c_id r) id); [contradiction | exact IH].
Qed.

Lemma find_status (now id : Z) (st : string) (l : list Conversation) :
  find (fun r => c_id r =? id) (map (status_row now id st) l)
  = option_map (status_row now id st) (find (fun r => c_id r =? id) l).
Proof.
  induction l as [|r l IH]; simpl; [reflexivity |].
  unfold status_row at 1.
  destruct (Z.eqb_spec (c_id r) id) as [E|E]; simpl.
  - rewrite E, Z.eqb_refl. simpl. unfold status_row.
    rewrite E, Z.eqb_refl. reflexivity.
  - destruct (Z.eqb_spec (c_id r) id); [contradiction | exact IH].
Qed.

Lemma has_conversation_find (w : Store) (id : Z) :
  has_conversation w id = true <-> exists c, q_conversation id w = Some c.
Proof.
  unfold has_conversation, q_conversation.
  induction (conversations w) as [|r l IH]; simpl.
  - split; [discriminate | intros [c H]; discriminate].
  - destruct (c_id r =? id); simpl.
    + split; eauto.
    + exact IH.
Qed.

Lemma found_id (w : Store) (id : Z) (c : Conversation) :
  q_conversation id w = Some c -> c_id c = id.
Proof.
  unfold q_conversation. intros H.
  apply find_some in H. destruct H as [_ H].
  apply Z.eqb_eq. exact H.
Qed.

(** What [add_message] does, for every fault: all of it or nothing. *)
Lemma add_message_cases (f : Fault) (clk : Clock) (cid : Z)
    (role content : string) (dur : option Q) (db : Store) :
  (exists e, add_message f clk cid role content dur db = (DbErr e, db))
  \/ (has_conversation db cid = true /\
      add_message f clk cid role content dur db
      = (DbOk (next_rowid (map m_id (messages db)) (seq_messages db)),
         mkStore (map (touch_row (clk 1%nat) cid) (conversations db))
                 (messages db ++
                  [mkMessage (next_rowid (map m_id (messages db)) (seq_messages db))
                             cid role content (clk 0%nat) dur])
                 (seq_conversations db)
                 (next_rowid (map m_id (messages db)) (seq_messages db)))).
Proof.
  unfold add_message, _get_connection, sql_bind, execute, commit, sql_ret,
    insert_message, update_updated_at, rollback, close.
  simpl.
  destruct (fault_at f 0) as [e0|]; [left; eauto |].
  destruct (has_conversation db cid) eqn:Hc; [| left; eauto].
  simpl.
  destruct (fault_at f 1) as [e1|]; [left; eauto |].
  simpl.
  destruct (fault_at f 2) as [e2|]; [left; eauto |].
  simpl. right. split; reflexivity.
Qed.

Lemma add_message_no_fault (clk : Clock) (cid : Z) (role content : string)
    (dur : option Q) (db : Store) :
  has_conversation db cid = true ->
  add_message None clk cid role content dur db
  = (DbOk (next_rowid (map m_id (messages db)) (seq_messages db)),
     mkStore (map (touch_row (clk 1%nat) cid) (conversations db))
             (messages db ++
              [mkMessage (next_rowid (map m_id (messages db)) (seq_messages db))
                         cid role content (clk 0%nat) dur])
             (seq_conversations db)
             (next_rowid (map m_id (messages db)) (seq_messages db))).
Proof.
  intros Hc.
  unfold add_message, _get_connection, sql_bind, execute, commit, sql_ret,
    insert_message, update_updated_at, rollback, close.
  simpl. rewrite Hc. reflexivity.
Qed.


(** *** ORDER BY *)

Section OrderByFacts.
Variable A : Type.
Variable before : A -> A -> bool.

Lemma insert_row_app (x : A) (l1 l2 : list A) :
  Forall (fun y => before x y = true) l2 ->
  insert_row before x (l1 ++ l2) = insert_row before x l1 ++ l2.
Proof.
  intros Hall.
  induction l1 as [|z l1 IH]; simpl.
  - destruct Hall as [|y l2 Hy _]; simpl; [reflexivity |].
    rewrite Hy. reflexivity.
  - destruct (before x z); [reflexivity |].
    rewrite IH. reflexivity.
Qed.

Lemma insert_row_perm (x : A) (l : list A) :
  Permutation (insert_row before x l) (x :: l).
Proof.
  induction l as [|y l IH]; simpl.
  - apply Permutation_refl.
  - destruct (before x y).
    + apply Permutation_refl.
    + eapply perm_trans; [apply perm_skip, IH | apply perm_swap].
Qed.

Lemma order_by_perm (l : list A) : Permutation (order_by before l) l.
Proof.
  induction l as [|x l IH]; simpl.
  - constructor.
  - eapply perm_trans; [apply insert_row_perm | apply perm_skip, IH].
Qed.

Hypothesis before_total : forall a b, before a b = false -> before b a = true.
Hypothesis before_trans :
  forall a b c, before a b = true -> before b c = true -> before a c = true.

Lemma insert_row_sorted (x : A) (l : list A) :
  StronglySorted (fun a b => before a b = true) l ->
  StronglySorted (fun a b => before a b = true) (insert_row before x l).
Proof.
  induction 1 as [|y l Hs IH Hy]; simpl.
  - constructor; constructor.
  - destruct (before x y) eqn:E.
    + constructor; [constructor; assumption |].
      constructor; [exact E |].
      eapply Forall_impl; [| exact Hy].
      simpl. intros b Hb. eapply before_trans; eassumption.
    + constructor; [exact IH |].
      eapply Permutation_Forall.
      * apply Permutation_sym, insert_row_perm.
      * constructor; [apply before_total, E | exact Hy].
Qed.

Lemma order_by_sorted (l : list A) :
  StronglySorted (fun a b => before a b = true) (order_by before l).
Proof.
  induction l as [|x l IH]; simpl.
  - constructor.
  - apply insert_row_sorted, IH.
Qed.
End OrderByFacts.

(** Rows that are already in order stay as they are, after any rows that
    sort before them. *)
Lemma order_by_app (A : Type) (before : A -> A -> bool) (old new : list A) :
  StronglySorted (fun a b => before a b = true) new ->
  Forall (fun a => Forall (fun b => before a b = true) new) old ->
  order_by before (old ++ new) = order_by before old ++ new.
Proof.
  intros Hnew Hold.
  induction old as [|a old IH]; simpl.
  - clear Hold.
    induction Hnew as [|x new Hs IHn Hx]; simpl; [reflexivity |].
    rewrite IHn.
    destruct Hx as [|y new' Hy _]; simpl; [reflexivity |].
    rewrite Hy. reflexivity.
  - inversion Hold as [|a' old' Ha Hrest]; subst.
    rewrite IH by assumption.
    apply insert_row_app. exact Ha.
Qed.

Lemma firstn_subset (A : Type) (n : nat) (l : list A) (x : A) :
  In x (firstn n l) -> In x l.
Proof.
  revert n. induction l as [|y l IH]; intros [|n]; simpl; try tauto.
  intros [H|H]; [auto | right; eapply IH; exact H].
Qed.

Lemma firstn_sorted (A : Type) (R : A -> A -> Prop) (n : nat) (l : list A) :
  StronglySorted R l -> StronglySorted R (firstn n l).
Proof.
  intros Hs. revert n.
  induction Hs as [|x l Hs IH Hx]; intros [|n]; simpl; try constructor.
  - apply IH.
  - rewrite Forall_forall in *. intros y Hy.
    apply Hx. eapply firstn_subset. exact Hy.
Qed.

Lemma sql_limit_sorted (A : Type) (R : A -> A -> Prop) (n : Z) (l : list A) :
  StronglySorted R l -> StronglySorted R (sql_limit n l).
Proof.
  intros Hs. unfold sql_limit.
  destruct (n <? 0); [exact Hs | apply firstn_sorted, Hs].
Qed.

Lemma sql_limit_incl (A : Type) (n : Z) (l : list A) (x : A) :
  In x (sql_limit n l) -> In x l.
Proof.
  unfold sql_limit. destruct (n <? 0); [auto |].
  apply firstn_subset.
Qed.


Lemma sorted_map (A B : Type) (f : A -> B) (R : B -> B -> Prop) (l : list A) :
  StronglySorted R (map f l) -> StronglySorted (fun a b => R (f a) (f b)) l.
Proof.
  induction l as [|x l IH]; simpl; intros H.
  - constructor.
  - inversion H as [|y l' Hs Hx]; subst.
    constructor; [apply IH, Hs |].
    rewrite Forall_map in Hx. exact Hx.
Qed.

Lemma newer_first_total (a b : Listing) :
  listing_newer_first a b = false -> listing_newer_first b a = true.
Proof.
  unfold listing_newer_first, newer_first. intros H.
  apply Z.leb_gt in H. apply Z.leb_le. lia.
Qed.

Lemma newer_first_trans (a b c : Listing) :
  listing_newer_first a b = true -> listing_newer_first b c = true ->
  listing_newer_first a c = true.
Proof.
  unfold listing_newer_first, newer_first. intros H1 H2.
  apply Z.leb_le in H1. apply Z.leb_le in H2. apply Z.leb_le. lia.
Qed.

Lemma has_conversation_touch (now id cid : Z) (w : Store) :
  has_conversation
    (mkStore (map (touch_row now id) (conversations w)) (messages w)
             (seq_conversations w) (seq_messages w)) cid
  = has_conversation w cid.
Proof.
  unfold has_conversation. simpl.
  induction (conversations w) as [|r l IH]; simpl; [reflexivity |].
  rewrite IH. f_equal.
  unfold touch_row. destruct (c_id r =? id); reflexivity.
Qed.

Lemma updated_at_touch (now id : Z) (l : list Conversation) (ms : list Message)
    (s1 s2 : Z) :
  existsb (fun c => c_id c =? id) l = true ->
  updated_at id (mkStore (map (touch_row now id) l) ms s1 s2) = Some now.
Proof.
  intros H. unfold updated_at, q_conversation. simpl.
  rewrite find_touch.
  induction l as [|r l IH]; simpl in *; [discriminate |].
  destruct (Z.eqb_spec (c_id r) id) as [E|E]; simpl in *.
  - unfold touch_row. rewrite E, Z.eqb_refl. reflexivity.
  - apply IH, H.
Qed.

(** Calls that the engine does not fail, on a conversation that is there,
    all succeed and append their rows. *)
Lemma add_messages_ok (cid : Z) (calls : list Call) :
  forall db,
  has_conversation db cid = true ->
  Forall (fun c => call_fault c = None) calls ->
  exists db' new,
    add_messages cid calls db = (DbOk tt, db')
    /\ messages db' = messages db ++ new
    /\ map shown new = map asked calls
    /\ Forall (fun m => m_conversation_id m = cid) new
    /\ has_conversation db' cid = true
    /\ updated_at cid db'
       = fold_left (fun _ c => Some (call_clock c 1%nat)) calls (updated_at cid db).
Proof.
  induction calls as [|c calls IH]; intros db Hc Hf; simpl.
  - exists db, []. rewrite app_nil_r. repeat split; auto.
  - inversion Hf as [|c' calls' Hc0 Hrest]; subst.
    rewrite Hc0, add_message_no_fault by exact Hc.
    set (db1 := mkStore _ _ _ _).
    assert (H1 : has_conversation db1 cid = true).
    { unfold db1. rewrite <- Hc. apply has_conversation_touch with (w :=
        mkStore (conversations db) _ (seq_conversations db) _). }
    destruct (IH db1 H1 Hrest) as (db' & new & Hrun & Hm & Hs & Hall & Hh & Hu).
    exists db', (mkMessage (next_rowid (map m_id (messages db)) (seq_messages db))
                           cid (call_role c) (call_content c)
                           (call_clock c 0%nat) None :: new).
    split; [exact Hrun |].
    split; [rewrite Hm; unfold db1; simpl; rewrite <- app_assoc; reflexivity |].
    split; [simpl; rewrite Hs; reflexivity |].
    split; [constructor; [reflexivity | exact Hall] |].
    split; [exact Hh |].
    rewrite Hu. f_equal.
    unfold db1. apply updated_at_touch. exact Hc.
Qed.


(** *** Claims about the store *)

(** C2.  [add_message] is all or nothing.  For every fault of the engine
    the call either raises and leaves the file as it was, or returns the id
    of the new row with both effects in the file: the row is appended and
    the parent's [updated_at] is the time of the UPDATE statement.  Then,
    when the clock did not run backwards between the two statements,
    [updated_at] is not before the timestamp of the newest message of the
    conversation (the row just inserted), and, when no earlier message of
    the conversation is later than the new one, not before any message of
    the conversation. *)
Theorem add_message_atomic (f : Fault) (clk : Clock) (cid : Z)
    (role content : string) (dur : option Q) (db : Store) :
  match add_message f clk cid role content dur db with
  | (DbErr _, db') => db' = db
  | (DbOk id, db') =>
      messages db' = messages db ++ [mkMessage id cid role content (clk 0%nat) dur]
      /\ conversations db'
         = map (touch_row (clk 1%nat) cid) (conversations db)
      /\ updated_at cid db' = Some (clk 1%nat)
      /\ (clk 0%nat <= clk 1%nat ->
          exists newest u,
            rows_of cid db' = rows_of cid db ++ [newest]
            /\ m_id newest = id
            /\ updated_at cid db' = Some u
            /\ m_timestamp newest <= u
            /\ (Forall (fun m => m_timestamp m <= clk 0%nat) (rows_of cid db) ->
                Forall (fun m => m_timestamp m <= u) (rows_of cid db')))
  end.
Proof.
  destruct (add_message_cases f clk cid role content dur db)
    as [[e He] | [Hc Hok]].
  - rewrite He. reflexivity.
  - rewrite Hok. simpl.
    split; [reflexivity |]. split; [reflexivity |].
    split; [apply updated_at_touch; exact Hc |].
    intros Hclk.
    eexists (mkMessage _ cid role content (clk 0%nat) dur), (clk 1%nat).
    assert (Hrows : rows_of cid
              (mkStore (map (touch_row (clk 1%nat) cid) (conversations db))
                 (messages db ++
                  [mkMessage (next_rowid (map m_id (messages db)) (seq_messages db))
                             cid role content (clk 0%nat) dur])
                 (seq_conversations db)
                 (next_rowid (map m_id (messages db)) (seq_messages db)))
            = rows_of cid db ++
              [mkMessage (next_rowid (map m_id (messages db)) (seq_messages db))
                         cid role content (clk 0%nat) dur]).
    { unfold rows_of. simpl. rewrite filter_app. simpl.
      rewrite Z.eqb_refl. reflexivity. }
    rewrite Hrows.
    split; [reflexivity |].
    split; [reflexivity |].
    split; [apply updated_at_touch; exact Hc |].
    split; [simpl; exact Hclk |].
    intros Hold. apply Forall_app. split.
    + eapply Forall_impl; [| exact Hold]. simpl. intros; lia.
    + constructor; [simpl; exact Hclk | constructor].
Qed.

Lemma add_message_atomic_witness :
  exists id db',
    add_message None (fun i => 100 + Z.of_nat i) 1 "user" "hello" None
                one_conversation = (DbOk id, db')
    /\ updated_at 1 db' = Some 101
    /\ Forall (fun m => m_timestamp m <= 101) (rows_of 1 db').
Proof.
  pose proof (add_message_atomic None (fun i => 100 + Z.of_nat i) 1
                "user" "hello" None one_conversation) as H.
  destruct (add_message None (fun i => 100 + Z.of_nat i) 1 "user" "hello" None
              one_conversation) as [[id|e] db'] eqn:E.
  - exists id, db'. split; [reflexivity |].
    destruct H as (_ & _ & Hu & Hrest).
    split; [exact Hu |].
    destruct Hrest as (newest & u & _ & _ & Hu' & _ & Hall); [simpl; lia |].
    rewrite Hu in Hu'. injection Hu' as <-.
    apply Hall. constructor.
  - vm_compute in E. discriminate E.
Defined.

(** C6 as the code has it.  Messages persisted one after the other into a
    conversation that is there, with an engine that does not fail and a
    clock that does not run backwards, are what [get_messages] returns:
    the rows the conversation had before (none for a new conversation),
    then one row for each call, in the order of the calls, each with the
    role, the content and the time of the INSERT of its call, all of this
    conversation and nothing else.  The conversation's [updated_at] is
    the time of the UPDATE statement of the last call; the timestamp of
    the last message is the time of its INSERT. *)
Theorem get_messages_in_order (cid : Z) (calls : list Call) (db : Store) :
  has_conversation db cid = true ->
  Forall (fun c => call_fault c = None) calls ->
  StronglySorted Z.le (map (fun c => call_clock c 0%nat) calls) ->
  Forall (fun m => Forall (fun c => m_timestamp m <= call_clock c 0%nat) calls)
         (rows_of cid db) ->
  exists db' old new,
    add_messages cid calls db = (DbOk tt, db')
    /\ get_messages None cid db' = (DbOk (old ++ new), db')
    /\ Permutation old (rows_of cid db)
    /\ map shown new = map asked calls
    /\ Forall (fun m => m_conversation_id m = cid) new
    /\ List.length new = List.length calls
    /\ updated_at cid db'
       = match rev calls with
         | [] => updated_at cid db
         | c :: _ => Some (call_clock c 1%nat)
         end
    /\ option_map m_timestamp (hd_error (rev new))
       = option_map (fun c => call_clock c 0%nat) (hd_error (rev calls)).
Proof.
  intros Hc Hf Hsorted Hold.
  destruct (@add_messages_ok cid calls db Hc Hf)
    as (db' & new & Hrun & Hm & Hs & Hall & _ & Hu).
  exists db', (q_messages cid db), new.
  assert (Hts : map m_timestamp new = map (fun c => call_clock c 0%nat) calls).
  { replace m_timestamp with (fun m => snd (shown m)) by reflexivity.
    replace (fun c => call_clock c 0%nat) with (fun c => snd (asked c))
      by reflexivity.
    rewrite <- (map_map shown snd), <- (map_map asked snd), Hs. reflexivity. }
  split; [exact Hrun |].
  split.
  - unfold get_messages, _get_connection, sql_bind, execute, select, sql_ret,
      close. simpl. f_equal. f_equal.
    unfold q_messages. rewrite Hm, filter_app.
    assert (Hnew : filter (fun m => m_conversation_id m =? cid) new = new).
    { clear - Hall. induction Hall as [|m new Hm _ IH]; simpl; [reflexivity |].
      rewrite Hm, Z.eqb_refl, IH. reflexivity. }
    rewrite Hnew. apply order_by_app.
    + rewrite <- Hts in Hsorted. apply sorted_map in Hsorted.
      eapply StronglySorted_ind with (P := fun l =>
        StronglySorted (fun a b => older_first a b = true) l);
        [constructor | | exact Hsorted].
      intros a l _ IH Ha. constructor; [exact IH |].
      eapply Forall_impl; [| exact Ha].
      simpl. intros b Hb. unfold older_first. apply Z.leb_le. exact Hb.
    + eapply Forall_impl; [| exact Hold].
      simpl. intros m Hmc.
      assert (Hm' : Forall (fun t => m_timestamp m <= t)
                      (map (fun c => call_clock c 0%nat) calls)).
      { rewrite Forall_map. exact Hmc. }
      rewrite <- Hts, Forall_map in Hm'.
      eapply Forall_impl; [| exact Hm'].
      simpl. intros b Hb. unfold older_first. apply Z.leb_le. exact Hb.
  - split; [unfold q_messages, rows_of; apply order_by_perm |].
    split; [exact Hs |].
    split; [exact Hall |].
    split; [rewrite <- (length_map shown new), Hs; apply length_map |].
    split.
    + rewrite Hu. clear.
      rewrite <- fold_left_rev_right.
      destruct (rev calls) as [|c rest]; reflexivity.
    + assert (Hr : map m_timestamp (rev new)
                   = map (fun c => call_clock c 0%nat) (rev calls))
        by (rewrite !map_rev, Hts; reflexivity).
      destruct (rev new) as [|m r1], (rev calls) as [|c r2];
        simpl in *; try discriminate; [reflexivity |].
      injection Hr as -> _. reflexivity.
Qed.

Lemma get_messages_in_order_witness :
  exists db' new,
    add_messages 1 two_turns one_conversation = (DbOk tt, db')
    /\ get_messages None 1 db' = (DbOk new, db')
    /\ map shown new = [("user", "hello", 100); ("assistant", "hi there", 101)]
    /\ updated_at 1 db' = Some 101.
Proof.
  destruct (@get_messages_in_order 1 two_turns one_conversation)
    as (db' & old & new & H1 & H2 & H3 & H4 & _ & _ & H5 & _).
  - reflexivity.
  - repeat constructor.
  - repeat constructor; simpl; lia.
  - constructor.
  - apply Permutation_sym, Permutation_nil in H3. subst old.
    exists db', new. repeat split; assumption.
Defined.

(** C6 as the spec has it: [updated_at] equals the timestamp of the last
    message.  The two are set by two statements that each read the clock;
    when the second changes between the INSERT and the UPDATE of the call,
    the conversation's [updated_at] is later than the timestamp of its
    last message. *)
Lemma get_messages_in_order_claimed_fails :
  exists db' m,
    add_messages 1 turn_of_the_second one_conversation = (DbOk tt, db')
    /\ get_messages None 1 db' = (DbOk [m], db')
    /\ shown m = ("user", "hello", 100)
    /\ updated_at 1 db' = Some 101
    /\ updated_at 1 db' <> Some (m_timestamp m).
Proof.
  do 2 eexists. vm_compute.
  repeat split; try reflexivity. discriminate.
Qed.

(** C7.  [list_conversations] returns the first [limit] rows (all of them
    for a negative limit) of the conversations ordered by [updated_at],
    newest first, and the [message_count] of every entry is the number of
    rows of [messages] with the entry's conversation id. *)
Theorem list_conversations_ordered_counted (limit : Z) (db : Store) :
  exists rows rest,
    list_conversations None limit db = (DbOk rows, db)
    /\ StronglySorted not_older (rows ++ rest)
    /\ Permutation (map l_row (rows ++ rest)) (conversations db)
    /\ List.length rows
       = (if limit <? 0 then List.length (conversations db)
          else Nat.min (Z.to_nat limit) (List.length (conversations db)))
    /\ Forall (fun r => message_count r
                        = Z.of_nat (List.length (rows_of (c_id (l_row r)) db)))
              (rows ++ rest).
Proof.
  set (all := order_by listing_newer_first (map (group_row db) (conversations db))).
  assert (Hsorted : StronglySorted not_older all).
  { unfold all.
    pose proof (@order_by_sorted _ listing_newer_first newer_first_total
                  newer_first_trans
                  (map (group_row db) (conversations db))) as H.
    eapply StronglySorted_ind with (P := StronglySorted not_older);
      [constructor | | exact H].
    intros a l _ IH Ha. constructor; [exact IH |].
    eapply Forall_impl; [| exact Ha].
    simpl. intros b Hb. unfold not_older.
    unfold listing_newer_first, newer_first in Hb. apply Z.leb_le. exact Hb. }
  assert (Hperm : Permutation (map l_row all) (conversations db)).
  { unfold all. eapply perm_trans.
    - apply Permutation_map, order_by_perm.
    - rewrite map_map. simpl. rewrite map_id. apply Permutation_refl. }
  assert (Hlen : List.length all = List.length (conversations db)).
  { rewrite <- (length_map l_row all). apply Permutation_length, Hperm. }
  assert (Hcount : Forall (fun r => message_count r
                     = Z.of_nat (List.length (rows_of (c_id (l_row r)) db))) all).
  { eapply Permutation_Forall.
    - apply Permutation_sym, order_by_perm.
    - rewrite Forall_map. apply Forall_forall. intros c _. reflexivity. }
  exists (sql_limit limit all),
         (if limit <? 0 then [] else skipn (Z.to_nat limit) all).
  assert (Hsplit : sql_limit limit all
                   ++ (if limit <? 0 then [] else skipn (Z.to_nat limit) all)
                   = all).
  { unfold sql_limit. destruct (limit <? 0).
    - apply app_nil_r.
    - apply firstn_skipn. }
  rewrite Hsplit.
  split; [reflexivity |].
  split; [exact Hsorted |].
  split; [exact Hperm |].
  split; [| exact Hcount].
  unfold sql_limit. destruct (limit <? 0); [exact Hlen |].
  rewrite length_firstn, Hlen. reflexivity.
Qed.

(** C8.  Whatever title is given, none included, the conversation that
    [create_conversation] returns is found by [get_conversation] with
    status [active] and a title that is not empty: the title given, or
    ["Conversation "] and the creation time when none or an empty one was
    given.  With an engine that does not fail the creation returns. *)
Theorem create_then_get (clk : Clock) (stamp : string) (title : option string)
    (db : Store) :
  (forall f,
     match create_conversation f clk stamp title db with
     | (DbErr _, db') => db' = db
     | (DbOk id, db') =>
         exists row,
           get_conversation None id db' = (DbOk (Some row), db')
           /\ c_id row = id
           /\ c_status row = "active"
           /\ c_title row <> ""
           /\ c_title row = match title with
                            | Some "" | None => ("Conversation " ++ stamp)%string
                            | Some t => t
                            end
     end)
  /\ exists id db', create_conversation None clk stamp title db = (DbOk id, db').
Proof.
  split.
  - intros f.
    unfold create_conversation, _get_connection, sql_bind, execute, commit,
      sql_ret, insert_conversation, rollback, close.
    simpl.
    destruct (fault_at f 0) as [e0|]; [reflexivity |]. simpl.
    destruct (fault_at f 1) as [e1|]; [reflexivity |]. simpl.
    eexists. split.
    + unfold get_conversation, _get_connection, sql_bind, execute, select,
        sql_ret, close, q_conversation. simpl.
      rewrite find_app_fresh with (id := next_rowid (map c_id (conversations db))
                                           (seq_conversations db));
        [reflexivity | apply next_rowid_fresh | reflexivity].
    + simpl. split; [reflexivity |]. split; [reflexivity |].
      destruct title as [[|a t]|]; simpl; split;
        (discriminate || reflexivity).
  - unfold create_conversation, _get_connection, sql_bind, execute, commit,
      sql_ret, insert_conversation, rollback, close.
    simpl. eauto.
Qed.

End StoreFacts.

(** ** The configuration *)

Module ConfigFacts.

Import Config Session Cli Terms.

Lemma unconfigured_dec (env : Environ) (key : string) :
  {unconfigured env key} + {~ unconfigured env key}.
Proof.
  unfold unconfigured.
  destruct (env key) as [v|]; [| left; auto].
  destruct (string_dec v "") as [->|E1]; [left; auto |].
  destruct (string_dec v (placeholder key)) as [->|E2]; [left; auto |].
  right. intros [H | [H | H]]; congruence.
Qed.

Lemma configured_returns (env : Environ) (key : string) (e : Exn) :
  ~ unconfigured env key -> _get_required_env env key <> inl e.
Proof.
  unfold unconfigured, _get_required_env. intros U.
  destruct (env key) as [v|]; [| exfalso; auto].
  simpl.
  destruct (String.eqb_spec v "") as [->|E1]; [exfalso; auto |].
  destruct (String.eqb_spec v (placeholder key)) as [->|E2]; [exfalso; auto |].
  simpl. discriminate.
Qed.

(** C9.  When [HUME_API_KEY] or [HUME_CONFIG_ID] is unset, empty or still
    the placeholder, [get_config] raises a [ValueError] for one of the
    variables that are missing: its text starts with the name of the
    variable and holds the lines that say where to get both, and the
    commands [start] and [resume] end with it before they touch the
    database file or produce any effect. *)
Theorem missing_key_fails_fast (cli_dir : string) (env : Environ) :
  unconfigured env "HUME_API_KEY" \/ unconfigured env "HUME_CONFIG_ID" ->
  exists key,
    (key = "HUME_API_KEY" \/ key = "HUME_CONFIG_ID")
    /\ unconfigured env key
    /\ get_config cli_dir env = inl (not_configured key)
    /\ exn_type (not_configured key) = "<class 'ValueError'>"
    /\ String.prefix key (exn_msg (not_configured key)) = true
    /\ str_contains how_to_obtain (exn_msg (not_configured key)) = true
    /\ (forall sc disk,
          start cli_dir env sc disk
          = mkRun (Some (Exc (not_configured key))) disk [])
    /\ (forall sc id disk,
          resume cli_dir env sc id disk
          = mkRun (Some (Exc (not_configured key))) disk []).
Proof.
  intros H.
  assert (Hkey : forall key, unconfigured env key ->
                 _get_required_env env key = inl (not_configured key)).
  { intros key [Hk | [Hk | Hk]]; unfold _get_required_env; rewrite Hk.
    - reflexivity.
    - reflexivity.
    - cbv beta iota. rewrite String.eqb_refl, orb_true_r. reflexivity. }
  assert (Hcfg : exists key,
            (key = "HUME_API_KEY" \/ key = "HUME_CONFIG_ID")
            /\ unconfigured env key
            /\ get_config cli_dir env = inl (not_configured key)).
  { unfold get_config, Config.__init__.
    destruct (_get_required_env env "HUME_API_KEY") as [e|v] eqn:E1.
    - destruct (unconfigured_dec env "HUME_API_KEY") as [U|U].
      + exists "HUME_API_KEY". rewrite (Hkey _ U) in E1.
        injection E1 as <-. auto.
      + exfalso. revert E1. apply configured_returns. exact U.
    - destruct H as [U|U]; [rewrite (Hkey _ U) in E1; discriminate |].
      exists "HUME_CONFIG_ID". rewrite (Hkey _ U). auto. }
  destruct Hcfg as (key & Hk & Hu & Hg).
  exists key. split; [exact Hk |]. split; [exact Hu |]. split; [exact Hg |].
  split; [reflexivity |].
  split; [destruct Hk as [-> | ->]; vm_compute; reflexivity |].
  split; [destruct Hk as [-> | ->]; vm_compute; reflexivity |].
  split.
  - intros sc disk. unfold start. rewrite Hg. reflexivity.
  - intros sc id disk. unfold resume. rewrite Hg. reflexivity.
Qed.

Lemma missing_key_fails_fast_witness :
  exists key,
    get_config "cli" Examples.empty_environ = inl (not_configured key)
    /\ String.prefix key (exn_msg (not_configured key)) = true.
Proof.
  destruct (@missing_key_fails_fast "cli" Examples.empty_environ)
    as (key & _ & _ & Hg & _ & Hp & _).
  - left. left. reflexivity.
  - exists key. split; [exact Hg | exact Hp].
Defined.

End ConfigFacts.

(** ** The session *)

Module SessionFacts.

Import Database Session Terms.

(** *** A logic for the session monad *)
Section Logic.
Variable J : Store -> option Z -> Prop.
Variable P : Effect -> Prop.

Lemma holds_weaken {A} (Q Q' : Outcome A -> Prop) (m : M A) :
  holds J P Q m -> (forall o, Q o -> Q' o) -> holds J P Q' m.
Proof.
  intros H HQ s o s' HJ E.
  destruct (H s o s' HJ E) as (Ho & HJ' & Hout). auto.
Qed.

Lemma holds_ret {A} (Q : Outcome A -> Prop) (a : A) :
  Q (Ret a) -> holds J P Q (ret a).
Proof.
  intros HQ s o s' HJ E. injection E as <- <-.
  split; [exact HQ |]. split; [exact HJ |].
  exists []. rewrite app_nil_r. auto.
Qed.

Lemma holds_raise {A} (Q : Outcome A -> Prop) (r : Raised) :
  Q (Raise r) -> holds J P Q (raise r).
Proof.
  intros HQ s o s' HJ E. injection E as <- <-.
  split; [exact HQ |]. split; [exact HJ |].
  exists []. rewrite app_nil_r. auto.
Qed.

Lemma holds_get {A B} (Q : Outcome B -> Prop) (f : State -> A) (k : A -> M B) :
  (forall a, holds J P Q (k a)) -> holds J P Q (bind (get f) k).
Proof.
  intros H s o s' HJ E. unfold bind, get in E.
  eapply H; eassumption.
Qed.

Lemma holds_emit (Q : Outcome unit -> Prop) (e : Effect) :
  P e -> Q (Ret tt) -> holds J P Q (emit e).
Proof.
  intros HP HQ s o s' HJ E. injection E as <- <-. simpl.
  split; [exact HQ |]. split; [exact HJ |].
  exists [e]. auto.
Qed.

Lemma holds_set_running (Q : Outcome unit -> Prop) (b : bool) :
  Q (Ret tt) -> holds J P Q (set_running b).
Proof.
  intros HQ s o s' HJ E. injection E as <- <-. simpl.
  split; [exact HQ |]. split; [exact HJ |].
  exists []. rewrite app_nil_r. auto.
Qed.

Lemma holds_set_evi_client (Q : Outcome unit -> Prop) (c : option EVIClient) :
  Q (Ret tt) -> holds J P Q (set_evi_client c).
Proof.
  intros HQ s o s' HJ E. injection E as <- <-. simpl.
  split; [exact HQ |]. split; [exact HJ |].
  exists []. rewrite app_nil_r. auto.
Qed.

Lemma holds_set_stream (Q : Outcome unit -> Prop) (q : list string) :
  Q (Ret tt) -> holds J P Q (set_stream q).
Proof.
  intros HQ s o s' HJ E. injection E as <- <-. simpl.
  split; [exact HQ |]. split; [exact HJ |].
  exists []. rewrite app_nil_r. auto.
Qed.

Lemma holds_set_pending_interrupt (Q : Outcome unit -> Prop) (b : bool) :
  Q (Ret tt) -> holds J P Q (set_pending_interrupt b).
Proof.
  intros HQ s o s' HJ E. injection E as <- <-. simpl.
  split; [exact HQ |]. split; [exact HJ |].
  exists []. rewrite app_nil_r. auto.
Qed.

Lemma holds_set_id (Q : Outcome unit -> Prop) (id : option Z) :
  (forall w c, J w c -> J w id) -> Q (Ret tt) ->
  holds J P Q (set_current_conversation_id id).
Proof.
  intros HJid HQ s o s' HJ E. injection E as <- <-. simpl.
  split; [exact HQ |]. split; [eapply HJid; exact HJ |].
  exists []. rewrite app_nil_r. auto.
Qed.

Lemma holds_bind {A B} (Q1 : Outcome A -> Prop) (Q : Outcome B -> Prop)
    (m : M A) (k : A -> M B) :
  holds J P Q1 m ->
  (forall a, Q1 (Ret a) -> holds J P Q (k a)) ->
  (forall r, Q1 (Raise r) -> Q (Raise r)) ->
  holds J P Q (bind m k).
Proof.
  intros Hm Hk Hr s o s' HJ E. unfold bind in E.
  destruct (m s) as [[a|r] s1] eqn:E1.
  - destruct (Hm s _ _ HJ E1) as (Ha & HJ1 & out1 & Ht1 & Hp1).
    destruct (Hk a Ha s1 o s' HJ1 E) as (Ho & HJ' & out2 & Ht2 & Hp2).
    split; [exact Ho |]. split; [exact HJ' |].
    exists (out1 ++ out2). rewrite Ht2, Ht1, app_assoc.
    split; [reflexivity | apply Forall_app; auto].
  - injection E as <- <-.
    destruct (Hm s _ _ HJ E1) as (Ha & HJ1 & Hout).
    auto.
Qed.

Lemma holds_try_except {A} (Q1 Q : Outcome A -> Prop) (m : M A)
    (h : Exn -> M A) :
  holds J P Q1 m ->
  (forall e, Q1 (Raise (Exc e)) -> holds J P Q (h e)) ->
  (forall a, Q1 (Ret a) -> Q (Ret a)) ->
  (Q1 (Raise KeyboardInterrupt) -> Q (Raise KeyboardInterrupt)) ->
  (Q1 (Raise CancelledError) -> Q (Raise CancelledError)) ->
  holds J P Q (try_except m h).
Proof.
  intros Hm Hh Hret Hki Hce s o s' HJ E. unfold try_except in E.
  destruct (m s) as [[a|[|e|]] s1] eqn:E1;
    destruct (Hm s _ _ HJ E1) as (Ha & HJ1 & out1 & Ht1 & Hp1).
  - injection E as <- <-.
    split; [auto |]. split; [exact HJ1 |]. exists out1. auto.
  - injection E as <- <-.
    split; [auto |]. split; [exact HJ1 |]. exists out1. auto.
  - destruct (Hh e Ha s1 o s' HJ1 E) as (Ho & HJ' & out2 & Ht2 & Hp2).
    split; [exact Ho |]. split; [exact HJ' |].
    exists (out1 ++ out2). rewrite Ht2, Ht1, app_assoc.
    split; [reflexivity | apply Forall_app; auto].
  - injection E as <- <-.
    split; [auto |]. split; [exact HJ1 |]. exists out1. auto.
Qed.

Lemma holds_try_interrupt {A} (Q1 Q : Outcome A -> Prop) (m h : M A) :
  holds J P Q1 m ->
  (Q1 (Raise KeyboardInterrupt) -> holds J P Q h) ->
  (forall a, Q1 (Ret a) -> Q (Ret a)) ->
  (forall e, Q1 (Raise (Exc e)) -> Q (Raise (Exc e))) ->
  (Q1 (Raise CancelledError) -> Q (Raise CancelledError)) ->
  holds J P Q (try_interrupt m h).
Proof.
  intros Hm Hh Hret Hexc Hce s o s' HJ E. unfold try_interrupt in E.
  destruct (m s) as [[a|[|e|]] s1] eqn:E1;
    destruct (Hm s _ _ HJ E1) as (Ha & HJ1 & out1 & Ht1 & Hp1).
  - injection E as <- <-.
    split; [auto |]. split; [exact HJ1 |]. exists out1. auto.
  - destruct (Hh Ha s1 o s' HJ1 E) as (Ho & HJ' & out2 & Ht2 & Hp2).
    split; [exact Ho |]. split; [exact HJ' |].
    exists (out1 ++ out2). rewrite Ht2, Ht1, app_assoc.
    split; [reflexivity | apply Forall_app; auto].
  - injection E as <- <-.
    split; [auto |]. split; [exact HJ1 |]. exists out1. auto.
  - injection E as <- <-.
    split; [auto |]. split; [exact HJ1 |]. exists out1. auto.
Qed.

Lemma holds_try_clauses {A} (Q1 Q : Outcome A -> Prop) (m hk : M A)
    (he : Exn -> M A) :
  holds J P Q1 m ->
  (Q1 (Raise KeyboardInterrupt) -> holds J P Q hk) ->
  (forall e, Q1 (Raise (Exc e)) -> holds J P Q (he e)) ->
  (forall a, Q1 (Ret a) -> Q (Ret a)) ->
  (Q1 (Raise CancelledError) -> Q (Raise CancelledError)) ->
  holds J P Q (try_clauses m hk he).
Proof.
  intros Hm Hk He Hret Hce s o s' HJ E. unfold try_clauses in E.
  destruct (m s) as [[a|[|e|]] s1] eqn:E1;
    destruct (Hm s _ _ HJ E1) as (Ha & HJ1 & out1 & Ht1 & Hp1).
  - injection E as <- <-.
    split; [auto |]. split; [exact HJ1 |]. exists out1. auto.
  - destruct (Hk Ha s1 o s' HJ1 E) as (Ho & HJ' & out2 & Ht2 & Hp2).
    split; [exact Ho |]. split; [exact HJ' |].
    exists (out1 ++ out2). rewrite Ht2, Ht1, app_assoc.
    split; [reflexivity | apply Forall_app; auto].
  - destruct (He e Ha s1 o s' HJ1 E) as (Ho & HJ' & out2 & Ht2 & Hp2).
    split; [exact Ho |]. split; [exact HJ' |].
    exists (out1 ++ out2). rewrite Ht2, Ht1, app_assoc.
    split; [reflexivity | apply Forall_app; auto].
  - injection E as <- <-.
    split; [auto |]. split; [exact HJ1 |]. exists out1. auto.
Qed.

Lemma holds_try_finally {A} (Q1 Q : Outcome A -> Prop) (m : M A)
    (f : M unit) :
  holds J P Q1 m ->
  holds J P (fun o => o = Ret tt) f ->
  (forall o, Q1 o -> Q o) ->
  holds J P Q (try_finally m f).
Proof.
  intros Hm Hf HQ s o s' HJ E. unfold try_finally in E.
  destruct (m s) as [o1 s1] eqn:E1.
  destruct (Hm s _ _ HJ E1) as (Ha & HJ1 & out1 & Ht1 & Hp1).
  destruct (f s1) as [o2 s2] eqn:E2.
  destruct (Hf s1 _ _ HJ1 E2) as (Ho2 & HJ2 & out2 & Ht2 & Hp2).
  subst o2. injection E as <- <-.
  split; [auto |]. split; [exact HJ2 |].
  exists (out1 ++ out2). rewrite Ht2, Ht1, app_assoc.
  split; [reflexivity | apply Forall_app; auto].
Qed.

Lemma holds_store_call {A} (Q : Outcome A -> Prop) (sc : Scenario)
    (op : StoreOp)
    (run : Fault -> Clock -> string -> Store -> dbres A * Store) :
  P (StoreCall op) ->
  (forall f clk stamp w c, J w c -> J (snd (run f clk stamp w)) c) ->
  (forall a, Q (Ret a)) ->
  (forall e, Q (Raise (Exc e))) ->
  holds J P Q (store_call sc op run).
Proof.
  intros HP Hrun HQ HQe s o s' HJ E. unfold store_call in E.
  pose proof (Hrun (sc_fault sc (store_calls s)) (sc_clock sc (store_calls s))
                (sc_stamp sc (store_calls s)) _ _ HJ) as HJ'.
  destruct (run _ _ _ (db s)) as [[a|e] db']; injection E as <- <-; simpl in *.
  - split; [apply HQ |]. split; [exact HJ' |]. exists [StoreCall op]. auto.
  - split; [apply HQe |]. split; [exact HJ' |]. exists [StoreCall op]. auto.
Qed.
End Logic.


Lemma holds_effects (J : Store -> option Z -> Prop) (P P' : Effect -> Prop)
    {A} (Q : Outcome A -> Prop) (m : M A) :
  holds J P Q m -> (forall e, P e -> P' e) -> holds J P' Q m.
Proof.
  intros H HP s o s' HJ E.
  destruct (H s o s' HJ E) as (Ho & HJ' & out & Ht & Hp).
  split; [exact Ho |]. split; [exact HJ' |].
  exists out. split; [exact Ht |].
  eapply Forall_impl; [| exact Hp]. exact HP.
Qed.

(** *** The event callbacks *)

Section Handlers.
Variable J : Store -> option Z -> Prop.
Hypothesis J_add :
  forall f clk id role content w c,
    role <> "system" ->
    J w c -> J (snd (add_message f clk id role content None w)) c.
Variable sc : Scenario.

Let handled (e : Effect) : Prop := from_handler e = true.
Let done (o : Outcome unit) : Prop := o = Ret tt.

Lemma callback_holds (role content : string) :
  holds J handled done (_save_message_callback sc role content).
Proof.
  unfold _save_message_callback.
  apply holds_get. intros cid.
  apply holds_bind with (Q1 := done).
  - destruct (String.eqb_spec role "system") as [E|E]; simpl.
    + apply holds_ret. reflexivity.
    + destruct (truthy_id cid); [| apply holds_ret; reflexivity].
      apply holds_try_except with (Q1 := @caught unit).
      * apply holds_bind with (Q1 := @caught Z).
        -- apply holds_store_call.
           ++ unfold handled. simpl.
              destruct (String.eqb_spec role "system");
                [contradiction | reflexivity].
           ++ intros f clk stamp w c0; simpl. apply J_add. exact E.
           ++ intros; exact I.
           ++ intros; exact I.
        -- intros a _. apply holds_ret. exact I.
        -- intros r H. exact H.
      * intros e _. apply holds_emit; reflexivity.
      * intros [] _. reflexivity.
      * intros [].
      * intros [].
  - intros [] _.
    destruct (role =? "assistant")%string; [apply holds_emit; reflexivity |].
    destruct (role =? "user")%string; [apply holds_emit; reflexivity |].
    destruct (role =? "system")%string; [apply holds_emit; reflexivity |].
    apply holds_ret. reflexivity.
  - intros r H. discriminate H.
Qed.

Lemma notify_holds (cbs : list Callback) (role content : string) :
  holds J handled done (notify sc cbs role content).
Proof.
  induction cbs as [|cb cbs IH]; simpl.
  - apply holds_ret. reflexivity.
  - apply holds_bind with (Q1 := done).
    + destruct cb. apply callback_holds.
    + intros [] _. exact IH.
    + intros r H. discriminate H.
Qed.

Lemma handle_message_holds (c : EVIClient) (m : SubscribeEvent) :
  holds J handled done (_handle_message sc c m).
Proof.
  unfold _handle_message.
  apply holds_try_except with (Q1 := @caught unit).
  - assert (Hn : forall role content,
              holds J handled (@caught unit)
                    (notify sc (message_callbacks c) role content)).
    { intros role content. eapply holds_weaken; [apply notify_holds |].
      intros o ->. exact I. }
    destruct (msg_type m =? "audio_output")%string.
    { destruct (audio_stream c); [| apply holds_ret; exact I].
      destruct (msg_audio m) as [e|bytes].
      - apply holds_raise. exact I.
      - apply holds_get. intros q. apply holds_set_stream. exact I. }
    destruct (msg_type m =? "user_interruption")%string.
    { apply holds_bind with (Q1 := done).
      - destruct (audio_stream c);
          [apply holds_set_stream | apply holds_ret]; reflexivity.
      - intros [] _. apply Hn.
      - intros r H. discriminate H. }
    destruct (msg_type m =? "user_message")%string.
    { apply holds_bind with (Q1 := done).
      - apply holds_emit; reflexivity.
      - intros [] _. apply Hn.
      - intros r H. discriminate H. }
    destruct (msg_type m =? "assistant_message")%string.
    { apply holds_bind with (Q1 := done).
      - apply holds_emit; reflexivity.
      - intros [] _. apply Hn.
      - intros r H. discriminate H. }
    apply Hn.
  - intros e _. apply holds_emit; reflexivity.
  - intros [] _. reflexivity.
  - intros [].
  - intros [].
Qed.

Lemma dispatch_holds (c : EVIClient) (ev : ChannelEvent) :
  holds J handled done (dispatch sc c ev).
Proof.
  destruct ev as [m|err|]; simpl.
  - apply handle_message_holds.
  - unfold on_error.
    destruct (negb _); [apply holds_emit | apply holds_ret]; reflexivity.
  - apply holds_emit; reflexivity.
Qed.

Lemma deliver_holds (c : EVIClient) (evs : list ChannelEvent) :
  holds J handled done (deliver sc c evs).
Proof.
  induction evs as [|ev evs IH]; simpl.
  - apply holds_ret. reflexivity.
  - apply holds_bind with (Q1 := done).
    + apply dispatch_holds.
    + intros [] _. exact IH.
    + intros r H. discriminate H.
Qed.
End Handlers.


(** *** What the other Store calls do to the file *)

Lemma create_conversation_cases (f : Fault) (clk : Clock) (stamp : string)
    (w : Store) :
  (exists e, create_conversation f clk stamp None w = (DbErr e, w))
  \/ create_conversation f clk stamp None w
     = (DbOk (next_rowid (map c_id (conversations w)) (seq_conversations w)),
        mkStore (conversations w ++
                 [mkConversation
                    (next_rowid (map c_id (conversations w)) (seq_conversations w))
                    ("Conversation " ++ stamp) (clk 0%nat) (clk 0%nat) "active"])
                (messages w)
                (next_rowid (map c_id (conversations w)) (seq_conversations w))
                (seq_messages w)).
Proof.
  unfold create_conversation, _get_connection, sql_bind, execute, commit,
    sql_ret, insert_conversation, rollback, close.
  simpl.
  destruct (fault_at f 0) as [e0|]; [left; eauto |]. simpl.
  destruct (fault_at f 1) as [e1|]; [left; eauto |]. simpl.
  right. reflexivity.
Qed.

Lemma get_conversation_cases (f : Fault) (id : Z) (w : Store) :
  (exists e, get_conversation f id w = (DbErr e, w))
  \/ get_conversation f id w = (DbOk (q_conversation id w), w).
Proof.
  unfold get_conversation, _get_connection, sql_bind, execute, select,
    sql_ret, rollback, close.
  simpl.
  destruct (fault_at f 0) as [e0|]; [left; eauto |]. simpl.
  right. reflexivity.
Qed.

Lemma get_last_active_cases (f : Fault) (w : Store) :
  (exists e, get_last_active_conversation f w = (DbErr e, w))
  \/ get_last_active_conversation f w = (DbOk (q_last_active w), w).
Proof.
  unfold get_last_active_conversation, _get_connection, sql_bind, execute,
    select, sql_ret, rollback, close.
  simpl.
  destruct (fault_at f 0) as [e0|]; [left; eauto |]. simpl.
  right. reflexivity.
Qed.

Lemma update_status_cases (f : Fault) (clk : Clock) (id : Z) (status : string)
    (w : Store) :
  (exists e, update_conversation_status f clk id status w = (DbErr e, w))
  \/ update_conversation_status f clk id status w
     = (DbOk tt,
        mkStore (map (status_row (clk 0%nat) id status) (conversations w))
                (messages w) (seq_conversations w) (seq_messages w)).
Proof.
  unfold update_conversation_status, _get_connection, sql_bind, execute,
    commit, update_status, rollback, close.
  simpl.
  destruct (fault_at f 0) as [e0|]; [left; eauto |]. simpl.
  destruct (fault_at f 1) as [e1|]; [left; eauto |]. simpl.
  right. reflexivity.
Qed.

Lemma create_keeps_messages f clk stamp w :
  messages (snd (create_conversation f clk stamp None w)) = messages w.
Proof.
  destruct (create_conversation_cases f clk stamp w) as [[e ->] | ->];
    reflexivity.
Qed.

Lemma update_keeps_messages f clk id status w :
  messages (snd (update_conversation_status f clk id status w)) = messages w.
Proof.
  destruct (update_status_cases f clk id status w) as [[e ->] | ->];
    reflexivity.
Qed.

Lemma get_keeps_file f id w : snd (get_conversation f id w) = w.
Proof.
  destruct (get_conversation_cases f id w) as [[e ->] | ->]; reflexivity.
Qed.

Lemma add_keeps_no_system f clk id role content w :
  role <> "system" ->
  no_system_rows w ->
  no_system_rows (snd (add_message f clk id role content None w)).
Proof.
  intros Hr Hw.
  destruct (StoreFacts.add_message_cases f clk id role content None w)
    as [[e ->] | [_ ->]]; simpl; [exact Hw |].
  unfold no_system_rows in *. simpl.
  apply Forall_app. split; [exact Hw |].
  constructor; [exact Hr | constructor].
Qed.

Section Active.
Variable J : Store -> option Z -> Prop.
Hypothesis J_add :
  forall f clk id role content w c,
    role <> "system" ->
    J w c -> J (snd (add_message f clk id role content None w)) c.

Let P (e : Effect) : Prop := during_session e = true.
Let any {A} (_ : Outcome A) : Prop := True.

Lemma connected_holds (cfg : Config.Config) (sc : Scenario) (c : EVIClient) :
  holds J P any (connected cfg sc c).
Proof.
  unfold connected.
  repeat (apply holds_bind with (Q1 := any);
          [first [apply holds_emit; [reflexivity | exact I]
                 | apply holds_set_running; exact I]
          | intros [] _ | auto]).
  apply holds_try_interrupt with (Q1 := any); try (intros; exact I).
  - apply holds_bind with (Q1 := any);
      [apply holds_emit; [reflexivity | exact I] | | auto].
    intros [] _.
    apply holds_bind with (Q1 := any); [| | auto].
    { destruct (Config.interruption_enabled cfg);
        (apply holds_emit; [reflexivity | exact I]). }
    intros [] _. unfold start_microphone.
    apply holds_try_except with (Q1 := any); try (intros; exact I).
    + apply holds_bind with (Q1 := any);
        [apply holds_emit; [reflexivity | exact I] | | auto].
      intros [] _. unfold MicrophoneInterface_start.
      apply holds_bind with (Q1 := any);
        [apply holds_emit; [reflexivity | exact I] | | auto].
      intros [] _.
      apply holds_bind with (Q1 := any); [| | auto].
      * eapply holds_weaken; [| intros; exact I].
        eapply holds_effects; [apply deliver_holds; exact J_add |].
        intros e He. unfold P, during_session. rewrite He. reflexivity.
      * intros [] _. destruct (sc_ending sc).
        -- apply holds_ret. exact I.
        -- unfold _handle_exit.
           apply holds_bind with (Q1 := any);
             [apply holds_emit; [reflexivity | exact I] | | auto].
           intros [] _.
           apply holds_bind with (Q1 := any);
             [apply holds_set_running; exact I | | auto].
           intros [] _. apply holds_raise. exact I.
        -- apply holds_raise. exact I.
        -- apply holds_try_interrupt with (Q1 := any); try (intros; exact I).
           ++ unfold _handle_exit.
              apply holds_bind with (Q1 := any);
                [apply holds_emit; [reflexivity | exact I] | | auto].
              intros [] _.
              apply holds_bind with (Q1 := any);
                [apply holds_set_running; exact I | | auto].
              intros [] _. apply holds_raise. exact I.
           ++ intros _.
              apply holds_bind with (Q1 := any);
                [apply holds_set_pending_interrupt; exact I | | auto].
              intros [] _. apply holds_raise. exact I.
    + intros e _.
      apply holds_bind with (Q1 := any);
        [apply holds_emit; [reflexivity | exact I] | | auto].
      intros [] _. apply holds_raise. exact I.
  - intros _. apply holds_emit; [reflexivity | exact I].
Qed.
End Active.

(** *** The whole session keeps invariants of the file *)

Section Flow.
Variable J : Store -> Prop.
Variable P : Effect -> Prop.
Hypothesis J_messages :
  forall w w', messages w' = messages w -> J w -> J w'.
Hypothesis J_add :
  forall f clk id role content w,
    role <> "system" ->
    J w -> J (snd (add_message f clk id role content None w)).
Hypothesis P_session : forall e, during_session e = true -> P e.
Hypothesis P_other :
  forall e, match e with StoreCall (AddMessage _ _ _) => True | _ => P e end.

Let J' (w : Store) (_ : option Z) : Prop := J w.
Let any {A} (_ : Outcome A) : Prop := True.

Lemma with_connection_holds (sc : Scenario) (body : M unit) :
  holds J' P any body -> holds J' P any (with_connection sc body).
Proof.
  intros Hb. unfold with_connection.
  destruct (sc_connect sc) as [r|]; [apply holds_raise; exact I |].
  apply holds_bind with (Q1 := any);
    [apply holds_emit; [apply (P_other ChannelOpen) | exact I] | | auto].
  intros [] _.
  apply holds_bind with (Q1 := any);
    [apply holds_emit; [apply (P_other (Log WebSocketOpened)) | exact I] | | auto].
  intros [] _ s o s' HJ E.
  destruct (body s) as [o1 s1] eqn:E1.
  destruct (Hb s _ _ HJ E1) as (_ & HJ1 & out1 & Ht1 & Hp1).
  simpl in E.
  split; [exact I |].
  destruct (sc_close sc); injection E as <- <-; simpl;
    (split; [exact HJ1 |]);
    exists (out1 ++ [ChannelClose]); rewrite Ht1, app_assoc;
    (split; [reflexivity |]); apply Forall_app;
    (split; [exact Hp1 |]); constructor;
    solve [apply (P_other ChannelClose) | constructor].
Qed.

Lemma cleanup_holds (sc : Scenario) :
  holds J' P (fun o => o = Ret tt) (_cleanup sc).
Proof.
  unfold _cleanup.
  apply holds_bind with (Q1 := fun o => o = Ret tt).
  - apply holds_try_except with (Q1 := @caught unit).
    + apply holds_get. intros cid.
      destruct (truthy_id cid); [| apply holds_ret; exact I].
      apply holds_store_call.
      * apply (P_other (StoreCall (UpdateStatus _ _))).
      * intros f clk stamp w c0; simpl. apply J_messages, update_keeps_messages.
      * intros; exact I.
      * intros; exact I.
    + intros e _. apply holds_emit;
        [apply (P_other (Log (ErrorUpdatingStatus e))) | reflexivity].
    + intros [] _. reflexivity.
    + intros [].
    + intros [].
  - intros [] _.
    apply holds_bind with (Q1 := fun o => o = Ret tt).
    + apply holds_try_except with (Q1 := fun o => o = Ret tt).
      * unfold stop_microphone.
        apply holds_bind with (Q1 := fun o => o = Ret tt).
        -- apply holds_emit; [apply (P_other MicrophoneStop) | reflexivity].
        -- intros [] _.
           apply holds_try_except with (Q1 := fun o => o = Ret tt).
           ++ apply holds_emit;
                [apply (P_other (Log StoppingMicrophoneInfo)) | reflexivity].
           ++ intros e H. discriminate H.
           ++ auto.
           ++ auto.
           ++ auto.
        -- auto.
      * intros e H. discriminate H.
      * auto.
      * auto.
      * auto.
    + intros [] _. apply holds_emit;
        [apply (P_other (Console Disconnected)) | reflexivity].
    + auto.
  - auto.
Qed.

Lemma set_up_holds (sc : Scenario) (conversation_id : option Z) :
  holds J' P any (set_up_conversation sc conversation_id).
Proof.
  unfold set_up_conversation.
  destruct (truthy_id conversation_id).
  - apply holds_bind with (Q1 := any); [| | auto].
    + apply holds_store_call; try (intros; exact I).
      * apply (P_other (StoreCall (GetConversation _))).
      * intros f clk stamp w c0 HJ; simpl. unfold J'. rewrite get_keeps_file. exact HJ.
    + intros [conv|] _.
      * apply holds_bind with (Q1 := any);
          [apply holds_set_id; [auto | exact I] | | auto].
        intros [] _.
        apply holds_bind with (Q1 := any); [| | auto].
        -- apply holds_store_call; try (intros; exact I).
           ++ apply (P_other (StoreCall (UpdateStatus _ _))).
           ++ intros f clk stamp w c0; simpl. apply J_messages, update_keeps_messages.
        -- intros [] _.
           apply holds_bind with (Q1 := any);
             [apply holds_emit; [apply (P_other (Console _)) | exact I] | | auto].
           intros [] _. apply holds_ret. exact I.
      * apply holds_bind with (Q1 := any);
          [apply holds_emit; [apply (P_other (Console _)) | exact I] | | auto].
        intros [] _. apply holds_ret. exact I.
  - apply holds_bind with (Q1 := any); [| | auto].
    + apply holds_store_call; try (intros; exact I).
      * apply (P_other (StoreCall CreateConversation)).
      * intros f clk stamp w c0; simpl. apply J_messages, create_keeps_messages.
    + intros id _.
      apply holds_bind with (Q1 := any);
        [apply holds_set_id; [auto | exact I] | | auto].
      intros [] _. apply holds_get. intros cid.
      apply holds_bind with (Q1 := any);
        [apply holds_emit; [apply (P_other (Console _)) | exact I] | | auto].
      intros [] _. apply holds_ret. exact I.
Qed.

Lemma start_conversation_holds (cfg : Config.Config) (sc : Scenario)
    (conversation_id : option Z) :
  holds J' P (fun o => o = Ret tt \/ o = Raise CancelledError)
        (start_conversation cfg sc conversation_id).
Proof.
  unfold start_conversation.
  apply holds_try_finally
    with (Q1 := fun o => o = Ret tt \/ o = Raise CancelledError);
    [| apply cleanup_holds | auto].
  apply holds_try_clauses with (Q1 := any).
  - unfold attempt.
    apply holds_bind with (Q1 := any);
      [apply holds_emit; [apply (P_other (Console _)) | exact I] | | auto].
    intros [] _.
    apply holds_bind with (Q1 := any); [| | auto].
    { unfold EVIClient__init__.
      destruct (negb _); [apply holds_raise; exact I |].
      destruct (negb _); [apply holds_raise; exact I |].
      apply holds_ret. exact I. }
    intros c _.
    apply holds_bind with (Q1 := any);
      [apply holds_set_evi_client; exact I | | auto].
    intros [] _.
    apply holds_bind with (Q1 := any); [apply set_up_holds | | auto].
    intros [|] _; [| apply holds_ret; exact I].
    apply holds_bind with (Q1 := any);
      [apply holds_set_evi_client; exact I | | auto].
    intros [] _. apply with_connection_holds.
    eapply holds_effects; [apply connected_holds | exact P_session].
    intros f clk id role content w c0. apply J_add.
  - intros _. apply holds_emit;
      [apply (P_other (Console _)) | left; reflexivity].
  - intros e _.
    apply holds_weaken with (Q := fun o => o = Ret tt); [| auto].
    unfold report.
    destruct (is_session_end e).
    + repeat (apply holds_bind with (Q1 := fun o => o = Ret tt);
              [apply holds_emit; [apply (P_other (Console _)) | reflexivity]
              | intros [] _ | auto]).
      apply holds_emit; [apply (P_other (Console _)) | reflexivity].
    + apply holds_bind with (Q1 := fun o => o = Ret tt);
        [apply holds_emit; [apply (P_other (Console _)) | reflexivity]
        | intros [] _ | auto].
      apply holds_emit; [apply (P_other (Log _)) | reflexivity].
  - intros [] _. left. reflexivity.
  - intros _. right. reflexivity.
Qed.
End Flow.

(** *** Claims about the session *)

Lemma handler_not_system (e : Effect) :
  during_session e = true -> persists_system e = false.
Proof.
  destruct e as [l|r|op| | | |allow|]; try reflexivity.
  destruct op as [ |id| |id status|id role content|id]; try reflexivity.
  unfold during_session. simpl. rewrite orb_false_r.
  destruct (role =? "system")%string; [discriminate | reflexivity].
Qed.

(** C4.  The message callback called with role [system] prints the
    notification and does nothing else: no Store call is made and the
    database file is what it was.  In a whole session, whatever the
    scenario, no call of [add_message] with role [system] is made, and a
    file without [system] rows has none afterwards. *)
Theorem system_messages_never_persisted :
  (forall sc content s,
     _save_message_callback sc "system" content s
     = (Ret tt,
        mkState (db s) (current_conversation_id s) (running s) (evi_client s)
                (stream s) (store_calls s)
                (trace s ++ [Console (SystemSaid content)])
                (pending_interrupt s)))
  /\ (forall cfg sc conversation_id s,
        exists out,
          trace (snd (start_conversation cfg sc conversation_id s))
          = trace s ++ out
          /\ Forall (fun e => persists_system e = false) out
          /\ (no_system_rows (db s) ->
              no_system_rows
                (db (snd (start_conversation cfg sc conversation_id s))))).
Proof.
  split.
  - intros sc content s. reflexivity.
  - intros cfg sc conversation_id s.
    destruct (start_conversation cfg sc conversation_id s) as [o s'] eqn:E.
    assert (H1 : forall w w', messages w' = messages w ->
                 (no_system_rows (db s) -> no_system_rows w) ->
                 no_system_rows (db s) -> no_system_rows w').
    { intros w w' Hm H H0. unfold no_system_rows. rewrite Hm. apply H, H0. }
    assert (H2 : forall f clk id role content w,
                 role <> "system" ->
                 (no_system_rows (db s) -> no_system_rows w) ->
                 no_system_rows (db s) ->
                 no_system_rows (snd (add_message f clk id role content None w))).
    { intros f clk id role content w Hr H H0.
      apply add_keeps_no_system; auto. }
    assert (H3 : forall e,
                 match e with
                 | StoreCall (AddMessage _ _ _) => True
                 | _ => persists_system e = false
                 end).
    { intros e. destruct e as [l|r|op| | | |allow|]; try reflexivity.
      destruct op; first [reflexivity | exact I]. }
    destruct (@start_conversation_holds _ _ H1 H2 handler_not_system H3
                cfg sc conversation_id s o s' (fun H => H) E)
      as (_ & HJ & out & Ht & Hp).
    exists out. simpl. auto.
Qed.

Lemma system_messages_never_persisted_witness :
  no_system_rows
    (db (snd (start_conversation Examples.good_config Examples.cancelled None
                (ConversationManager__init__ empty_store)))).
Proof.
  destruct system_messages_never_persisted as [_ H].
  destruct (H Examples.good_config Examples.cancelled None (ConversationManager__init__ empty_store))
    as (out & _ & _ & Hrows).
  apply Hrows. constructor.
Defined.


(** *** The order of the teardown *)

Lemma steps_app (a b : list Effect) : steps (a ++ b) = steps a ++ steps b.
Proof. unfold steps. apply flat_map_app. Qed.

Lemma during_session_quiet (out : list Effect) :
  Forall (fun e => during_session e = true) out ->
  steps out = [] /\ ~ In ChannelOpen out.
Proof.
  induction 1 as [|e out He _ [IH1 IH2]]; simpl.
  - split; [reflexivity | tauto].
  - split.
    + rewrite IH1, app_nil_r.
      destruct e as [l|r|op| | | |allow|]; try discriminate He; try reflexivity.
      * destruct r; try discriminate He; reflexivity.
      * destruct op; try discriminate He; reflexivity.
    + intros [H|H]; [subst e; discriminate He | exact (IH2 H)].
Qed.

Lemma next_rowid_truthy (ids : list Z) (seq : Z) :
  0 <= seq -> truthy_id (Some (next_rowid ids seq)) = true.
Proof.
  intros H. simpl. unfold next_rowid.
  destruct (StoreFacts.fold_max_ge ids seq) as [Hge _].
  destruct (Z.eqb_spec (max_id ids seq + 1) 0); [lia | reflexivity].
Qed.

Ltac trace_is :=
  do 2 eexists; split; [reflexivity |]; simpl;
  split; [rewrite <- ?app_assoc; simpl; reflexivity |].

Lemma cleanup_steps (sc : Scenario) (s : State) :
  exists s' out,
    _cleanup sc s = (Ret tt, s')
    /\ trace s' = trace s ++ out
    /\ ~ In ChannelOpen out
    /\ (if truthy_id (current_conversation_id s)
        then steps out = [SetPaused; StopAudio]
             \/ steps out = [SetPaused; FailureLogged; StopAudio]
        else steps out = [StopAudio]).
Proof.
  unfold _cleanup, try_except, bind, get, store_call, stop_microphone, logger,
    console, emit, bind, ret.
  destruct (truthy_id (current_conversation_id s)) eqn:Hc; simpl.
  - destruct (update_conversation_status _ _ _ _ _) as [[[]|e] w]; simpl;
      trace_is; (split; [simpl; intuition discriminate | simpl; auto]).
  - trace_is. split; [simpl; intuition discriminate | reflexivity].
Qed.

(** *** The pending interrupt *)

Lemma keeps_ret {A} (a : A) : keeps_pending (ret a).
Proof. intros s. reflexivity. Qed.

Lemma keeps_raise {A} (r : Raised) : keeps_pending (@raise A r).
Proof. intros s. reflexivity. Qed.

Lemma keeps_emit (e : Effect) : keeps_pending (emit e).
Proof. intros s. reflexivity. Qed.

Lemma keeps_set_stream (q : list string) : keeps_pending (set_stream q).
Proof. intros s. reflexivity. Qed.

Lemma keeps_bind {A B} (m : M A) (k : A -> M B) :
  keeps_pending m -> (forall a, keeps_pending (k a)) -> keeps_pending (bind m k).
Proof.
  intros Hm Hk s. unfold bind. specialize (Hm s).
  destruct (m s) as [[a|r] s1]; simpl in *; [| exact Hm].
  rewrite Hk. exact Hm.
Qed.

Lemma keeps_get {A B} (f : State -> A) (k : A -> M B) :
  (forall a, keeps_pending (k a)) -> keeps_pending (bind (get f) k).
Proof. intros Hk s. unfold bind, get. apply Hk. Qed.

Lemma keeps_try_except {A} (m : M A) (h : Exn -> M A) :
  keeps_pending m -> (forall e, keeps_pending (h e)) ->
  keeps_pending (try_except m h).
Proof.
  intros Hm Hh s. unfold try_except. specialize (Hm s).
  destruct (m s) as [[a|[|e|]] s1]; simpl in *; try exact Hm.
  rewrite Hh. exact Hm.
Qed.

Lemma keeps_store_call {A} (sc : Scenario) (op : StoreOp)
    (run : Fault -> Clock -> string -> Store -> dbres A * Store) :
  keeps_pending (store_call sc op run).
Proof.
  intros s. unfold store_call.
  destruct (run _ _ _ (db s)) as [[a|e] w]; reflexivity.
Qed.

Lemma callback_keeps_pending (sc : Scenario) (role content : string) :
  keeps_pending (_save_message_callback sc role content).
Proof.
  unfold _save_message_callback.
  apply keeps_get. intros cid.
  apply keeps_bind.
  - destruct (negb (role =? "system")%string && truthy_id cid)%bool;
      [| apply keeps_ret].
    apply keeps_try_except; [| intros e; apply keeps_emit].
    apply keeps_bind; [apply keeps_store_call | intros a; apply keeps_ret].
  - intros [].
    destruct (role =? "assistant")%string; [apply keeps_emit |].
    destruct (role =? "user")%string; [apply keeps_emit |].
    destruct (role =? "system")%string; [apply keeps_emit | apply keeps_ret].
Qed.

Lemma notify_keeps_pending (sc : Scenario) (cbs : list Callback)
    (role content : string) :
  keeps_pending (notify sc cbs role content).
Proof.
  induction cbs as [|cb cbs IH]; simpl; [apply keeps_ret |].
  apply keeps_bind; [destruct cb; apply callback_keeps_pending |].
  intros []. exact IH.
Qed.

Lemma handle_message_keeps_pending (sc : Scenario) (c : EVIClient)
    (m : SubscribeEvent) :
  keeps_pending (_handle_message sc c m).
Proof.
  unfold _handle_message.
  apply keeps_try_except; [| intros e; apply keeps_emit].
  destruct (msg_type m =? "audio_output")%string.
  { destruct (audio_stream c); [| apply keeps_ret].
    destruct (msg_audio m) as [e|bytes]; [apply keeps_raise |].
    apply keeps_get. intros q. apply keeps_set_stream. }
  destruct (msg_type m =? "user_interruption")%string.
  { apply keeps_bind; [| intros []; apply notify_keeps_pending].
    destruct (audio_stream c); [apply keeps_set_stream | apply keeps_ret]. }
  destruct (msg_type m =? "user_message")%string.
  { apply keeps_bind; [apply keeps_emit | intros []; apply notify_keeps_pending]. }
  destruct (msg_type m =? "assistant_message")%string.
  { apply keeps_bind; [apply keeps_emit | intros []; apply notify_keeps_pending]. }
  apply notify_keeps_pending.
Qed.

Lemma deliver_keeps_pending (sc : Scenario) (c : EVIClient)
    (evs : list ChannelEvent) :
  keeps_pending (deliver sc c evs).
Proof.
  induction evs as [|ev evs IH]; simpl; [apply keeps_ret |].
  apply keeps_bind; [| intros []; exact IH].
  destruct ev as [m|err|]; simpl.
  - apply handle_message_keeps_pending.
  - unfold on_error. destruct (negb _); [apply keeps_emit | apply keeps_ret].
  - apply keeps_emit.
Qed.

(** The body of the [async with] ends as the microphone loop does, and
    a [KeyboardInterrupt] is pending afterwards if it was before or if the
    loop was interrupted. *)
Lemma connected_ends (cfg : Config.Config) (sc : Scenario) (c : EVIClient)
    (s : State) :
  exists s',
    connected cfg sc c s = (connected_outcome (sc_ending sc), s')
    /\ pending_interrupt s'
       = (pending_interrupt s || interrupts (sc_ending sc))%bool.
Proof.
  unfold connected.
  cbn [bind console emit set_running _setup_signal_handlers logger
       db current_conversation_id running evi_client stream store_calls trace
       pending_interrupt].
  unfold try_interrupt, start_microphone, try_except,
    MicrophoneInterface_start.
  destruct (Config.interruption_enabled cfg);
    cbn [bind console emit logger
         db current_conversation_id running evi_client stream store_calls
         trace pending_interrupt];
    unfold bind;
    match goal with
    | |- context [deliver sc c (sc_events sc) ?S] =>
        pose proof (deliver_keeps_pending sc c (sc_events sc) S) as Hp;
        destruct (deliver sc c (sc_events sc) S) as [o1 s1] eqn:E1;
        destruct (@deliver_holds (fun _ _ => True)
                    (fun _ _ _ _ _ _ _ _ _ => I) sc c (sc_events sc) S o1 s1
                    I E1) as (-> & _)
    end;
    cbn [snd pending_interrupt] in Hp;
    destruct (sc_ending sc);
    cbn [ret raise _handle_exit bind console logger emit set_running
         set_pending_interrupt connected_outcome interrupts
         db current_conversation_id running evi_client stream store_calls
         trace pending_interrupt];
    eexists; (split; [reflexivity |]);
    cbn [pending_interrupt];
    first [rewrite Hp; symmetry; apply orb_false_r
          | symmetry; apply orb_true_r].
Qed.

Lemma shape_cons (closing : option Exn) (ending : Ending) (o : Outcome unit)
    (cid : option Z) (e : Effect) (out : list Effect) (p p' : bool) :
  step_of e = [] -> e <> ChannelOpen ->
  session_shape closing ending o cid out p p' ->
  session_shape closing ending o cid (e :: out) p p'.
Proof.
  intros He Hne [(H1 & H2 & H3) | (H1 & H2 & H3 & H4 & pre & H5)];
    [left | right].
  - split; [unfold steps in *; simpl; rewrite He, H1; reflexivity |].
    split; [| exact H3].
    intros [H|H]; [exact (Hne H) | exact (H2 H)].
  - split; [unfold steps in *; simpl; rewrite He, H1; reflexivity |].
    repeat (split; [assumption |]).
    exists (e :: pre). rewrite H5. reflexivity.
Qed.

Ltac quiet_shape :=
  left; split; [reflexivity |];
  split; [simpl; intuition discriminate | reflexivity].

(** The [async with] block, entered with a conversation id that counts as
    one: either the connection is not made and nothing is opened, or the
    channel is opened, the body runs and the channel is closed. *)
Lemma connection_shape (cfg : Config.Config) (sc : Scenario) (c : EVIClient)
    (s : State) :
  truthy_id (current_conversation_id s) = true ->
  exists o s' out,
    with_connection sc (connected cfg sc c) s = (o, s')
    /\ trace s' = trace s ++ out
    /\ session_shape (sc_close sc) (sc_ending sc) o
                     (current_conversation_id s') out
                     (pending_interrupt s) (pending_interrupt s').
Proof.
  intros Hc. unfold with_connection.
  destruct (sc_connect sc) as [r|].
  { do 3 eexists. split; [reflexivity |]. simpl.
    split; [symmetry; apply app_nil_r | quiet_shape]. }
  unfold bind, emit, logger. simpl.
  match goal with
  | |- context [connected cfg sc c ?S] =>
      destruct (connected_ends cfg sc c S) as (s1 & E1 & Hp1);
      destruct (@connected_holds (fun _ id => truthy_id id = true)
                  (fun _ _ _ _ _ _ _ _ H => H) cfg sc c S _ s1 Hc E1)
        as (_ & Hc1 & out1 & Ht1 & Hq);
      rewrite E1
  end.
  simpl in Ht1, Hp1.
  destruct (during_session_quiet Hq) as [Hq1 Hq2].
  assert (Hsteps : steps ([ChannelOpen; Log WebSocketOpened] ++ out1 ++ [ChannelClose])
                   = [Opened; CloseChannel]).
  { rewrite !steps_app, Hq1. reflexivity. }
  destruct (sc_close sc) as [e|]; simpl.
  - do 3 eexists. split; [reflexivity |]. simpl. rewrite Ht1.
    split; [rewrite <- !app_assoc; reflexivity |].
    right. split; [exact Hsteps |]. split; [exact Hc1 |].
    split; [reflexivity |]. split; [exact Hp1 |].
    exists ([ChannelOpen; Log WebSocketOpened] ++ out1).
    rewrite <- !app_assoc. reflexivity.
  - do 3 eexists. split; [reflexivity |]. simpl. rewrite Ht1.
    split; [rewrite <- !app_assoc; reflexivity |].
    right. split; [exact Hsteps |]. split; [exact Hc1 |].
    split; [reflexivity |]. split; [exact Hp1 |].
    exists ([ChannelOpen; Log WebSocketOpened] ++ out1).
    rewrite <- !app_assoc. reflexivity.
Qed.

Section Attempt.

Local Opaque with_connection.

Ltac enter_connection cfg sc :=
match goal with
| |- context [with_connection sc (connected cfg sc ?c) ?S] =>
    let o := fresh "o" in
    let s' := fresh "s'" in
    let out := fresh "out" in
    let E := fresh "E" in
    let Ht := fresh "Ht" in
    let Hshape := fresh "Hshape" in
    let Hc := fresh "Hc" in
    assert (Hc : truthy_id (current_conversation_id S) = true);
    [ simpl | destruct (@connection_shape cfg sc c S Hc)
                as (o & s' & out & E & Ht & Hshape);
              rewrite E; simpl in Ht, Hshape ]
end.

Ltac leaf :=
do 3 eexists; split; [reflexivity |]; simpl;
split; [rewrite <- ?app_assoc; simpl; reflexivity |].

Lemma attempt_shape (cfg : Config.Config) (sc : Scenario)
  (conversation_id : option Z) (s : State) :
0 <= seq_conversations (db s) ->
exists o s' out,
  attempt cfg sc conversation_id s = (o, s')
  /\ trace s' = trace s ++ out
  /\ session_shape (sc_close sc) (sc_ending sc) o
                   (current_conversation_id s') out
                   (pending_interrupt s) (pending_interrupt s').
Proof.
intros Hseq.
unfold attempt, bind, console, emit, EVIClient__init__, raise, ret,
  set_evi_client.
simpl.
destruct (Config.hume_api_key cfg =? "")%string; simpl;
  [leaf; quiet_shape |].
destruct (Config.hume_config_id cfg =? "")%string; simpl;
  [leaf; quiet_shape |].
unfold set_up_conversation.
destruct (truthy_id conversation_id) eqn:Hid.
- unfold bind, store_call. simpl.
  destruct (get_conversation_cases (sc_fault sc (store_calls s))
             (match conversation_id with Some i => i | None => 0 end) (db s))
    as [[e ->] | ->]; simpl; [leaf; quiet_shape |].
  destruct (q_conversation _ (db s)) as [conv|]; simpl;
    [| leaf; quiet_shape].
  destruct (update_conversation_status _ _ _ _ _) as [[[]|e] w]; simpl;
    [| leaf; quiet_shape].
  enter_connection cfg sc; [exact Hid |].
  do 3 eexists. split; [reflexivity |]. rewrite Ht.
  split; [rewrite <- ?app_assoc; simpl; reflexivity |].
  repeat (apply shape_cons; [reflexivity | discriminate |]).
  exact Hshape.
- unfold bind, store_call. simpl.
  destruct (create_conversation_cases (sc_fault sc (store_calls s))
             (sc_clock sc (store_calls s)) (sc_stamp sc (store_calls s)) (db s))
    as [[e ->] | ->]; simpl; [leaf; quiet_shape |].
  enter_connection cfg sc; [apply next_rowid_truthy; exact Hseq |].
  do 3 eexists. split; [reflexivity |]. rewrite Ht.
  split; [rewrite <- ?app_assoc; simpl; reflexivity |].
  repeat (apply shape_cons; [reflexivity | discriminate |]).
  exact Hshape.
Qed.

End Attempt.

(** The [except] clauses: a [CancelledError] passes them; whatever else
    the [try] block did, the function goes on to the [finally] clause
    normally.  The conversation id, the file and the pending interrupt are
    what they were, and an exception is reported on the console. *)
Lemma clauses_shape (m : M unit) (s : State) (o : Outcome unit) (s1 : State) :
  m s = (o, s1) ->
  exists s2 mid,
    try_clauses m (console InterruptedByUser) report s
    = (match o with Raise CancelledError => Raise CancelledError | _ => Ret tt end,
       s2)
    /\ current_conversation_id s2 = current_conversation_id s1
    /\ db s2 = db s1
    /\ store_calls s2 = store_calls s1
    /\ pending_interrupt s2 = pending_interrupt s1
    /\ trace s2 = trace s1 ++ mid
    /\ steps mid = []
    /\ ~ In ChannelOpen mid
    /\ (forall e, o = Raise (Exc e) ->
         (is_session_end e = false /\
          mid = [Console (ErrorLine e); Log (ErrorDuringConversation e)])
         \/ (is_session_end e = true /\
             mid = [Console SessionEnded; Console ConversationSaved;
                    Console ResumeCommand])).
Proof.
  intros E. unfold try_clauses. rewrite E.
  destruct o as [[]|[|e|]].
  - exists s1, []. rewrite app_nil_r.
    repeat (split; [reflexivity |]). split; [simpl; tauto |].
    intros e H. discriminate H.
  - unfold console, emit. do 2 eexists. split; [reflexivity |]. simpl.
    repeat (split; [reflexivity |]). split; [simpl; intuition discriminate |].
    intros e H. discriminate H.
  - unfold report, console, logger, emit, bind.
    destruct (is_session_end e) eqn:Hend; simpl;
      (do 2 eexists; split; [reflexivity |]; simpl;
       split; [reflexivity |]; split; [reflexivity |];
       split; [reflexivity |]; split; [reflexivity |];
       split; [rewrite <- ?app_assoc; simpl; reflexivity |];
       split; [reflexivity |]; split; [simpl; intuition discriminate |];
       intros e0 H; injection H as <-; auto).
  - exists s1, []. rewrite app_nil_r.
    repeat (split; [reflexivity |]). split; [simpl; tauto |].
    intros e H. discriminate H.
Qed.

(** [_cleanup] with a current conversation: the call that sets the status,
    the record of its failure if it raised, then the stop of the
    microphone and the last line. *)
Lemma cleanup_exact (sc : Scenario) (id : Z) (s : State) :
  current_conversation_id s = Some id ->
  id <> 0 ->
  exists s',
    _cleanup sc s = (Ret tt, s')
    /\ db s' = snd (cleanup_update sc id s)
    /\ pending_interrupt s' = pending_interrupt s
    /\ trace s'
       = trace s ++ [StoreCall (UpdateStatus id "paused")]
                 ++ cleanup_log (fst (cleanup_update sc id s))
                 ++ [MicrophoneStop; Log StoppingMicrophoneInfo;
                     Console Disconnected].
Proof.
  intros Hcid Hid.
  unfold _cleanup, try_except, bind, get, store_call, stop_microphone, logger,
    console, emit, bind, ret, cleanup_update.
  rewrite Hcid. simpl.
  destruct (Z.eqb_spec id 0) as [|_]; [contradiction |]. simpl.
  destruct (update_conversation_status _ _ _ _ _) as [[[]|e] w]; simpl;
    eexists; (split; [reflexivity |]); simpl;
    (split; [reflexivity |]); (split; [reflexivity |]);
    rewrite <- ?app_assoc; reflexivity.
Qed.

(** C1 as the code has it.  In every session that opened the channel, on a
    database file whose conversation counter is not negative, whatever
    ends the session (the loop returns or raises, the user cancels while
    the coroutine runs or while it waits) and whatever the engine and the
    close of the channel do: the channel is closed on the way out of the
    [async with]; then [_cleanup] calls the Store to set the status of the
    conversation to [paused]; if and only if this call raises, its
    exception is logged right after it and the file is what it was; then
    the microphone is stopped, whether the call raised or not.  An
    exception of the close is reported right after the close, on the
    console and in the log as an error or, if it counts as the end of the
    session, on the console as that, and does not prevent the update and
    the stop.
    The command ends normally, unless the user cancelled while the
    coroutine was waiting: then the [KeyboardInterrupt] of the signal
    handler ends it, after the teardown. *)
Theorem teardown_order (cfg : Config.Config) (sc : Scenario)
    (conversation_id : option Z) (file : Store) :
  0 <= seq_conversations file ->
  In ChannelOpen
     (Cli.output (session cfg sc conversation_id file)) ->
  exists id,
    current_conversation_id (before_cleanup cfg sc conversation_id file)
    = Some id
    /\ id <> 0
    /\ steps (trace (before_cleanup cfg sc conversation_id file))
       = [Opened; CloseChannel]
    /\ Cli.output (session cfg sc conversation_id file)
       = trace (before_cleanup cfg sc conversation_id file)
         ++ [StoreCall (UpdateStatus id "paused")]
         ++ cleanup_log
              (fst (cleanup_update sc id
                      (before_cleanup cfg sc conversation_id file)))
         ++ [MicrophoneStop; Log StoppingMicrophoneInfo;
             Console Disconnected]
    /\ steps (Cli.output (session cfg sc conversation_id file))
       = [Opened; CloseChannel; SetPaused]
         ++ match fst (cleanup_update sc id
                         (before_cleanup cfg sc conversation_id file)) with
            | DbErr _ => [FailureLogged]
            | DbOk _ => []
            end
         ++ [StopAudio]
    /\ Cli.file (session cfg sc conversation_id file)
       = snd (cleanup_update sc id
                (before_cleanup cfg sc conversation_id file))
    /\ (forall e,
          fst (cleanup_update sc id
                 (before_cleanup cfg sc conversation_id file)) = DbErr e ->
          Cli.file (session cfg sc conversation_id file)
          = db (before_cleanup cfg sc conversation_id file))
    /\ (sc_fault sc
          (store_calls (before_cleanup cfg sc conversation_id file)) = None ->
        fst (cleanup_update sc id
               (before_cleanup cfg sc conversation_id file)) = DbOk tt)
    /\ (forall e, sc_close sc = Some e ->
          exists pre,
            trace (before_cleanup cfg sc conversation_id file)
            = pre ++ [ChannelClose]
                  ++ (if is_session_end e
                      then [Console SessionEnded; Console ConversationSaved;
                            Console ResumeCommand]
                      else [Console (ErrorLine e);
                            Log (ErrorDuringConversation e)]))
    /\ Cli.exit (session cfg sc conversation_id file)
       = (if interrupts (sc_ending sc) then Some KeyboardInterrupt else None).
Proof.
  intros Hseq.
  destruct (@attempt_shape cfg sc conversation_id
              (ConversationManager__init__ file) Hseq)
    as (o & s1 & out & E & Ht & Hshape).
  destruct (clauses_shape _ _ E)
    as (s2 & mid & E2 & Hcid & Hdb & Hn & Hp & Ht2 & Hmid & Hno & Hrep).
  assert (Hs2 : before_cleanup cfg sc conversation_id file = s2).
  { unfold before_cleanup. rewrite E2. reflexivity. }
  rewrite Hs2.
  destruct Hshape
    as [(_ & Hnoo & _) | (Hsteps & Htruthy & Ho & Hpend & pre & Hpre)].
  { (* the channel was not opened *)
    destruct (cleanup_steps sc s2) as (s3 & outc & E3 & Ht3 & Hnoc & _).
    unfold session, Cli.run_session, start_conversation, try_finally.
    rewrite E2, E3.
    intros Hin. exfalso.
    assert (Hin' : In ChannelOpen (trace s3))
      by (destruct o as [[]|[|e|]]; exact Hin).
    rewrite Ht3, Ht2, Ht in Hin'. simpl in Hin'.
    rewrite !in_app_iff in Hin'. tauto. }
  intros _.
  rewrite <- Hcid in Htruthy.
  destruct (current_conversation_id s2) as [id|] eqn:Hid; [| discriminate].
  assert (Hid0 : id <> 0).
  { intros ->. discriminate Htruthy. }
  destruct (@cleanup_exact sc id s2 Hid Hid0) as (s3 & E3 & Hdb3 & Hp3 & Ht3).
  simpl in Hpend.
  assert (Hrun : session cfg sc conversation_id file
                 = Cli.mkRun (if interrupts (sc_ending sc)
                              then Some KeyboardInterrupt else None)
                             (db s3) (trace s3)).
  { unfold session, Cli.run_session, start_conversation, try_finally.
    rewrite E2, E3, Hp3, Hp, Hpend.
    destruct (sc_close sc) as [e|]; subst o; [reflexivity |].
    destruct (sc_ending sc); reflexivity. }
  rewrite Hrun. simpl.
  exists id.
  split; [reflexivity |]. split; [exact Hid0 |].
  assert (Hsteps2 : steps (trace s2) = [Opened; CloseChannel]).
  { rewrite Ht2, Ht. simpl. rewrite steps_app, Hsteps, Hmid. reflexivity. }
  split; [exact Hsteps2 |].
  split; [exact Ht3 |].
  split.
  { rewrite Ht3, !steps_app, Hsteps2. simpl.
    destruct (String.eqb_spec "paused" "paused") as [_|H];
      [| contradiction H; reflexivity].
    destruct (fst (cleanup_update sc id s2)); reflexivity. }
  split; [exact Hdb3 |].
  split.
  { intros e He. rewrite Hdb3. unfold cleanup_update in *.
    destruct (update_status_cases (sc_fault sc (store_calls s2))
                (sc_clock sc (store_calls s2)) id "paused" (db s2))
      as [[e' H] | H]; rewrite H in *; [reflexivity | discriminate He]. }
  split.
  { intros Hf. unfold cleanup_update. rewrite Hf. reflexivity. }
  split; [| reflexivity].
  intros e He. rewrite He in Ho. rewrite Ht2, Ht, Hpre. simpl.
  exists pre.
  destruct (Hrep e Ho) as [[-> ->] | [-> ->]];
    rewrite <- !app_assoc; reflexivity.
Qed.

Lemma teardown_order_witness :
  steps (Cli.output (session Examples.good_config Examples.locked_at_the_end
                             None empty_store))
  = [Opened; CloseChannel; SetPaused; FailureLogged; StopAudio]
  /\ Cli.exit (session Examples.good_config Examples.locked_at_the_end None
                       empty_store)
     = Some KeyboardInterrupt.
Proof.
  destruct (@teardown_order Examples.good_config Examples.locked_at_the_end
              None empty_store)
    as (id & _ & _ & _ & _ & Hsteps & _ & _ & _ & _ & Hexit).
  - simpl. lia.
  - vm_compute. tauto.
  - split; [| exact Hexit].
    rewrite Hsteps.
    replace (fst (cleanup_update Examples.locked_at_the_end id
                    (before_cleanup Examples.good_config
                       Examples.locked_at_the_end None empty_store)))
      with (@DbErr unit Examples.locked); [reflexivity |].
    unfold cleanup_update, update_conversation_status. reflexivity.
Defined.

(** C1 as the spec has it: the microphone is stopped, then the channel is
    closed, then the status is set.  The session that the user ends with
    Ctrl+C takes the three steps in another order. *)
Lemma teardown_order_claimed_fails :
  In ChannelOpen
     (Cli.output (session Examples.good_config Examples.interrupted None
                          empty_store))
  /\ in_order [StopAudio; CloseChannel; SetPaused]
       (steps (Cli.output (session Examples.good_config Examples.interrupted
                                   None empty_store)))
     = false
  /\ in_order [CloseChannel; SetPaused; StopAudio]
       (steps (Cli.output (session Examples.good_config Examples.interrupted
                                   None empty_store)))
     = true.
Proof.
  vm_compute. tauto.
Qed.

(** *** Sessions that do not get to the channel *)

Lemma status_row_other (now id : Z) (status : string) (l : list Conversation) :
  ~ In id (map c_id l) -> map (status_row now id status) l = l.
Proof.
  induction l as [|c l IH]; simpl; intros H; [reflexivity |].
  unfold status_row at 1.
  destruct (Z.eqb_spec (c_id c) id) as [E|E]; [exfalso; auto |].
  rewrite IH by auto. reflexivity.
Qed.

Lemma no_rows_of_fresh (id : Z) (w : Store) :
  Forall (fun m => has_conversation w (m_conversation_id m) = true) (messages w) ->
  ~ In id (map c_id (conversations w)) ->
  rows_of id w = [].
Proof.
  intros Hfk Hfresh. unfold rows_of.
  induction Hfk as [|m ms Hm _ IH]; simpl; [reflexivity |].
  destruct (Z.eqb_spec (m_conversation_id m) id) as [E|E]; [| exact IH].
  exfalso. apply Hfresh. rewrite <- E.
  unfold has_conversation in Hm. apply existsb_exists in Hm.
  destruct Hm as (c & Hc & Hid). apply Z.eqb_eq in Hid. rewrite <- Hid.
  apply in_map. exact Hc.
Qed.

Lemma update_status_no_fault (clk : Clock) (id : Z) (status : string) (w : Store) :
  update_conversation_status None clk id status w
  = (DbOk tt,
     mkStore (map (status_row (clk 0%nat) id status) (conversations w))
             (messages w) (seq_conversations w) (seq_messages w)).
Proof. reflexivity. Qed.

Lemma create_conversation_no_fault (clk : Clock) (stamp : string) (w : Store) :
  create_conversation None clk stamp None w
  = (DbOk (next_rowid (map c_id (conversations w)) (seq_conversations w)),
     mkStore (conversations w ++
              [mkConversation
                 (next_rowid (map c_id (conversations w)) (seq_conversations w))
                 ("Conversation " ++ stamp) (clk 0%nat) (clk 0%nat) "active"])
             (messages w)
             (next_rowid (map c_id (conversations w)) (seq_conversations w))
             (seq_messages w)).
Proof. reflexivity. Qed.

Lemma get_conversation_no_fault (id : Z) (w : Store) :
  get_conversation None id w = (DbOk (q_conversation id w), w).
Proof. reflexivity. Qed.

(** C10.  A start without a conversation id, with a configuration that has
    both keys and an engine that does not fail, creates the conversation
    before it connects.  When the connection then fails, whatever is
    raised, the row is still in the file afterwards, [_cleanup] has set its
    status to [paused], no message was added, and (the file respecting the
    foreign key) the conversation has no messages.  The channel was never
    opened. *)
Theorem failed_fresh_start_leaves_paused_row (cfg : Config.Config)
    (sc : Scenario) (conversation_id : option Z) (file : Store) (r : Raised) :
  Config.hume_api_key cfg <> "" ->
  Config.hume_config_id cfg <> "" ->
  truthy_id conversation_id = false ->
  0 <= seq_conversations file ->
  sc_fault sc 0%nat = None ->
  sc_fault sc 1%nat = None ->
  sc_connect sc = Some r ->
  Cli.exit (session cfg sc conversation_id file)
  = match r with
    | CancelledError => Some KeyboardInterrupt
    | _ => None
    end
  /\ conversations
       (Cli.file (session cfg sc conversation_id file))
     = conversations file ++
       [mkConversation
          (next_rowid (map c_id (conversations file)) (seq_conversations file))
          ("Conversation " ++ sc_stamp sc 0%nat)
          (sc_clock sc 0%nat 0%nat) (sc_clock sc 1%nat 0%nat) "paused"]
  /\ messages
       (Cli.file (session cfg sc conversation_id file))
     = messages file
  /\ status_of
       (next_rowid (map c_id (conversations file)) (seq_conversations file))
       (Cli.file (session cfg sc conversation_id file))
     = Some "paused"
  /\ (Forall (fun m => has_conversation file (m_conversation_id m) = true)
             (messages file) ->
      rows_of
        (next_rowid (map c_id (conversations file)) (seq_conversations file))
        (Cli.file (session cfg sc conversation_id file))
      = [])
  /\ ~ In ChannelOpen
         (Cli.output (session cfg sc conversation_id file)).
Proof.
  intros Hkey Hcfg Hid Hseq Hf0 Hf1 Hconn.
  pose proof (@StoreFacts.next_rowid_fresh (map c_id (conversations file))
                (seq_conversations file)) as Hfresh.
  pose proof (@next_rowid_truthy (map c_id (conversations file))
                (seq_conversations file) Hseq) as Htruthy.
  set (id := next_rowid (map c_id (conversations file)) (seq_conversations file))
    in *.
  unfold session, Cli.run_session, start_conversation, try_finally, try_clauses, attempt,
    bind, console, emit, EVIClient__init__, raise, ret, set_evi_client,
    set_up_conversation.
  simpl.
  destruct (String.eqb_spec (Config.hume_api_key cfg) ""); [contradiction |].
  destruct (String.eqb_spec (Config.hume_config_id cfg) ""); [contradiction |].
  simpl. rewrite Hid. unfold bind, store_call. simpl.
  rewrite Hf0, create_conversation_no_fault. simpl. fold id.
  unfold with_connection. rewrite Hconn. unfold raise.
  assert (Hclean : forall s0,
            db s0 = mkStore (conversations file ++
                             [mkConversation id ("Conversation " ++ sc_stamp sc 0%nat)
                                (sc_clock sc 0%nat 0%nat) (sc_clock sc 0%nat 0%nat)
                                "active"])
                            (messages file) id (seq_messages file) ->
            current_conversation_id s0 = Some id ->
            store_calls s0 = 1%nat ->
            exists s3 out,
              _cleanup sc s0 = (Ret tt, s3)
              /\ db s3 = mkStore (conversations file ++
                                  [mkConversation id
                                     ("Conversation " ++ sc_stamp sc 0%nat)
                                     (sc_clock sc 0%nat 0%nat)
                                     (sc_clock sc 1%nat 0%nat) "paused"])
                                 (messages file) id (seq_messages file)
              /\ trace s3 = trace s0 ++ out /\ ~ In ChannelOpen out).
  { intros s0 Hdb Hc Hn.
    unfold _cleanup, try_except, bind, get, store_call, stop_microphone, logger,
      console, emit, bind, ret.
    rewrite Hc, Htruthy, Hn, Hf1, Hdb, update_status_no_fault. simpl.
    do 2 eexists. split; [reflexivity |]. simpl.
    split.
    - f_equal. rewrite map_app, status_row_other by exact Hfresh. simpl.
      unfold status_row. simpl. rewrite Z.eqb_refl. reflexivity.
    - split; [rewrite <- ?app_assoc; simpl; reflexivity |].
      simpl. intuition discriminate. }
  assert (Hgoal : forall run_file run_output,
            run_file = mkStore (conversations file ++
                                [mkConversation id
                                   ("Conversation " ++ sc_stamp sc 0%nat)
                                   (sc_clock sc 0%nat 0%nat)
                                   (sc_clock sc 1%nat 0%nat) "paused"])
                               (messages file) id (seq_messages file) ->
            ~ In ChannelOpen run_output ->
            conversations run_file
            = conversations file ++
              [mkConversation id ("Conversation " ++ sc_stamp sc 0%nat)
                 (sc_clock sc 0%nat 0%nat) (sc_clock sc 1%nat 0%nat) "paused"]
            /\ messages run_file = messages file
            /\ status_of id run_file = Some "paused"
            /\ (Forall (fun m => has_conversation file (m_conversation_id m) = true)
                       (messages file) -> rows_of id run_file = [])
            /\ ~ In ChannelOpen run_output).
  { intros run_file run_output -> Hno.
    split; [reflexivity |]. split; [reflexivity |].
    split.
    - unfold status_of, q_conversation. simpl.
      rewrite StoreFacts.find_app_fresh with (id := id);
        [reflexivity | exact Hfresh | reflexivity].
    - split; [| exact Hno].
      intros Hfk. unfold rows_of. simpl.
      apply (@no_rows_of_fresh id file Hfk Hfresh). }
  assert (Hpend : forall s0 s3,
            _cleanup sc s0 = (Ret tt, s3) ->
            pending_interrupt s3 = pending_interrupt s0).
  { intros s0 s3 E0.
    assert (H : keeps_pending (_cleanup sc)).
    { unfold _cleanup.
      apply keeps_bind.
      - apply keeps_try_except; [| intros e; apply keeps_emit].
        apply keeps_get. intros cid.
        destruct (truthy_id cid); [apply keeps_store_call | apply keeps_ret].
      - intros [].
        apply keeps_bind; [| intros []; apply keeps_emit].
        apply keeps_try_except; [| intros e; apply keeps_emit].
        unfold stop_microphone.
        apply keeps_bind; [apply keeps_emit |].
        intros []. apply keeps_try_except; [| intros e]; apply keeps_emit. }
    specialize (H s0). rewrite E0 in H. exact H. }
  destruct r as [|e|].
  - match goal with
    | |- context [_cleanup sc ?S] =>
        destruct (Hclean S) as (s3 & out & E3 & Hdb3 & Ht3 & Hno3);
          [reflexivity | reflexivity | reflexivity |]; rewrite E3;
          rewrite (Hpend _ _ E3)
    end.
    simpl. split; [reflexivity |].
    apply (Hgoal (db s3) (trace s3)); [exact Hdb3 |].
    rewrite Ht3. simpl. clear - Hno3. intuition discriminate.
  - unfold report, console, logger, emit, bind.
    destruct (is_session_end e); simpl;
      match goal with
      | |- context [_cleanup sc ?S] =>
          destruct (Hclean S) as (s3 & out & E3 & Hdb3 & Ht3 & Hno3);
            [reflexivity | reflexivity | reflexivity |]; rewrite E3;
            rewrite (Hpend _ _ E3)
      end;
      simpl; (split; [reflexivity |]);
      (apply (Hgoal (db s3) (trace s3)); [exact Hdb3 |]);
      rewrite Ht3; simpl; clear - Hno3; intuition discriminate.
  - match goal with
    | |- context [_cleanup sc ?S] =>
        destruct (Hclean S) as (s3 & out & E3 & Hdb3 & Ht3 & Hno3);
          [reflexivity | reflexivity | reflexivity |]; rewrite E3;
          rewrite (Hpend _ _ E3)
    end.
    simpl. split; [reflexivity |].
    apply (Hgoal (db s3) (trace s3)); [exact Hdb3 |].
    rewrite Ht3. simpl. clear - Hno3. intuition discriminate.
Qed.

Lemma failed_fresh_start_leaves_paused_row_witness :
  conversations
    (Cli.file (session Examples.good_config Examples.refused None empty_store))
  = [mkConversation 1 "Conversation 2024-01-01 10:00:00" 1000 1001 "paused"]
  /\ rows_of 1 (Cli.file (session Examples.good_config Examples.refused None empty_store)) = [].
Proof.
  assert (H1 : Config.hume_api_key Examples.good_config <> "") by discriminate.
  assert (H2 : Config.hume_config_id Examples.good_config <> "") by discriminate.
  assert (H3 : truthy_id None = false) by reflexivity.
  assert (H4 : 0 <= seq_conversations empty_store) by (simpl; lia).
  assert (H5 : sc_fault Examples.refused 0%nat = None) by reflexivity.
  assert (H6 : sc_fault Examples.refused 1%nat = None) by reflexivity.
  assert (H7 : sc_connect Examples.refused
               = Some (Exc (mkExn "<class 'OSError'>" "connection refused")))
    by reflexivity.
  destruct (@failed_fresh_start_leaves_paused_row Examples.good_config
              Examples.refused None empty_store _ H1 H2 H3 H4 H5 H6 H7)
    as (_ & Hrow & _ & _ & Hempty & _).
  split; [exact Hrow | apply Hempty; constructor].
Defined.
(** *** Sessions that the remote end closes *)

Lemma has_conversation_status (now id cid : Z) (status : string) (w : Store) :
  has_conversation
    (mkStore (map (status_row now id status) (conversations w)) (messages w)
             (seq_conversations w) (seq_messages w)) cid
  = has_conversation w cid.
Proof.
  unfold has_conversation. simpl.
  induction (conversations w) as [|r l IH]; simpl; [reflexivity |].
  rewrite IH. f_equal.
  unfold status_row. destruct (c_id r =? id); reflexivity.
Qed.

Section Persisting.
Variable sc : Scenario.
Variable id : Z.
Hypothesis no_fault : forall n, sc_fault sc n = None.
Hypothesis id_counts : id <> 0.

(** The state of a session on conversation [id], which is in the file. *)
Let live (s : State) : Prop :=
  current_conversation_id s = Some id /\ has_conversation (db s) id = true.

(** [s'] comes after [s] in a live session and has these transcripts
    more. *)
Let after (s s' : State) (said_now : list (string * string)) : Prop :=
  live s'
  /\ map said (rows_of id (db s')) = map said (rows_of id (db s)) ++ said_now.

Lemma callback_persists (role content : string) (s : State) :
  role <> "system" -> live s ->
  exists s',
    _save_message_callback sc role content s = (Ret tt, s')
    /\ after s s' [(role, content)].
Proof.
  intros Hrole [Hcid Hhas].
  unfold _save_message_callback, bind, get. rewrite Hcid.
  destruct (String.eqb_spec role "system") as [|_]; [contradiction |].
  unfold truthy_id.
  destruct (Z.eqb_spec id 0) as [|_]; [contradiction |].
  cbv beta iota delta [negb andb].
  unfold try_except, bind, store_call.
  rewrite no_fault, StoreFacts.add_message_no_fault by exact Hhas.
  cbv beta iota.
  assert (Hafter : forall t n r,
    after s
      (mkState
         (mkStore (map (touch_row (sc_clock sc (store_calls s) 1%nat) id)
                       (conversations (db s)))
                  (messages (db s) ++
                   [mkMessage
                      (next_rowid (map m_id (messages (db s)))
                                  (seq_messages (db s)))
                      id role content (sc_clock sc (store_calls s) 0%nat) None])
                  (seq_conversations (db s))
                  (next_rowid (map m_id (messages (db s)))
                              (seq_messages (db s))))
         (current_conversation_id s) r (evi_client s) (stream s) n t
         (pending_interrupt s))
      [(role, content)]).
  { intros t n r. split; [split |]; simpl.
    - exact Hcid.
    - rewrite <- Hhas.
      apply StoreFacts.has_conversation_touch with
        (w := mkStore (conversations (db s)) _ (seq_conversations (db s)) _).
    - unfold rows_of. simpl. rewrite filter_app, map_app. simpl.
      rewrite Z.eqb_refl. reflexivity. }
  unfold ret, console, emit.
  destruct (role =? "assistant")%string;
    [eexists; split; [reflexivity | apply Hafter] |].
  destruct (role =? "user")%string;
    [eexists; split; [reflexivity | apply Hafter] |].
  destruct (role =? "system")%string;
    eexists; (split; [reflexivity | apply Hafter]).
Qed.

Lemma system_callback_keeps (content : string) (s : State) :
  live s ->
  exists s',
    _save_message_callback sc "system" content s = (Ret tt, s')
    /\ after s s' [].
Proof.
  intros Hlive. eexists. split; [reflexivity |].
  split; [exact Hlive |]. simpl. rewrite app_nil_r. reflexivity.
Qed.

Variable c : EVIClient.
Hypothesis one_callback : message_callbacks c = [save_message_callback].

Lemma handle_message_persists (m : SubscribeEvent) (s : State) :
  live s ->
  exists s',
    _handle_message sc c m s = (Ret tt, s')
    /\ after s s' (transcript (OnMessage m)).
Proof.
  intros Hlive.
  assert (Hsame : forall t q,
    after s (mkState (db s) (current_conversation_id s) (running s)
                     (evi_client s) q (store_calls s) t
                     (pending_interrupt s)) []).
  { intros t q. split; [exact Hlive |]. simpl.
    rewrite app_nil_r. reflexivity. }
  assert (Hrefl : after s s []).
  { split; [exact Hlive |]. rewrite app_nil_r. reflexivity. }
  unfold _handle_message, try_except, transcript. rewrite one_callback.
  destruct (String.eqb_spec (msg_type m) "audio_output") as [E|_].
  { rewrite E. simpl.
    destruct (audio_stream c); [| eexists; split; [reflexivity | apply Hrefl]].
    destruct (msg_audio m) as [e|bytes];
      unfold raise, logger, emit, bind, get, set_stream;
      eexists; (split; [reflexivity | apply Hsame]). }
  destruct (String.eqb_spec (msg_type m) "user_interruption") as [E|_].
  { rewrite E. simpl. unfold bind, set_stream, ret.
    destruct (audio_stream c); simpl;
      eexists; (split; [reflexivity | apply Hsame]). }
  destruct (String.eqb_spec (msg_type m) "user_message") as [E|_].
  { cbn [notify call bind logger emit ret]. unfold bind, ret.
    match goal with
    | |- context [_save_message_callback sc "user" ?x ?S] =>
        destruct (@callback_persists "user" x S) as (s' & Es & Hs);
          [discriminate | exact Hlive | rewrite Es]
    end.
    exists s'. split; [reflexivity | simpl; exact Hs]. }
  destruct (String.eqb_spec (msg_type m) "assistant_message") as [E|_].
  { cbn [notify call bind logger emit ret]. unfold bind, ret.
    match goal with
    | |- context [_save_message_callback sc "assistant" ?x ?S] =>
        destruct (@callback_persists "assistant" x S) as (s' & Es & Hs);
          [discriminate | exact Hlive | rewrite Es]
    end.
    exists s'. split; [reflexivity | exact Hs]. }
  simpl. eexists. split; [reflexivity | apply Hsame].
Qed.

Lemma deliver_persists (evs : list ChannelEvent) :
  forall s,
  live s ->
  exists s',
    deliver sc c evs s = (Ret tt, s')
    /\ after s s' (flat_map transcript evs).
Proof.
  induction evs as [|ev evs IH]; intros s Hlive; simpl.
  - exists s. split; [reflexivity |]. split; [exact Hlive |].
    rewrite app_nil_r. reflexivity.
  - assert (Hev : exists s1, dispatch sc c ev s = (Ret tt, s1)
                             /\ after s s1 (transcript ev)).
    { destruct ev as [m|err|].
      - apply handle_message_persists, Hlive.
      - simpl. unfold on_error, logger, emit, ret.
        destruct (negb _); eexists; (split; [reflexivity |]);
          (split; [exact Hlive |]); simpl; rewrite app_nil_r; reflexivity.
      - simpl. unfold logger, emit. eexists. split; [reflexivity |].
        split; [exact Hlive |]. simpl. rewrite app_nil_r. reflexivity. }
    destruct Hev as (s1 & E1 & Hlive1 & Hrows1).
    destruct (IH s1 Hlive1) as (s' & E' & Hlive' & Hrows').
    exists s'. unfold bind. rewrite E1. split; [exact E' |].
    split; [exact Hlive' |].
    rewrite Hrows', Hrows1, app_assoc. reflexivity.
Qed.
End Persisting.

Section TimedOut.
Variable cfg : Config.Config.
Variable sc : Scenario.
Variable id : Z.
Variable e : Exn.
Hypothesis no_fault : forall n, sc_fault sc n = None.
Hypothesis id_counts : id <> 0.
Hypothesis connects : sc_connect sc = None.
Hypothesis loop_raises : sc_ending sc = LoopRaises e.
Hypothesis close_returns : sc_close sc = None.
Variable c : EVIClient.
Hypothesis one_callback : message_callbacks c = [save_message_callback].

Lemma connected_times_out (s : State) :
  current_conversation_id s = Some id ->
  has_conversation (db s) id = true ->
  exists s1,
    connected cfg sc c s = (Raise (Exc e), s1)
    /\ current_conversation_id s1 = Some id
    /\ has_conversation (db s1) id = true
    /\ map said (rows_of id (db s1))
       = map said (rows_of id (db s)) ++ flat_map transcript (sc_events sc).
Proof.
  intros Hcid Hhas.
  unfold connected.
  cbn [bind console emit set_running _setup_signal_handlers logger
       db current_conversation_id running evi_client stream store_calls trace pending_interrupt].
  unfold try_interrupt, start_microphone, try_except,
    MicrophoneInterface_start.
  destruct (Config.interruption_enabled cfg);
    cbn [bind console emit logger
         db current_conversation_id running evi_client stream store_calls
         trace pending_interrupt];
    unfold bind;
    match goal with
    | |- context [deliver sc c (sc_events sc) ?S] =>
        destruct (@deliver_persists sc id no_fault id_counts c one_callback
                    (sc_events sc) S (conj Hcid Hhas))
          as (s1 & E1 & [Hcid1 Hhas1] & Hrows1);
        rewrite E1, loop_raises
    end;
    cbn [bind raise logger emit
         db current_conversation_id running evi_client stream store_calls
         trace pending_interrupt];
    eexists; (split; [reflexivity |]);
    cbn [db current_conversation_id]; auto.
Qed.

Lemma connection_times_out (s : State) :
  current_conversation_id s = Some id ->
  has_conversation (db s) id = true ->
  exists s1 out,
    with_connection sc (connected cfg sc c) s = (Raise (Exc e), s1)
    /\ current_conversation_id s1 = Some id
    /\ has_conversation (db s1) id = true
    /\ map said (rows_of id (db s1))
       = map said (rows_of id (db s)) ++ flat_map transcript (sc_events sc)
    /\ trace s1 = trace s ++ [ChannelOpen; Log WebSocketOpened] ++ out
                              ++ [ChannelClose]
    /\ Forall (fun x => during_session x = true) out.
Proof.
  intros Hcid Hhas.
  unfold with_connection. rewrite connects, close_returns.
  cbn [bind logger emit
       db current_conversation_id running evi_client stream store_calls trace pending_interrupt].
  match goal with
  | |- context [connected cfg sc c ?S] =>
      destruct (@connected_times_out S Hcid Hhas)
        as (s1 & E1 & Hcid1 & Hhas1 & Hrows1);
      destruct (@connected_holds (fun _ _ => True)
                  (fun _ _ _ _ _ _ _ _ _ => I) cfg sc c S _ s1 I E1)
        as (_ & _ & out & Ht & Hout);
      rewrite E1
  end.
  simpl in Ht.
  exists (mkState (db s1) (current_conversation_id s1) (running s1)
                  (evi_client s1) (stream s1) (store_calls s1)
                  (trace s1 ++ [ChannelClose]) (pending_interrupt s1)), out.
  split; [reflexivity |]. simpl.
  repeat (split; [assumption |]).
  split; [| exact Hout].
  rewrite Ht, <- !app_assoc. reflexivity.
Qed.
End TimedOut.

Lemma status_after_update (now id : Z) (status : string) (w : Store) :
  has_conversation w id = true ->
  status_of id
    (mkStore (map (status_row now id status) (conversations w)) (messages w)
             (seq_conversations w) (seq_messages w))
  = Some status.
Proof.
  intros H. apply StoreFacts.has_conversation_find in H. destruct H as [c Hc].
  unfold status_of, q_conversation in *. simpl.
  rewrite StoreFacts.find_status, Hc. simpl.
  unfold status_row.
  rewrite (StoreFacts.found_id _ _ Hc), Z.eqb_refl. reflexivity.
Qed.

Lemma during_session_no_report (x : Effect) :
  during_session x = true -> error_report x = false.
Proof.
  destruct x as [l|r|op| | | |allow|]; try reflexivity.
  - destruct l; try reflexivity. discriminate.
  - destruct r; try reflexivity. discriminate.
Qed.

(** The [except] and [finally] clauses after a [try] block that ended with
    an exception that counts as the end of the session. *)
Lemma wind_down (sc : Scenario) (id : Z) (e : Exn) (s0 s1 : State) :
  (forall n, sc_fault sc n = None) ->
  id <> 0 ->
  is_session_end e = true ->
  current_conversation_id s1 = Some id ->
  exists s3,
    try_finally
      (try_clauses (fun _ => (Raise (Exc e), s1)) (console InterruptedByUser)
                   report)
      (_cleanup sc) s0
    = (Ret tt, s3)
    /\ db s3 = mkStore (map (status_row (sc_clock sc (store_calls s1) 0%nat) id
                                        "paused")
                            (conversations (db s1)))
                       (messages (db s1)) (seq_conversations (db s1))
                       (seq_messages (db s1))
    /\ pending_interrupt s3 = pending_interrupt s1
    /\ trace s3 = trace s1 ++
                  [Console SessionEnded; Console ConversationSaved;
                   Console ResumeCommand; StoreCall (UpdateStatus id "paused");
                   MicrophoneStop; Log StoppingMicrophoneInfo;
                   Console Disconnected].
Proof.
  intros Hnf Hid Hend Hcid.
  unfold try_finally, try_clauses, report. rewrite Hend.
  cbn [bind console emit logger
       db current_conversation_id running evi_client stream store_calls trace pending_interrupt].
  unfold _cleanup, try_except, bind, get, store_call, stop_microphone, logger,
    console, emit, ret.
  simpl. rewrite Hcid. unfold truthy_id.
  destruct (Z.eqb_spec id 0) as [|_]; [contradiction |].
  simpl. rewrite Hnf, update_status_no_fault. simpl.
  eexists. split; [reflexivity |].
  simpl. split; [reflexivity |]. split; [reflexivity |].
  rewrite <- !app_assoc. reflexivity.
Qed.

Section AttemptTimedOut.

Local Opaque with_connection.

Lemma attempt_times_out (cfg : Config.Config) (sc : Scenario)
  (conversation_id : option Z) (file : Store) (e : Exn) :
Config.hume_api_key cfg <> "" ->
Config.hume_config_id cfg <> "" ->
(forall n, sc_fault sc n = None) ->
0 <= seq_conversations file ->
(forall i, conversation_id = Some i -> i <> 0 ->
           has_conversation file i = true) ->
sc_connect sc = None ->
sc_ending sc = LoopRaises e ->
sc_close sc = None ->
exists s1 pre out,
  attempt cfg sc conversation_id (ConversationManager__init__ file) = (Raise (Exc e), s1)
  /\ current_conversation_id s1 = Some (session_id conversation_id file)
  /\ session_id conversation_id file <> 0
  /\ has_conversation (db s1) (session_id conversation_id file) = true
  /\ map said (rows_of (session_id conversation_id file) (db s1))
     = map said (rows_of (session_id conversation_id file) file)
       ++ flat_map transcript (sc_events sc)
  /\ trace s1 = pre ++ [ChannelOpen; Log WebSocketOpened] ++ out
                    ++ [ChannelClose]
  /\ Forall (fun x => error_report x = false) pre
  /\ Forall (fun x => during_session x = true) out.
Proof.
intros Hkey Hcfg Hnf Hseq Hthere Hconn Hend Hclose.
unfold attempt, bind, console, emit, EVIClient__init__, raise, ret,
  set_evi_client, set_up_conversation.
simpl.
destruct (String.eqb_spec (Config.hume_api_key cfg) ""); [contradiction |].
destruct (String.eqb_spec (Config.hume_config_id cfg) ""); [contradiction |].
simpl. unfold session_id.
destruct (truthy_id conversation_id) eqn:Hid.
- destruct conversation_id as [i|]; [| discriminate Hid].
  assert (Hi : i <> 0).
  { simpl in Hid. destruct (Z.eqb_spec i 0); [discriminate | assumption]. }
  pose proof (Hthere i eq_refl Hi) as Hhas.
  destruct (proj1 (StoreFacts.has_conversation_find file i) Hhas) as [conv Hq].
  unfold bind, store_call. simpl.
  rewrite Hnf, get_conversation_no_fault, Hq. simpl.
  rewrite Hnf, update_status_no_fault. simpl.
  match goal with
  | |- context [with_connection sc (connected cfg sc ?c) ?S] =>
      destruct (@connection_times_out cfg sc i e Hnf Hi Hconn Hend Hclose c
                  eq_refl S eq_refl)
        as (s1 & out & E1 & Hcid1 & Hhas1 & Hrows1 & Ht1 & Hout1);
        [simpl; rewrite has_conversation_status; exact Hhas | rewrite E1]
  end.
  simpl in Ht1, Hrows1.
  exists s1, [Console Connecting; StoreCall (GetConversation i);
              StoreCall (UpdateStatus i "active"); Console (Resumed i)], out.
  split; [reflexivity |].
  split; [exact Hcid1 |]. split; [exact Hi |]. split; [exact Hhas1 |].
  split; [exact Hrows1 |]. split; [exact Ht1 |].
  split; [repeat constructor | exact Hout1].
- pose proof (@next_rowid_truthy (map c_id (conversations file))
                (seq_conversations file) Hseq) as Htruthy.
  set (id := next_rowid (map c_id (conversations file))
                        (seq_conversations file)) in *.
  assert (Hi : id <> 0).
  { simpl in Htruthy. destruct (Z.eqb_spec id 0); [discriminate | assumption]. }
  unfold bind, store_call. simpl.
  rewrite Hnf, create_conversation_no_fault. simpl. fold id.
  match goal with
  | |- context [with_connection sc (connected cfg sc ?c) ?S] =>
      destruct (@connection_times_out cfg sc id e Hnf Hi Hconn Hend Hclose c
                  eq_refl S eq_refl)
        as (s1 & out & E1 & Hcid1 & Hhas1 & Hrows1 & Ht1 & Hout1);
        [| rewrite E1]
  end.
  { simpl. unfold has_conversation. simpl.
    rewrite existsb_app. simpl. rewrite Z.eqb_refl.
    apply orb_true_iff. right. reflexivity. }
  simpl in Ht1, Hrows1.
  exists s1, [Console Connecting; StoreCall CreateConversation;
              Console (StartedNew (Some id))], out.
  split; [reflexivity |].
  split; [exact Hcid1 |]. split; [exact Hi |]. split; [exact Hhas1 |].
  split; [exact Hrows1 |]. split; [exact Ht1 |].
  split; [repeat constructor | exact Hout1].
Qed.

End AttemptTimedOut.

(** C5.  A session that was connected (resuming a conversation that is in
    the file, or on a new one) and whose channel is closed without a close
    frame, so that the wait of the microphone loop ends with an exception
    whose text says [no close frame], with an engine that does not fail:
    the command ends normally; the console shows the end of the session,
    that the conversation is saved and the command to resume; nothing is
    reported as an error; the conversation has status [paused]; and its
    messages are those it had before followed by the transcripts that were
    received, in the order they were received. *)
Theorem closed_without_close_frame (cfg : Config.Config) (sc : Scenario)
    (conversation_id : option Z) (file : Store) (e : Exn) :
  Config.hume_api_key cfg <> "" ->
  Config.hume_config_id cfg <> "" ->
  (forall n, sc_fault sc n = None) ->
  0 <= seq_conversations file ->
  (forall i, conversation_id = Some i -> i <> 0 ->
             has_conversation file i = true) ->
  sc_connect sc = None ->
  sc_ending sc = LoopRaises e ->
  sc_close sc = None ->
  str_contains "no close frame" (exn_msg e) = true ->
  Cli.exit (session cfg sc conversation_id file) = None
  /\ In ChannelOpen
        (Cli.output (session cfg sc conversation_id file))
  /\ In (Console SessionEnded)
        (Cli.output (session cfg sc conversation_id file))
  /\ In (Console ConversationSaved)
        (Cli.output (session cfg sc conversation_id file))
  /\ In (Console ResumeCommand)
        (Cli.output (session cfg sc conversation_id file))
  /\ Forall (fun x => error_report x = false)
            (Cli.output (session cfg sc conversation_id file))
  /\ status_of (session_id conversation_id file)
       (Cli.file (session cfg sc conversation_id file))
     = Some "paused"
  /\ map said
       (rows_of (session_id conversation_id file)
          (Cli.file (session cfg sc conversation_id file)))
     = map said (rows_of (session_id conversation_id file) file)
       ++ flat_map transcript (sc_events sc).
Proof.
  intros Hkey Hcfg Hnf Hseq Hthere Hconn Hend Hclose Hframe.
  destruct (@attempt_times_out cfg sc conversation_id file e Hkey Hcfg Hnf Hseq
              Hthere Hconn Hend Hclose)
    as (s1 & pre & out & E1 & Hcid1 & Hid & Hhas1 & Hrows1 & Ht1 & Hpre & Hout).
  assert (Hse : is_session_end e = true).
  { unfold is_session_end. rewrite Hframe. apply orb_true_r. }
  destruct (@wind_down sc (session_id conversation_id file) e (ConversationManager__init__ file) s1
              Hnf Hid Hse Hcid1)
    as (s3 & E3 & Hdb3 & Hp3 & Ht3).
  assert (Erun : start_conversation cfg sc conversation_id (ConversationManager__init__ file)
                 = (Ret tt, s3)).
  { rewrite <- E3. unfold start_conversation, try_finally, try_clauses.
    rewrite E1. reflexivity. }
  assert (Hp1 : pending_interrupt s1 = false).
  { destruct (@attempt_shape cfg sc conversation_id
                (ConversationManager__init__ file) Hseq)
      as (o' & s' & out' & E' & _ & Hshape).
    rewrite E1 in E'. injection E' as <- <-.
    rewrite Hend in Hshape.
    destruct Hshape as [(_ & _ & H) | (_ & _ & _ & H & _)]; exact H. }
  unfold session, Cli.run_session. rewrite Erun, Hp3, Hp1. simpl.
  rewrite Ht3, Ht1, Hdb3.
  split; [reflexivity |].
  split; [rewrite !in_app_iff; simpl; tauto |].
  split; [rewrite !in_app_iff; simpl; tauto |].
  split; [rewrite !in_app_iff; simpl; tauto |].
  split; [rewrite !in_app_iff; simpl; tauto |].
  split.
  - repeat (apply Forall_app; split); try exact Hpre.
    + repeat constructor.
    + eapply Forall_impl; [| exact Hout]. exact during_session_no_report.
    + repeat constructor.
    + repeat constructor.
  - split; [apply status_after_update; exact Hhas1 |].
    unfold rows_of in *. simpl. exact Hrows1.
Qed.

Lemma closed_without_close_frame_witness :
  status_of 1
    (Cli.file (session Examples.good_config Examples.timed_out None empty_store))
  = Some "paused"
  /\ map said
       (rows_of 1
          (Cli.file (session Examples.good_config Examples.timed_out None empty_store)))
     = [("user", "hello"); ("assistant", "hi there"); ("user", "bye")].
Proof.
  assert (H1 : Config.hume_api_key Examples.good_config <> "") by discriminate.
  assert (H2 : Config.hume_config_id Examples.good_config <> "") by discriminate.
  assert (H3 : forall n, sc_fault Examples.timed_out n = None)
    by (intros n; reflexivity).
  assert (H4 : 0 <= seq_conversations empty_store) by (simpl; lia).
  assert (H5 : forall i, @None Z = Some i -> i <> 0 ->
                         has_conversation empty_store i = true)
    by (intros i H; discriminate H).
  destruct (@closed_without_close_frame Examples.good_config Examples.timed_out
              None empty_store Examples.no_close_frame H1 H2 H3 H4 H5
              eq_refl eq_refl eq_refl eq_refl)
    as (_ & _ & _ & _ & _ & _ & Hstatus & Hrows).
  split; [exact Hstatus | exact Hrows].
Defined.

End SessionFacts.

(** ** The commands *)

Module CliFacts.

Import Database Config Session Cli Terms.

Lemma required_env_truthy (env : Environ) (key v : string) :
  _get_required_env env key = inr v -> v <> "".
Proof.
  unfold _get_required_env.
  destruct (env key) as [w|]; simpl; [| discriminate].
  destruct (String.eqb_spec w "") as [->|E]; simpl; [discriminate |].
  destruct (w =? placeholder key)%string; [discriminate |].
  intros H. injection H as <-. exact E.
Qed.

Lemma get_config_keys (cli_dir : string) (env : Environ) (cfg : Config) :
  get_config cli_dir env = inr cfg ->
  hume_api_key cfg <> "" /\ hume_config_id cfg <> "".
Proof.
  unfold get_config, Config.__init__.
  destruct (_get_required_env env "HUME_API_KEY") as [e|k] eqn:E1;
    [discriminate |].
  destruct (_get_required_env env "HUME_CONFIG_ID") as [e|c] eqn:E2;
    [discriminate |].
  intros H. injection H as <-. simpl.
  split; eapply required_env_truthy; eassumption.
Qed.

(** Resuming an id other than 0 that is not in the file: the lookup is the
    only Store call, the user is told, no channel is opened and the file is
    what it was. *)
Lemma resume_missing_id_not_found (cli_dir : string) (env : Environ)
    (cfg : Config) (sc : Scenario) (id : Z) (disk : Store) :
  get_config cli_dir env = inr cfg ->
  id <> 0 ->
  has_conversation disk id = false ->
  sc_fault sc 0%nat = None ->
  resume cli_dir env sc (Some id) disk
  = mkRun None disk
          [Console Connecting; StoreCall (GetConversation id);
           Console (ConversationNotFound id); MicrophoneStop;
           Log StoppingMicrophoneInfo; Console Disconnected].
Proof.
  intros Hcfg Hid Hmissing Hf.
  destruct (get_config_keys _ _ Hcfg) as [Hk Hc].
  assert (Hq : q_conversation id disk = None).
  { destruct (q_conversation id disk) as [c|] eqn:E; [| reflexivity].
    assert (H : has_conversation disk id = true)
      by (apply StoreFacts.has_conversation_find; eauto).
    rewrite H in Hmissing. discriminate. }
  unfold resume. rewrite Hcfg. simpl.
  destruct (Z.eqb_spec id 0) as [|_]; [contradiction |]. simpl.
  unfold run_session, start_conversation, try_finally, try_clauses, attempt,
    bind, console, emit, EVIClient__init__, raise, ret, set_evi_client,
    set_up_conversation.
  simpl.
  destruct (String.eqb_spec (hume_api_key cfg) ""); [contradiction |].
  destruct (String.eqb_spec (hume_config_id cfg) ""); [contradiction |].
  simpl.
  destruct (Z.eqb_spec id 0) as [|_]; [contradiction |]. simpl.
  unfold bind, store_call. simpl.
  rewrite Hf, SessionFacts.get_conversation_no_fault, Hq. simpl.
  reflexivity.
Qed.

(** C3 at id 0.  With no conversation 0 in the file, [resume 0] does not
    report that the conversation is missing: on an empty file it creates
    conversation 1, and on a file with an active conversation 1 it resumes
    that one, so that its status and [updated_at] change.  Command [view]
    reports the same id as not found and [resume 7] does, too. *)
Theorem resume_zero_is_not_reported :
  has_conversation empty_store 0 = false
  /\ conversations
       (file (resume "cli" Examples.good_environ Examples.refused (Some 0)
                     empty_store))
     = [mkConversation 1 "Conversation 2024-01-01 10:00:00" 1001 1002 "paused"]
  /\ ~ In (Console (ConversationNotFound 0))
         (output (resume "cli" Examples.good_environ Examples.refused (Some 0)
                         empty_store))
  /\ has_conversation Examples.one_conversation 0 = false
  /\ conversations
       (file (resume "cli" Examples.good_environ Examples.refused (Some 0)
                     Examples.one_conversation))
     = [mkConversation 1 "Conversation 2024-01-01 10:00:00" 100 1003 "paused"]
  /\ output (view "cli" Examples.good_environ Examples.refused 0 empty_store)
     = [StoreCall (GetConversation 0); Console (ConversationNotFound 0)]
  /\ output (resume "cli" Examples.good_environ Examples.refused (Some 7)
                    empty_store)
     = [Console Connecting; StoreCall (GetConversation 7);
        Console (ConversationNotFound 7); MicrophoneStop;
        Log StoppingMicrophoneInfo; Console Disconnected].
Proof.
  split; [reflexivity |].
  split; [vm_compute; reflexivity |].
  split.
  { vm_compute. intros H.
    repeat (destruct H as [H|H]; [discriminate H |]). exact H. }
  split; [reflexivity |].
  split; [vm_compute; reflexivity |].
  split; vm_compute; reflexivity.
Qed.

End CliFacts.

(** * More properties *)

(** ** More about the store *)

Module StoreMore.

Import Database Terms Notions StoreFacts.

Lemma older_first_total (a b : Message) :
  older_first a b = false -> older_first b a = true.
Proof.
  unfold older_first. intros H. apply Z.leb_gt in H. apply Z.leb_le. lia.
Qed.

Lemma older_first_trans (a b c : Message) :
  older_first a b = true -> older_first b c = true -> older_first a c = true.
Proof.
  unfold older_first. intros H1 H2.
  apply Z.leb_le in H1. apply Z.leb_le in H2. apply Z.leb_le. lia.
Qed.

Lemma sorted_relation (A : Type) (R R' : A -> A -> Prop) (l : list A) :
  (forall a b, R a b -> R' a b) -> StronglySorted R l -> StronglySorted R' l.
Proof.
  intros HR. induction 1 as [|a l _ IH Ha]; constructor; [exact IH |].
  eapply Forall_impl; [| exact Ha]. intros b. apply HR.
Qed.

Lemma get_messages_cases (f : Fault) (id : Z) (w : Store) :
  (exists e, get_messages f id w = (DbErr e, w))
  \/ get_messages f id w = (DbOk (q_messages id w), w).
Proof.
  unfold get_messages, _get_connection, sql_bind, execute, select, sql_ret,
    rollback, close.
  simpl.
  destruct (fault_at f 0) as [e0|]; [left; eauto |]. simpl.
  right. reflexivity.
Qed.

(** [get_messages] gives the rows of the conversation asked for and no
    others, each once, sorted by timestamp with the oldest first; whether it
    returns or raises, the file is what it was.  With an engine that does
    not fail it returns. *)
Theorem get_messages_own_sorted (id : Z) (db : Store) :
  (forall f,
     match get_messages f id db with
     | (DbErr _, db') => db' = db
     | (DbOk rows, db') =>
         db' = db
         /\ Permutation rows (rows_of id db)
         /\ StronglySorted not_newer rows
         /\ Forall (fun m => m_conversation_id m = id) rows
     end)
  /\ exists rows, get_messages None id db = (DbOk rows, db).
Proof.
  split; [| eexists; reflexivity].
  intros f.
  destruct (get_messages_cases f id db) as [[e ->] | ->]; [reflexivity |].
  split; [reflexivity |].
  assert (Hperm : Permutation (q_messages id db) (rows_of id db))
    by apply order_by_perm.
  split; [exact Hperm |]. split.
  - eapply sorted_relation;
      [| apply (@order_by_sorted _ older_first older_first_total
                  older_first_trans)].
    intros a b H. unfold not_newer. apply Z.leb_le. exact H.
  - eapply Permutation_Forall; [apply Permutation_sym, Hperm |].
    unfold rows_of. apply Forall_forall. intros m Hm.
    apply filter_In in Hm. destruct Hm as [_ Hm]. apply Z.eqb_eq. exact Hm.
Qed.

(** [add_message] for a conversation that is not in the file raises and
    leaves the file as it was; the exception is the foreign-key error of
    the INSERT unless the engine failed before. *)
Theorem add_message_needs_conversation (f : Fault) (clk : Clock) (cid : Z)
    (role content : string) (dur : option Q) (db : Store) :
  has_conversation db cid = false ->
  exists e,
    add_message f clk cid role content dur db = (DbErr e, db)
    /\ (fault_at f 0 = None -> e = foreign_key_error).
Proof.
  intros Hc.
  unfold add_message, _get_connection, sql_bind, execute, commit, sql_ret,
    insert_message, rollback, close.
  simpl.
  destruct (fault_at f 0) as [e0|].
  - exists e0. split; [reflexivity | discriminate].
  - rewrite Hc. simpl. exists foreign_key_error. split; reflexivity.
Qed.

Lemma add_message_needs_conversation_witness :
  add_message None (fun _ => 100) 7 "user" "hello" None
              Examples.one_conversation
  = (DbErr foreign_key_error, Examples.one_conversation).
Proof.
  destruct (@add_message_needs_conversation None (fun _ => 100) 7 "user"
              "hello" None Examples.one_conversation eq_refl)
    as (e & He & Hfk).
  rewrite He, (Hfk eq_refl). reflexivity.
Defined.

(** *** What every operation keeps *)

Lemma has_conversation_more (w : Store) (c : Conversation) (id : Z)
    (ms : list Message) (s1 s2 : Z) :
  has_conversation w id = true ->
  has_conversation (mkStore (conversations w ++ [c]) ms s1 s2) id = true.
Proof.
  unfold has_conversation. simpl. intros H.
  rewrite existsb_app, H. reflexivity.
Qed.

Lemma max_id_ge (ids : list Z) (seq : Z) (i : Z) :
  In i ids -> i < next_rowid ids seq.
Proof.
  intros Hin. destruct (fold_max_ge ids seq) as [_ Hall].
  rewrite Forall_forall in Hall. specialize (Hall _ Hin).
  unfold next_rowid. lia.
Qed.

Lemma map_id_touch (now id : Z) (l : list Conversation) :
  map c_id (map (touch_row now id) l) = map c_id l.
Proof.
  rewrite map_map. apply map_ext. intros c.
  unfold touch_row. destruct (c_id c =? id); reflexivity.
Qed.

Lemma map_id_status (now id : Z) (st : string) (l : list Conversation) :
  map c_id (map (status_row now id st) l) = map c_id l.
Proof.
  rewrite map_map. apply map_ext. intros c.
  unfold status_row. destruct (c_id c =? id); reflexivity.
Qed.

Lemma map_core_touch (now id : Z) (l : list Conversation) :
  map core (map (touch_row now id) l) = map core l.
Proof.
  rewrite map_map. apply map_ext. intros c.
  unfold touch_row. destruct (c_id c =? id); reflexivity.
Qed.

Lemma map_core_status (now id : Z) (st : string) (l : list Conversation) :
  map core (map (status_row now id st) l) = map core l.
Proof.
  rewrite map_map. apply map_ext. intros c.
  unfold status_row. destruct (c_id c =? id); reflexivity.
Qed.

Lemma existsb_touch (now id i : Z) (l : list Conversation) :
  existsb (fun c => c_id c =? i) (map (touch_row now id) l)
  = existsb (fun c => c_id c =? i) l.
Proof.
  induction l as [|c l IH]; simpl; [reflexivity |].
  rewrite IH. f_equal. unfold touch_row. destruct (c_id c =? id); reflexivity.
Qed.

Lemma NoDup_snoc (A : Type) (l : list A) (x : A) :
  NoDup l -> ~ In x l -> NoDup (l ++ [x]).
Proof.
  intros Hl Hx. apply NoDup_app; [exact Hl | repeat constructor; simpl; tauto |].
  intros a Ha [<- | []]. exact (Hx Ha).
Qed.

Lemma fk_same_ids (w w' : Store) :
  messages w' = messages w ->
  (forall id, has_conversation w' id = has_conversation w id) ->
  fk_ok w -> fk_ok w'.
Proof.
  intros Hm Hc H. unfold fk_ok in *. rewrite Hm.
  eapply Forall_impl; [| exact H]. intros m. simpl. rewrite Hc. auto.
Qed.

Lemma create_conversation_any_title (f : Fault) (clk : Clock) (stamp : string)
    (title : option string) (db : Store) :
  (exists e, create_conversation f clk stamp title db = (DbErr e, db))
  \/ exists t,
       create_conversation f clk stamp title db
       = (DbOk (next_rowid (map c_id (conversations db)) (seq_conversations db)),
          mkStore (conversations db ++
                   [mkConversation
                      (next_rowid (map c_id (conversations db))
                                  (seq_conversations db))
                      t (clk 0%nat) (clk 0%nat) "active"])
                  (messages db)
                  (next_rowid (map c_id (conversations db))
                              (seq_conversations db))
                  (seq_messages db)).
Proof.
  unfold create_conversation, _get_connection, sql_bind, execute, commit,
    sql_ret, insert_conversation, rollback, close.
  simpl.
  destruct (fault_at f 0) as [e0|]; [left; eauto |]. simpl.
  destruct (fault_at f 1) as [e1|]; [left; eauto |]. simpl.
  right. eexists. reflexivity.
Qed.

Lemma create_keeps_fk f clk stamp title db :
  fk_ok db -> fk_ok (snd (create_conversation f clk stamp title db)).
Proof.
  intros Hfk.
  destruct (create_conversation_any_title f clk stamp title db)
    as [[e ->] | [t ->]]; [exact Hfk |].
  unfold fk_ok in *. simpl.
  eapply Forall_impl; [| exact Hfk]. intros m. apply has_conversation_more.
Qed.

Lemma update_keeps_fk f clk id status db :
  fk_ok db -> fk_ok (snd (update_conversation_status f clk id status db)).
Proof.
  intros Hfk.
  destruct (SessionFacts.update_status_cases f clk id status db)
    as [[e ->] | ->]; [exact Hfk |].
  simpl. apply fk_same_ids with (w := db); [reflexivity | | exact Hfk].
  intros i. apply SessionFacts.has_conversation_status.
Qed.

Lemma add_keeps_fk f clk cid role content dur db :
  fk_ok db -> fk_ok (snd (add_message f clk cid role content dur db)).
Proof.
  intros Hfk.
  destruct (add_message_cases f clk cid role content dur db)
    as [[e ->] | [Hc ->]]; [exact Hfk |].
  simpl. unfold fk_ok in *. simpl.
  apply Forall_app. split.
  - eapply Forall_impl; [| exact Hfk]. intros m.
    unfold has_conversation. simpl. rewrite existsb_touch. auto.
  - constructor; [| constructor].
    unfold has_conversation. simpl. rewrite existsb_touch. exact Hc.
Qed.

Lemma create_keeps_unique f clk stamp title db :
  unique_ids db -> unique_ids (snd (create_conversation f clk stamp title db)).
Proof.
  intros [Hu1 Hu2].
  destruct (create_conversation_any_title f clk stamp title db)
    as [[e ->] | [t ->]]; [split; assumption |].
  split; simpl; [| exact Hu2].
  rewrite map_app. simpl.
  apply NoDup_snoc; [exact Hu1 | apply next_rowid_fresh].
Qed.

Lemma update_keeps_unique f clk id status db :
  unique_ids db ->
  unique_ids (snd (update_conversation_status f clk id status db)).
Proof.
  intros [Hu1 Hu2].
  destruct (SessionFacts.update_status_cases f clk id status db)
    as [[e ->] | ->]; [split; assumption |].
  split; simpl; [rewrite map_id_status; exact Hu1 | exact Hu2].
Qed.

Lemma add_keeps_unique f clk cid role content dur db :
  unique_ids db -> unique_ids (snd (add_message f clk cid role content dur db)).
Proof.
  intros [Hu1 Hu2].
  destruct (add_message_cases f clk cid role content dur db)
    as [[e ->] | [Hc ->]]; [split; assumption |].
  split; simpl; [rewrite map_id_touch; exact Hu1 |].
  rewrite map_app. simpl.
  apply NoDup_snoc; [exact Hu2 | apply next_rowid_fresh].
Qed.

Lemma grew_refl (db : Store) : grew db db.
Proof. split; exists []; rewrite app_nil_r; reflexivity. Qed.

Lemma grew_trans (a b c : Store) : grew a b -> grew b c -> grew a c.
Proof.
  intros [[m1 H1] [c1 H1']] [[m2 H2] [c2 H2']].
  split.
  - exists (m1 ++ m2). rewrite H2, H1, app_assoc. reflexivity.
  - exists (c1 ++ c2). rewrite H2', H1', app_assoc. reflexivity.
Qed.

Lemma create_grows f clk stamp title db :
  grew db (snd (create_conversation f clk stamp title db)).
Proof.
  destruct (create_conversation_any_title f clk stamp title db)
    as [[e ->] | [t ->]]; [apply grew_refl |].
  split; simpl.
  - exists []. rewrite app_nil_r. reflexivity.
  - eexists. rewrite map_app. reflexivity.
Qed.

Lemma update_grows f clk id status db :
  grew db (snd (update_conversation_status f clk id status db)).
Proof.
  destruct (SessionFacts.update_status_cases f clk id status db)
    as [[e ->] | ->]; [apply grew_refl |].
  split; simpl.
  - exists []. rewrite app_nil_r. reflexivity.
  - exists []. rewrite app_nil_r. apply map_core_status.
Qed.

Lemma add_grows f clk cid role content dur db :
  grew db (snd (add_message f clk cid role content dur db)).
Proof.
  destruct (add_message_cases f clk cid role content dur db)
    as [[e ->] | [Hc ->]]; [apply grew_refl |].
  split; simpl.
  - eexists. reflexivity.
  - exists []. rewrite app_nil_r. apply map_core_touch.
Qed.

(** Whatever the arguments and whatever the engine fails, the three
    operations that write keep the foreign key of [messages]: a file in
    which every message belongs to a conversation of the file is left as
    such a file. *)
Theorem writes_keep_foreign_key (f : Fault) (clk : Clock) (db : Store) :
  fk_ok db ->
  (forall stamp title,
     fk_ok (snd (create_conversation f clk stamp title db)))
  /\ (forall id status,
        fk_ok (snd (update_conversation_status f clk id status db)))
  /\ (forall cid role content dur,
        fk_ok (snd (add_message f clk cid role content dur db))).
Proof.
  intros Hfk. split; [| split]; intros.
  - apply create_keeps_fk, Hfk.
  - apply update_keeps_fk, Hfk.
  - apply add_keeps_fk, Hfk.
Qed.

Lemma writes_keep_foreign_key_witness :
  fk_ok (snd (add_message None (fun _ => 100) 1 "user" "hello" None
                Examples.one_conversation)).
Proof.
  destruct (@writes_keep_foreign_key None (fun _ => 100)
              Examples.one_conversation) as (_ & _ & H).
  - constructor.
  - apply H.
Defined.

(** The ids that the store hands out are new: [create_conversation] returns
    an id greater than every conversation id of the file and [add_message]
    one greater than every message id, so that ids that are unique stay
    unique under the three operations that write, whatever the engine
    fails. *)
Theorem ids_are_new_and_unique (f : Fault) (clk : Clock) (db : Store) :
  (forall stamp title,
     match create_conversation f clk stamp title db with
     | (DbOk id, _) => Forall (fun c => c_id c < id) (conversations db)
     | (DbErr _, _) => True
     end)
  /\ (forall cid role content dur,
        match add_message f clk cid role content dur db with
        | (DbOk id, _) => Forall (fun m => m_id m < id) (messages db)
        | (DbErr _, _) => True
        end)
  /\ (unique_ids db ->
      (forall stamp title,
         unique_ids (snd (create_conversation f clk stamp title db)))
      /\ (forall id status,
            unique_ids (snd (update_conversation_status f clk id status db)))
      /\ (forall cid role content dur,
            unique_ids (snd (add_message f clk cid role content dur db)))).
Proof.
  split; [| split].
  - intros stamp title.
    destruct (create_conversation_any_title f clk stamp title db)
      as [[e ->] | [t ->]]; [exact I |].
    apply Forall_forall. intros c Hc.
    apply max_id_ge. apply in_map. exact Hc.
  - intros cid role content dur.
    destruct (add_message_cases f clk cid role content dur db)
      as [[e ->] | [Hc ->]]; [exact I |].
    apply Forall_forall. intros m Hm.
    apply max_id_ge. apply in_map. exact Hm.
  - intros Hu. split; [| split]; intros.
    + apply create_keeps_unique, Hu.
    + apply update_keeps_unique, Hu.
    + apply add_keeps_unique, Hu.
Qed.

Lemma ids_are_new_and_unique_witness :
  unique_ids (snd (create_conversation None (fun _ => 100) "now" None
                     Examples.one_conversation)).
Proof.
  destruct (@ids_are_new_and_unique None (fun _ => 100)
              Examples.one_conversation) as (_ & _ & H).
  destruct H as (Hc & _ & _).
  - split; simpl; repeat constructor. simpl. tauto.
  - apply Hc.
Defined.

(** No operation removes or rewrites a message, and none removes a
    conversation or changes its id, title or creation time: after each of
    the three operations that write, whatever the engine fails, the file
    has what it had, in place, and possibly more. *)
Theorem writes_only_add (f : Fault) (clk : Clock) (db : Store) :
  (forall stamp title, grew db (snd (create_conversation f clk stamp title db)))
  /\ (forall id status,
        grew db (snd (update_conversation_status f clk id status db)))
  /\ (forall cid role content dur,
        grew db (snd (add_message f clk cid role content dur db))).
Proof.
  split; [| split]; intros.
  - apply create_grows.
  - apply update_grows.
  - apply add_grows.
Qed.

(** *** Status updates and the conversation to resume *)

Lemma find_status_other (now id j : Z) (st : string) (l : list Conversation) :
  j <> id ->
  find (fun r => c_id r =? j) (map (status_row now id st) l)
  = find (fun r => c_id r =? j) l.
Proof.
  intros Hj. induction l as [|c l IH]; simpl; [reflexivity |].
  rewrite IH. unfold status_row.
  destruct (Z.eqb_spec (c_id c) id) as [E|E]; simpl; [| reflexivity].
  rewrite E. destruct (Z.eqb_spec id j); [exfalso; auto | reflexivity].
Qed.

Lemma find_none_fresh (id : Z) (l : list Conversation) :
  find (fun r => c_id r =? id) l = None -> ~ In id (map c_id l).
Proof.
  intros H Hin. apply in_map_iff in Hin. destruct Hin as (c & Hc & Hin).
  pose proof (find_none _ _ H c Hin) as Hn. simpl in Hn.
  rewrite Hc, Z.eqb_refl in Hn. discriminate.
Qed.

(** [update_conversation_status] is all or nothing.  When it returns, the
    conversation with the id, if there is one, has the status given,
    whatever string it is, and the time of the statement as [updated_at],
    and keeps its title and creation time; every other conversation and
    every message is what it was, and for an id that is not in the file no
    row changes.  It raises only what the engine raises at the UPDATE or
    at the commit, and then the file is what it was; with an engine that
    does not fail it returns, whether the id is in the file or not. *)
Theorem update_status_effect (f : Fault) (clk : Clock) (id : Z)
    (status : string) (db : Store) :
  match update_conversation_status f clk id status db with
  | (DbErr e, db') =>
      db' = db /\ (fault_at f 0 = Some e \/ fault_at f 1 = Some e)
  | (DbOk _, db') =>
      messages db' = messages db
      /\ (forall j, j <> id -> q_conversation j db' = q_conversation j db)
      /\ match q_conversation id db with
         | Some c =>
             q_conversation id db'
             = Some (mkConversation id (c_title c) (c_created_at c)
                                    (clk 0%nat) status)
         | None => conversations db' = conversations db
         end
  end
  /\ exists db',
       update_conversation_status None clk id status db = (DbOk tt, db').
Proof.
  split; [| eexists; reflexivity].
  assert (Hcases :
    (exists e, update_conversation_status f clk id status db = (DbErr e, db)
               /\ (fault_at f 0 = Some e \/ fault_at f 1 = Some e))
    \/ update_conversation_status f clk id status db
       = (DbOk tt,
          mkStore (map (status_row (clk 0%nat) id status) (conversations db))
                  (messages db) (seq_conversations db) (seq_messages db))).
  { unfold update_conversation_status, _get_connection, sql_bind, execute,
      commit, update_status, rollback, close.
    simpl.
    destruct (fault_at f 0) as [e0|]; [left; eauto |]. simpl.
    destruct (fault_at f 1) as [e1|]; [left; eauto |]. simpl.
    right. reflexivity. }
  destruct Hcases as [(e & -> & He) | ->]; [split; [reflexivity | exact He] |].
  split; [reflexivity |]. split.
  - intros j Hj. unfold q_conversation. simpl.
    apply find_status_other. exact Hj.
  - destruct (q_conversation id db) as [c|] eqn:Hq.
    + unfold q_conversation in *. simpl. rewrite find_status, Hq. simpl.
      unfold status_row. rewrite (found_id _ _ Hq), Z.eqb_refl. reflexivity.
    + simpl. apply SessionFacts.status_row_other.
      apply find_none_fresh. exact Hq.
Qed.

Lemma conv_newer_total (a b : Conversation) :
  newer_first a b = false -> newer_first b a = true.
Proof.
  unfold newer_first. intros H. apply Z.leb_gt in H. apply Z.leb_le. lia.
Qed.

Lemma conv_newer_trans (a b c : Conversation) :
  newer_first a b = true -> newer_first b c = true -> newer_first a c = true.
Proof.
  unfold newer_first. intros H1 H2.
  apply Z.leb_le in H1. apply Z.leb_le in H2. apply Z.leb_le. lia.
Qed.

Lemma last_active_spec (db : Store) :
  match q_last_active db with
  | None => Forall (fun c => is_active c = false) (conversations db)
  | Some c =>
      In c (conversations db)
      /\ is_active c = true
      /\ Forall (fun c' => is_active c' = true ->
                           c_updated_at c' <= c_updated_at c)
                (conversations db)
  end.
Proof.
  unfold q_last_active.
  set (act := filter (fun c => (c_status c =? "active")%string) (conversations db)).
  pose proof (order_by_perm newer_first act) as Hperm.
  pose proof (@order_by_sorted _ newer_first conv_newer_total conv_newer_trans
                act) as Hsorted.
  destruct (order_by newer_first act) as [|c rest] eqn:E; simpl.
  - apply Permutation_nil in Hperm.
    apply Forall_forall. intros c Hc.
    destruct (is_active c) eqn:Ha; [| reflexivity].
    assert (Hin : In c act) by (apply filter_In; auto).
    rewrite Hperm in Hin. destruct Hin.
  - assert (Hc : In c act).
    { eapply Permutation_in; [exact Hperm | left; reflexivity]. }
    apply filter_In in Hc. destruct Hc as [Hc Ha].
    split; [exact Hc |]. split; [exact Ha |].
    apply Forall_forall. intros c' Hc' Ha'.
    assert (Hin : In c' (c :: rest)).
    { eapply Permutation_in; [apply Permutation_sym, Hperm |].
      apply filter_In. auto. }
    inversion Hsorted as [|x l _ Hx]; subst.
    destruct Hin as [<- | Hin]; [lia |].
    rewrite Forall_forall in Hx. specialize (Hx _ Hin).
    unfold newer_first in Hx. apply Z.leb_le in Hx. exact Hx.
Qed.

(** [get_last_active_conversation] returns a conversation of the file that
    has status [active] and that no active conversation was updated after,
    and returns none only when no conversation is active; it never changes
    the file. *)
Theorem last_active_is_newest_active (db : Store) :
  (forall f, snd (get_last_active_conversation f db) = db)
  /\ exists found,
       get_last_active_conversation None db = (DbOk found, db)
       /\ match found with
          | None => Forall (fun c => is_active c = false) (conversations db)
          | Some c =>
              In c (conversations db)
              /\ is_active c = true
              /\ Forall (fun c' => is_active c' = true ->
                                   c_updated_at c' <= c_updated_at c)
                        (conversations db)
          end.
Proof.
  split.
  - intros f.
    destruct (SessionFacts.get_last_active_cases f db) as [[e ->] | ->];
      reflexivity.
  - exists (q_last_active db). split; [reflexivity | apply last_active_spec].
Qed.

(** A conversation whose status was set to anything but [active] is not
    the one that [get_last_active_conversation] returns afterwards. *)
Theorem paused_is_not_last_active (f : Fault) (clk : Clock) (id : Z)
    (status : string) (db db' : Store) (c : Conversation) :
  status <> "active" ->
  update_conversation_status f clk id status db = (DbOk tt, db') ->
  get_last_active_conversation None db' = (DbOk (Some c), db') ->
  c_id c <> id.
Proof.
  intros Hs Hup Hget Hid.
  destruct (SessionFacts.update_status_cases f clk id status db)
    as [[e He] | He]; rewrite He in Hup; [discriminate |].
  injection Hup as <-.
  assert (Hq : q_last_active
                 (mkStore (map (status_row (clk 0%nat) id status)
                               (conversations db))
                          (messages db) (seq_conversations db)
                          (seq_messages db)) = Some c).
  { unfold get_last_active_conversation, _get_connection, sql_bind, execute,
      select, sql_ret, close in Hget. simpl in Hget.
    injection Hget as Hget. exact Hget. }
  pose proof (last_active_spec
                (mkStore (map (status_row (clk 0%nat) id status)
                              (conversations db))
                         (messages db) (seq_conversations db)
                         (seq_messages db))) as Hspec.
  rewrite Hq in Hspec. simpl in Hspec. destruct Hspec as (Hin & Ha & _).
  apply in_map_iff in Hin. destruct Hin as (c0 & Hc0 & _).
  unfold status_row in Hc0.
  destruct (Z.eqb_spec (c_id c0) id) as [E|E].
  - subst c. unfold is_active in Ha. simpl in Ha.
    apply String.eqb_eq in Ha. contradiction.
  - subst c. contradiction.
Qed.

Lemma paused_is_not_last_active_witness :
  get_last_active_conversation None
    (snd (update_conversation_status None (fun _ => 200) 1 "paused"
            MoreExamples.two_conversations))
  = (DbOk (Some (mkConversation 2 "second" 150 150 "active")),
     snd (update_conversation_status None (fun _ => 200) 1 "paused"
            MoreExamples.two_conversations))
  /\ 2 <> 1.
Proof.
  split; [reflexivity |].
  apply (@paused_is_not_last_active None (fun _ => 200) 1 "paused"
           MoreExamples.two_conversations
           (snd (update_conversation_status None (fun _ => 200) 1 "paused"
                   MoreExamples.two_conversations))
           (mkConversation 2 "second" 150 150 "active"));
    [discriminate | reflexivity | reflexivity].
Defined.

(** *** The listing *)

Lemma fold_max_is_max (x : Z) (l : list Z) :
  In (fold_right Z.max x l) (x :: l)
  /\ x <= fold_right Z.max x l
  /\ Forall (fun y => y <= fold_right Z.max x l) l.
Proof.
  induction l as [|y l (Hin & Hx & Hall)]; simpl.
  - split; [auto |]. split; [lia | constructor].
  - destruct (Z.max_spec y (fold_right Z.max x l)) as [[Hlt ->] | [Hge ->]].
    + split; [simpl in Hin; tauto |]. split; [exact Hx |].
      constructor; [lia | exact Hall].
    + split; [auto |]. split; [lia |].
      constructor; [lia |].
      eapply Forall_impl; [| exact Hall]. simpl. intros; lia.
Qed.

Lemma sql_max_is_max (l : list Z) :
  match sql_max l with
  | None => l = []
  | Some t => In t l /\ Forall (fun x => x <= t) l
  end.
Proof.
  destruct l as [|x rest]; simpl; [reflexivity |].
  destruct (fold_max_is_max x rest) as (Hin & Hx & Hall).
  split; [exact Hin | constructor; assumption].
Qed.

(** In every entry of [list_conversations] the [last_message_time] is the
    timestamp of a message of the conversation that no message of the
    conversation is later than, and it is missing exactly when the
    conversation has no messages. *)
Theorem last_message_time_is_latest (limit : Z) (db : Store) :
  exists rows,
    list_conversations None limit db = (DbOk rows, db)
    /\ Forall
         (fun r =>
            match last_message_time r with
            | None => rows_of (c_id (l_row r)) db = []
            | Some t =>
                In t (map m_timestamp (rows_of (c_id (l_row r)) db))
                /\ Forall (fun m => m_timestamp m <= t)
                          (rows_of (c_id (l_row r)) db)
            end)
         rows.
Proof.
  exists (q_list limit db). split; [reflexivity |].
  apply Forall_forall. intros r Hr.
  unfold q_list in Hr. apply sql_limit_incl in Hr.
  eapply Permutation_in in Hr; [| apply order_by_perm].
  apply in_map_iff in Hr. destruct Hr as (c & <- & _). simpl.
  pose proof (sql_max_is_max (map m_timestamp (joined db c))) as H.
  unfold joined in *. fold (rows_of (c_id c) db) in *.
  destruct (sql_max (map m_timestamp (rows_of (c_id c) db))) as [t|].
  - destruct H as [Hin Hall]. split; [exact Hin |].
    rewrite Forall_map in Hall. exact Hall.
  - apply map_eq_nil in H. exact H.
Qed.

End StoreMore.

(** ** More about the configuration *)

Module ConfigMore.

Import Config Session Terms.



(** A configuration that [get_config] returns is one that
    [EVIClient.__init__] accepts: with its key and its configuration id the
    constructor raises neither of its [ValueError]s, and the client it
    returns has these two values, no callback and no audio stream yet. *)
Theorem loaded_config_builds_client (cli_dir : string) (env : Environ)
    (cfg : Config) (s : State) :
  get_config cli_dir env = inr cfg ->
  EVIClient__init__ (hume_api_key cfg) (hume_config_id cfg) s
  = (Ret (mkEVIClient (hume_api_key cfg) (hume_config_id cfg) [] false), s).
Proof.
  intros Hcfg.
  destruct (CliFacts.get_config_keys _ _ Hcfg) as [Hk Hc].
  unfold EVIClient__init__. simpl.
  destruct (String.eqb_spec (hume_api_key cfg) ""); [contradiction |].
  destruct (String.eqb_spec (hume_config_id cfg) ""); [contradiction |].
  reflexivity.
Qed.

Lemma loaded_config_builds_client_witness :
  fst (EVIClient__init__ "key" "cfg"
         (ConversationManager__init__ Database.empty_store))
  = Ret (mkEVIClient "key" "cfg" [] false).
Proof.
  pose proof (@loaded_config_builds_client "cli" Examples.good_environ
                (mkConfig "key" "cfg" false "cli/conversations.db" None)
                (ConversationManager__init__ Database.empty_store)
                eq_refl) as H.
  simpl in H. rewrite H. reflexivity.
Defined.

End ConfigMore.

(** ** More about the session *)

Module SessionMore.

Import Database Session Terms Notions.
Import SessionFacts.

(** *** Whatever the three writing operations keep, a session keeps *)

Section Keeps.
Variable J : Store -> Prop.
Hypothesis J_create :
  forall f clk stamp w, J w -> J (snd (create_conversation f clk stamp None w)).
Hypothesis J_update :
  forall f clk id status w,
    J w -> J (snd (update_conversation_status f clk id status w)).
Hypothesis J_add :
  forall f clk id role content w,
    J w -> J (snd (add_message f clk id role content None w)).

Let J' (w : Store) (_ : option Z) : Prop := J w.
Let P (_ : Effect) : Prop := True.
Let any {A} (_ : Outcome A) : Prop := True.

Lemma deliver_keeps (sc : Scenario) (c : EVIClient) (evs : list ChannelEvent) :
  holds J' P (fun o => o = Ret tt) (deliver sc c evs).
Proof.
  eapply holds_effects; [apply deliver_holds | intros; exact I].
  intros f clk id role content w c0 _. apply J_add.
Qed.

Lemma connected_keeps (cfg : Config.Config) (sc : Scenario) (c : EVIClient) :
  holds J' P any (connected cfg sc c).
Proof.
  eapply holds_weaken; [| intros; exact I].
  eapply holds_effects; [apply connected_holds | intros; exact I].
  intros f clk id role content w c0 _. apply J_add.
Qed.

Lemma with_connection_keeps (sc : Scenario) (body : M unit) :
  holds J' P any body -> holds J' P any (with_connection sc body).
Proof.
  intros Hb. unfold with_connection.
  destruct (sc_connect sc) as [r|]; [apply holds_raise; exact I |].
  apply holds_bind with (Q1 := any);
    [apply holds_emit; exact I | | auto].
  intros [] _.
  apply holds_bind with (Q1 := any);
    [apply holds_emit; exact I | | auto].
  intros [] _ s o s' HJ E.
  destruct (body s) as [o1 s1] eqn:E1.
  destruct (Hb s _ _ HJ E1) as (_ & HJ1 & out1 & Ht1 & Hp1).
  simpl in E.
  split; [exact I |].
  destruct (sc_close sc); injection E as <- <-; simpl;
    (split; [exact HJ1 |]);
    exists (out1 ++ [ChannelClose]); rewrite Ht1, app_assoc;
    (split; [reflexivity |]); apply Forall_forall; intros; exact I.
Qed.

Lemma cleanup_keeps (sc : Scenario) :
  holds J' P (fun o => o = Ret tt) (_cleanup sc).
Proof.
  unfold _cleanup.
  apply holds_bind with (Q1 := fun o => o = Ret tt).
  - apply holds_try_except with (Q1 := @caught unit).
    + apply holds_get. intros cid.
      destruct (truthy_id cid); [| apply holds_ret; exact I].
      apply holds_store_call.
      * exact I.
      * intros f clk stamp w c0; simpl. apply J_update.
      * intros; exact I.
      * intros; exact I.
    + intros e _. apply holds_emit; [exact I | reflexivity].
    + intros [] _. reflexivity.
    + intros [].
    + intros [].
  - intros [] _.
    apply holds_bind with (Q1 := fun o => o = Ret tt).
    + apply holds_try_except with (Q1 := fun o => o = Ret tt).
      * unfold stop_microphone.
        apply holds_bind with (Q1 := fun o => o = Ret tt).
        -- apply holds_emit; [exact I | reflexivity].
        -- intros [] _.
           apply holds_try_except with (Q1 := fun o => o = Ret tt).
           ++ apply holds_emit; [exact I | reflexivity].
           ++ intros e H. discriminate H.
           ++ auto.
           ++ auto.
           ++ auto.
        -- auto.
      * intros e H. discriminate H.
      * auto.
      * auto.
      * auto.
    + intros [] _. apply holds_emit; [exact I | reflexivity].
    + auto.
  - auto.
Qed.

Lemma set_up_keeps (sc : Scenario) (conversation_id : option Z) :
  holds J' P any (set_up_conversation sc conversation_id).
Proof.
  unfold set_up_conversation.
  destruct (truthy_id conversation_id).
  - apply holds_bind with (Q1 := any); [| | auto].
    + apply holds_store_call; try (intros; exact I).
      intros f clk stamp w c0 HJ; simpl. unfold J'.
      rewrite get_keeps_file. exact HJ.
    + intros [conv|] _.
      * apply holds_bind with (Q1 := any);
          [apply holds_set_id; [auto | exact I] | | auto].
        intros [] _.
        apply holds_bind with (Q1 := any); [| | auto].
        -- apply holds_store_call; try (intros; exact I).
           intros f clk stamp w c0; simpl. apply J_update.
        -- intros [] _.
           apply holds_bind with (Q1 := any);
             [apply holds_emit; exact I | | auto].
           intros [] _. apply holds_ret. exact I.
      * apply holds_bind with (Q1 := any);
          [apply holds_emit; exact I | | auto].
        intros [] _. apply holds_ret. exact I.
  - apply holds_bind with (Q1 := any); [| | auto].
    + apply holds_store_call; try (intros; exact I).
      intros f clk stamp w c0; simpl. apply J_create.
    + intros id _.
      apply holds_bind with (Q1 := any);
        [apply holds_set_id; [auto | exact I] | | auto].
      intros [] _. apply holds_get. intros cid.
      apply holds_bind with (Q1 := any);
        [apply holds_emit; exact I | | auto].
      intros [] _. apply holds_ret. exact I.
Qed.

Lemma clauses_keeps (cfg : Config.Config) (sc : Scenario)
    (conversation_id : option Z) :
  holds J' P (fun o => o = Ret tt \/ o = Raise CancelledError)
        (try_clauses (attempt cfg sc conversation_id)
                     (console InterruptedByUser) report).
Proof.
  apply holds_try_clauses with (Q1 := any).
  - unfold attempt.
    apply holds_bind with (Q1 := any);
      [apply holds_emit; exact I | | auto].
    intros [] _.
    apply holds_bind with (Q1 := any); [| | auto].
    { unfold EVIClient__init__.
      destruct (negb _); [apply holds_raise; exact I |].
      destruct (negb _); [apply holds_raise; exact I |].
      apply holds_ret. exact I. }
    intros c _.
    apply holds_bind with (Q1 := any);
      [apply holds_set_evi_client; exact I | | auto].
    intros [] _.
    apply holds_bind with (Q1 := any); [apply set_up_keeps | | auto].
    intros [|] _; [| apply holds_ret; exact I].
    apply holds_bind with (Q1 := any);
      [apply holds_set_evi_client; exact I | | auto].
    intros [] _. apply with_connection_keeps. apply connected_keeps.
  - intros _. apply holds_emit; [exact I | left; reflexivity].
  - intros e _.
    apply holds_weaken with (Q := fun o => o = Ret tt); [| auto].
    unfold report.
    destruct (is_session_end e).
    + repeat (apply holds_bind with (Q1 := fun o => o = Ret tt);
              [apply holds_emit; [exact I | reflexivity]
              | intros [] _ | auto]).
      apply holds_emit; [exact I | reflexivity].
    + apply holds_bind with (Q1 := fun o => o = Ret tt);
        [apply holds_emit; [exact I | reflexivity]
        | intros [] _ | auto].
      apply holds_emit; [exact I | reflexivity].
  - intros [] _. left. reflexivity.
  - intros _. right. reflexivity.
Qed.

Lemma start_conversation_keeps (cfg : Config.Config) (sc : Scenario)
    (conversation_id : option Z) :
  holds J' P (fun o => o = Ret tt \/ o = Raise CancelledError)
        (start_conversation cfg sc conversation_id).
Proof.
  unfold start_conversation.
  apply holds_try_finally
    with (Q1 := fun o => o = Ret tt \/ o = Raise CancelledError);
    [apply clauses_keeps | apply cleanup_keeps | auto].
Qed.

Lemma session_keeps (cfg : Config.Config) (sc : Scenario)
    (conversation_id : option Z) (s : State) :
  J (db s) -> J (db (snd (start_conversation cfg sc conversation_id s))).
Proof.
  intros HJ.
  destruct (start_conversation cfg sc conversation_id s) as [o s'] eqn:E.
  destruct (start_conversation_keeps cfg sc conversation_id s HJ E)
    as (_ & HJ' & _).
  exact HJ'.
Qed.
End Keeps.

Lemma everything (l : list Effect) : Forall (fun _ : Effect => True) l.
Proof. apply Forall_forall. intros; exact I. Qed.

(** A session leaves a file that has all that the file had before, and it
    keeps the foreign key of [messages] and the uniqueness of the ids:
    whatever the scenario (events, faults of the engine, the way the
    session ends) and whatever the id asked for. *)
Theorem session_keeps_file_sound (cfg : Config.Config) (sc : Scenario)
    (conversation_id : option Z) (s : State) :
  grew (db s) (db (snd (start_conversation cfg sc conversation_id s)))
  /\ (fk_ok (db s) ->
      fk_ok (db (snd (start_conversation cfg sc conversation_id s))))
  /\ (unique_ids (db s) ->
      unique_ids (db (snd (start_conversation cfg sc conversation_id s)))).
Proof.
  split; [| split].
  - apply session_keeps with (J := grew (db s)).
    + intros f clk stamp w H. eapply StoreMore.grew_trans; [exact H |].
      apply StoreMore.create_grows.
    + intros f clk id status w H. eapply StoreMore.grew_trans; [exact H |].
      apply StoreMore.update_grows.
    + intros f clk id role content w H.
      eapply StoreMore.grew_trans; [exact H |]. apply StoreMore.add_grows.
    + apply StoreMore.grew_refl.
  - apply session_keeps with (J := fk_ok).
    + intros. apply StoreMore.create_keeps_fk. assumption.
    + intros. apply StoreMore.update_keeps_fk. assumption.
    + intros. apply StoreMore.add_keeps_fk. assumption.
  - apply session_keeps with (J := unique_ids).
    + intros. apply StoreMore.create_keeps_unique. assumption.
    + intros. apply StoreMore.update_keeps_unique. assumption.
    + intros. apply StoreMore.add_keeps_unique. assumption.
Qed.

Lemma session_keeps_file_sound_witness :
  fk_ok (db (snd (start_conversation Examples.good_config Examples.cancelled
                    None
                    (ConversationManager__init__ Examples.one_conversation)))).
Proof.
  destruct (@session_keeps_file_sound Examples.good_config Examples.cancelled
              None (ConversationManager__init__ Examples.one_conversation))
    as (_ & H & _).
  apply H. constructor.
Defined.

(** *** The event callbacks *)

Lemma dispatch_returns (sc : Scenario) (c : EVIClient) (ev : ChannelEvent)
    (s : State) :
  exists s',
    dispatch sc c ev s = (Ret tt, s')
    /\ current_conversation_id s' = current_conversation_id s
    /\ exists out, trace s' = trace s ++ out
                   /\ Forall (fun e => from_handler e = true) out.
Proof.
  destruct (dispatch sc c ev s) as [o s'] eqn:E.
  destruct (@dispatch_holds
              (fun _ cid => cid = current_conversation_id s)
              (fun f clk id role content w c0 _ H => H) sc c ev s o s'
              eq_refl E) as (-> & Hc & Hout).
  exists s'. auto.
Qed.

Lemma deliver_app (sc : Scenario) (c : EVIClient) (a b : list ChannelEvent)
    (s : State) :
  deliver sc c (a ++ b) s = deliver sc c b (snd (deliver sc c a s)).
Proof.
  revert s. induction a as [|ev a IH]; intros s; [reflexivity |].
  simpl. unfold bind.
  destruct (dispatch_returns sc c ev s) as (s1 & -> & _).
  apply IH.
Qed.

(** What a channel event does stays in its handler.  Delivering any events
    to the client never raises, whatever is in them, whatever the
    callbacks do and whatever the engine fails: it leaves the current
    conversation id as it is, its effects are those of the handlers, and
    the events that follow are handled from the state the earlier ones
    left, as if they had come alone. *)
Theorem channel_events_are_contained (sc : Scenario) (c : EVIClient)
    (evs : list ChannelEvent) (s : State) :
  (exists s',
     deliver sc c evs s = (Ret tt, s')
     /\ current_conversation_id s' = current_conversation_id s
     /\ exists out, trace s' = trace s ++ out
                    /\ Forall (fun e => from_handler e = true) out)
  /\ forall more,
       deliver sc c (evs ++ more) s
       = deliver sc c more (snd (deliver sc c evs s)).
Proof.
  split; [| intros more; apply deliver_app].
  destruct (deliver sc c evs s) as [o s'] eqn:E.
  destruct (@deliver_holds
              (fun _ cid => cid = current_conversation_id s)
              (fun f clk id role content w c0 _ H => H) sc c evs s o s'
              eq_refl E) as (-> & Hc & Hout).
  exists s'. auto.
Qed.

(** A message that cannot be saved is still shown.  When [add_message]
    raises inside the callback, for a role other than [system] and with a
    current conversation, the callback returns, the failure is logged
    right after the call, the file is what it was, and the line for the
    role is printed. *)
Theorem failed_save_is_logged (sc : Scenario) (role content : string)
    (id : Z) (e : Exn) (w : Store) (s : State) :
  role <> "system" ->
  current_conversation_id s = Some id ->
  id <> 0 ->
  add_message (sc_fault sc (store_calls s)) (sc_clock sc (store_calls s)) id
              role content None (db s) = (DbErr e, w) ->
  exists s' line,
    _save_message_callback sc role content s = (Ret tt, s')
    /\ db s' = db s
    /\ trace s' = trace s ++ [StoreCall (AddMessage id role content);
                              Log (FailedToSaveMessage e)] ++ line
    /\ line = (if (role =? "assistant")%string then [Console (EviSaid content)]
               else if (role =? "user")%string then [Console (YouSaid content)]
               else []).
Proof.
  intros Hr Hcid Hid Hadd.
  assert (Hw : w = db s).
  { destruct (StoreFacts.add_message_cases (sc_fault sc (store_calls s))
                (sc_clock sc (store_calls s)) id role content None (db s))
      as [[e' H] | [_ H]]; rewrite H in Hadd; [| discriminate].
    injection Hadd as _ <-. reflexivity. }
  subst w.
  unfold _save_message_callback, bind, get, try_except, store_call, logger,
    console, emit, ret.
  rewrite Hcid. simpl.
  destruct (String.eqb_spec role "system") as [|_]; [contradiction |].
  destruct (Z.eqb_spec id 0) as [|_]; [contradiction |].
  simpl. rewrite Hadd. simpl.
  destruct (role =? "assistant")%string;
    [| destruct (role =? "user")%string];
    do 2 eexists; simpl;
    (split; [reflexivity |]); (split; [reflexivity |]);
    (split; [rewrite <- ?app_assoc; reflexivity | reflexivity]).
Qed.

Lemma failed_save_is_logged_witness :
  exists s',
    _save_message_callback MoreExamples.failing_store "user" "hello"
      (MoreExamples.in_session Examples.one_conversation)
    = (Ret tt, s')
    /\ db s' = Examples.one_conversation
    /\ trace s' = [StoreCall (AddMessage 1 "user" "hello");
                   Log (FailedToSaveMessage MoreExamples.disk_full);
                   Console (YouSaid "hello")].
Proof.
  destruct (@failed_save_is_logged MoreExamples.failing_store "user" "hello" 1
              MoreExamples.disk_full Examples.one_conversation
              (MoreExamples.in_session Examples.one_conversation))
    as (s' & line & H1 & H2 & H3 & H4).
  - discriminate.
  - reflexivity.
  - discriminate.
  - reflexivity.
  - exists s'. split; [exact H1 |]. split; [exact H2 |].
    rewrite H3, H4. reflexivity.
Defined.

(** *** The playback queue *)

Lemma notify_system (sc : Scenario) (cbs : list Callback) (content : string)
    (s : State) :
  exists out,
    notify sc cbs "system" content s
    = (Ret tt, mkState (db s) (current_conversation_id s) (running s)
                       (evi_client s) (stream s) (store_calls s)
                       (trace s ++ out) (pending_interrupt s)).
Proof.
  revert s. induction cbs as [|cb cbs IH]; intros s.
  - exists []. rewrite app_nil_r. destruct s; reflexivity.
  - destruct cb. simpl. unfold bind at 1.
    unfold _save_message_callback, bind, get, ret, console, emit. simpl.
    match goal with
    | |- exists out, notify _ _ _ _ ?s1 = _ =>
        destruct (IH s1) as [out ->]
    end.
    simpl. exists (Console (SystemSaid content) :: out).
    rewrite <- app_assoc. reflexivity.
Qed.

(** The queue of audio that is played back is first in, first out: with an
    audio stream set, [audio_output] messages that decode append their
    bytes at the tail, in the order they come, and do nothing else; an
    [audio_output] message that does not decode leaves the queue as it is
    and is logged; a [user_interruption] empties the queue, and changes
    neither the file nor the number of Store calls. *)
Theorem playback_queue (sc : Scenario) (c : EVIClient) :
  audio_stream c = true ->
  (forall evs frames s,
     Forall2 carries evs frames ->
     deliver sc c evs s
     = (Ret tt, mkState (db s) (current_conversation_id s) (running s)
                        (evi_client s) (stream s ++ frames) (store_calls s)
                        (trace s) (pending_interrupt s)))
  /\ (forall m e s,
        msg_type m = "audio_output" -> msg_audio m = inl e ->
        dispatch sc c (OnMessage m) s
        = (Ret tt, mkState (db s) (current_conversation_id s) (running s)
                           (evi_client s) (stream s) (store_calls s)
                           (trace s ++ [Log (ErrorHandlingMessage e)])
                           (pending_interrupt s)))
  /\ (forall m s,
        msg_type m = "user_interruption" ->
        exists s',
          dispatch sc c (OnMessage m) s = (Ret tt, s')
          /\ stream s' = []
          /\ db s' = db s
          /\ store_calls s' = store_calls s).
Proof.
  intros Hc. split; [| split].
  - intros evs frames s H. revert s.
    induction H as [|ev bytes evs frames (m & -> & Ht & Ha) _ IH]; intros s.
    + rewrite app_nil_r. destruct s; reflexivity.
    + simpl. unfold bind at 1, _handle_message, try_except.
      rewrite Ht, Hc, Ha. simpl.
      unfold bind, get, set_stream. rewrite IH. simpl.
      rewrite <- app_assoc. reflexivity.
  - intros m e s Ht Ha. simpl. unfold _handle_message, try_except.
    rewrite Ht, Hc, Ha. reflexivity.
  - intros m s Ht. simpl. unfold _handle_message, try_except.
    rewrite Ht, Hc. simpl. unfold bind at 1, set_stream.
    match goal with
    | |- context [notify sc ?cbs "system" ?t ?s1] =>
        destruct (notify_system sc cbs t s1) as [out ->]
    end.
    eexists. split; [reflexivity |]. simpl. auto.
Qed.

Lemma playback_queue_witness :
  stream (snd (deliver Examples.cancelled
                 (set_audio_stream (mkEVIClient "key" "cfg" [] false))
                 [OnMessage (mkEvent "audio_output" (inr "a") "");
                  OnMessage (mkEvent "audio_output" (inr "b") "")]
                 (ConversationManager__init__ Examples.one_conversation)))
  = ["a"; "b"].
Proof.
  destruct (@playback_queue Examples.cancelled
              (set_audio_stream (mkEVIClient "key" "cfg" [] false)) eq_refl)
    as (H & _ & _).
  rewrite (H _ ["a"; "b"]).
  - reflexivity.
  - constructor; [eexists; split; [reflexivity |]; split; reflexivity |].
    constructor; [eexists; split; [reflexivity |]; split; reflexivity |].
    constructor.
Defined.

End SessionMore.
